(** * The simulation engine of system-design-studio (src/core/simulator.ts)

    A shallow embedding of the class [SimulationEngine]: its lifecycle
    methods, the tick (request generation, request processing, metrics
    aggregation, auto-scaling, chaos effects, snapshots), the bottleneck
    analysis and the result synthesis, followed by the properties of the
    engine that the specification states and by further properties of its
    log, its metrics, its requests and its reports. *)

From Stdlib Require Import String List ZArith QArith Qround Lia Bool Arith.
From Stdlib Require Import Sorted Permutation Relations Lqa.
Import ListNotations.

Local Open Scope nat_scope.

(** ** JavaScript numbers

    Counters that the engine only ever initialises to [0] and increments are
    natural numbers.  Configuration values and simulated times are finite
    rationals.  Quantities computed with a division keep the three
    non-finite results of IEEE arithmetic, so that [0/0], [x/0] and the
    maximum of no arguments are what JavaScript makes them.  Rounding and
    the sign of zero are not modelled: [0] is the positive zero. *)

Module Num.

Inductive num : Type :=
| Fin (q : Q)
| PInf
| NInf
| NaN.

Definition Qltb (a b : Q) : bool := negb (Qle_bool b a).

Definition ofNat (n : nat) : num := Fin (inject_Z (Z.of_nat n)).
Definition ofZ (z : Z) : num := Fin (inject_Z z).

Definition neg (a : num) : num :=
  match a with
  | Fin q => Fin (- q)
  | PInf => NInf
  | NInf => PInf
  | NaN => NaN
  end.

Definition add (a b : num) : num :=
  match a, b with
  | NaN, _ | _, NaN => NaN
  | Fin x, Fin y => Fin (x + y)
  | PInf, NInf | NInf, PInf => NaN
  | PInf, _ | _, PInf => PInf
  | NInf, _ | _, NInf => NInf
  end.

Definition sub (a b : num) : num := add a (neg b).

(** An infinity scaled by a finite factor. *)
Definition scaleInf (positive : bool) (q : Q) : num :=
  if Qeq_bool q 0 then NaN
  else if Bool.eqb positive (Qltb 0 q) then PInf else NInf.

Definition mul (a b : num) : num :=
  match a, b with
  | NaN, _ | _, NaN => NaN
  | Fin x, Fin y => Fin (x * y)
  | PInf, Fin y | Fin y, PInf => scaleInf true y
  | NInf, Fin y | Fin y, NInf => scaleInf false y
  | PInf, PInf | NInf, NInf => PInf
  | PInf, NInf | NInf, PInf => NaN
  end.

Definition div (a b : num) : num :=
  match a, b with
  | NaN, _ | _, NaN => NaN
  | Fin x, Fin y =>
      if Qeq_bool y 0
      then (if Qeq_bool x 0 then NaN else if Qltb 0 x then PInf else NInf)
      else Fin (x / y)
  | Fin _, PInf | Fin _, NInf => Fin 0
  | PInf, Fin y => if Qltb y 0 then NInf else PInf
  | NInf, Fin y => if Qltb y 0 then PInf else NInf
  | PInf, _ | NInf, _ => NaN
  end.

(** [a < b]; every comparison with NaN is false. *)
Definition ltb (a b : num) : bool :=
  match a, b with
  | NaN, _ | _, NaN => false
  | Fin x, Fin y => Qltb x y
  | NInf, NInf => false
  | NInf, _ => true
  | _, PInf => match a with PInf => false | _ => true end
  | _, _ => false
  end.

Definition gtb (a b : num) : bool := ltb b a.

(** [a >= b]. *)
Definition geb (a b : num) : bool :=
  match a, b with
  | NaN, _ | _, NaN => false
  | Fin x, Fin y => Qle_bool y x
  | PInf, _ => true
  | _, NInf => true
  | _, _ => false
  end.

(** [Math.min(a, b)] and [Math.max(a, b)]. *)
Definition min (a b : num) : num :=
  match a, b with
  | NaN, _ | _, NaN => NaN
  | _, _ => if ltb b a then b else a
  end.

Definition max (a b : num) : num :=
  match a, b with
  | NaN, _ | _, NaN => NaN
  | _, _ => if ltb a b then b else a
  end.

(** [Math.max(...xs)]: the maximum of no arguments is [-Infinity]. *)
Definition maxList (xs : list num) : num := fold_left max xs NInf.

End Num.

Abbreviation num := Num.num.

(** ** The graph (src/types/index.ts) *)

Inductive NodeType : Type :=
| CLIENT | API_GATEWAY | LOAD_BALANCER | SERVICE | DATABASE | CACHE
| QUEUE | PUBSUB | OBJECT_STORAGE | METRICS | RATE_LIMITER | CDN.

Definition NodeType_eq_dec (a b : NodeType) : {a = b} + {a <> b}.
Proof. decide equality. Defined.

Definition NodeType_eqb (a b : NodeType) : bool :=
  if NodeType_eq_dec a b then true else false.

(** Of a React Flow node the engine reads [id], [data.label] and
    [data.type]; of an edge, [source] and [target]. *)
Record SystemNodeData : Type := mkData {
  label : string;
  type : NodeType
}.

Record SystemNode : Type := mkNode {
  n_id : string;
  data : SystemNodeData
}.

Record SystemEdge : Type := mkEdge {
  source : string;
  target : string
}.

(** ** Configuration, requests, metrics and events (types/simulation) *)

Inductive ConsistencyMode : Type := strong | eventual.

(** Modelled from the spec: the declarations of types/simulation.ts are not
    among the sources; the records below have the fields that simulator.ts
    reads and writes, with the types section 3 of the specification gives
    them.  [network] is the latency matrix: the engine only ever looks up
    the key made of a source type and a target type, so it is a partial
    function of the two types. *)
Record SimulationConfig : Type := mkConfig {
  requestsPerSecond : Q;
  concurrentUsers : Q;
  payloadSize : Q;
  errorRate : Q;
  messageQueueDepth : Q;
  cacheHitRatio : Q;
  dbLatency : Q;
  serviceCpuCost : Q;
  autoScaling : bool;
  failureInjection : bool;
  chaosMode : bool;
  consistencyMode : ConsistencyMode;
  duration : Q;
  tickRate : Q;
  network : NodeType -> NodeType -> option Q
}.

Inductive SimulationStatus : Type :=
| IDLE | RUNNING | PAUSED | STOPPED | COMPLETED.

Definition SimulationStatus_eq_dec (a b : SimulationStatus) : {a = b} + {a <> b}.
Proof. decide equality. Defined.

Definition status_eqb (a b : SimulationStatus) : bool :=
  if SimulationStatus_eq_dec a b then true else false.

Inductive RequestStatus : Type :=
| pending | processing | completed | failed.

(** Request ids are the strings [req-N] and event ids the strings [evt-N];
    both are represented by [N]. *)
Record ActiveRequest : Type := mkRequest {
  r_id : nat;
  sourceNodeId : string;
  targetNodeId : string;
  path : list string;
  startTime : Q;
  currentLatency : Q;
  payload : Q;
  r_status : RequestStatus;
  progress : num
}.

Record NodeMetrics : Type := mkNodeMetrics {
  nodeId : string;
  m_requestsPerSecond : num;
  m_averageLatency : num;
  successRate : num;
  m_errorRate : num;
  queueDepth : nat;
  cpuUtilization : num;
  instances : Z;
  throughput : nat;
  cacheHitRate : option Q;
  queryRate : option nat
}.

Record SystemMetrics : Type := mkSystemMetrics {
  timestamp : Q;
  totalRequests : nat;
  successfulRequests : nat;
  failedRequests : nat;
  averageLatency : num;
  s_requestsPerSecond : num;
  s_errorRate : num;
  totalQueueDepth : nat;
  s_activeRequests : nat;
  scalingActions : nat
}.

Inductive SimulationEventType : Type :=
| REQUEST_SENT | REQUEST_PROCESSED | REQUEST_FAILED
| CACHE_HIT | CACHE_MISS | DB_QUERY
| QUEUE_ENQUEUE | BACKLOG_WARNING
| NODE_SCALED | NODE_OVERLOAD.

Definition SimulationEventType_eq_dec (a b : SimulationEventType) : {a = b} + {a <> b}.
Proof. decide equality. Defined.

Inductive Severity : Type := info | warning | error | success.

(** The message of an event is a template literal; it is kept as the
    template with the values it interpolates. *)
Inductive Message : Type :=
| MsgStarted
| MsgPaused
| MsgResumed
| MsgStopped
| MsgSimulationCompleted (total : nat)
| MsgRequestSent (req : nat) (fromLabel : string) (toLabel : option string)
| MsgRequestFailed (req : nat) (atLabel : string)
| MsgRequestForwarded (req : nat) (byLabel : string) (toLabel : option string)
| MsgRequestCompleted (req : nat) (latency : Q)
| MsgCacheHit (req : nat)
| MsgCacheMiss (req : nat)
| MsgDbQuery (req : nat) (latency : Q)
| MsgEnqueued (depth : nat)
| MsgBacklog (depth : nat) (capacity : Q)
| MsgScaledUp (nodeLabel : string) (total : Z) (load newLoad : num)
| MsgScaledDown (nodeLabel : string) (total : Z)
| MsgChaosSpike.

(** [sourcePath] of an event is either an array built for the event or the
    very array [request.path] of a request, which later hops extend. *)
Inductive PathRef : Type :=
| PathLiteral (p : list string)
| PathOfRequest (req : nat).

Record SimulationEvent : Type := mkEvent {
  ev_id : nat;
  ev_type : SimulationEventType;
  ev_timestamp : Q;
  ev_nodeId : option string;
  sourcePath : option PathRef;
  targetPath : option (list string);
  message : Message;
  severity : Severity
}.

(** A snapshot copies the system metrics; its [nodes] map is a shallow copy
    that shares the live [NodeMetrics] objects, so it is kept as the list of
    its keys.  The edge metrics map is never written and stays empty. *)
Record MetricsSnapshot : Type := mkSnapshot {
  sn_timestamp : Q;
  system : SystemMetrics;
  sn_nodes : list string
}.

(** ** The engine

    The mutable part of a [SimulationEngine]: the fields of [this.state]
    that are assigned after construction, the private [intervalId] and the
    two id counters.  [randomCalls] counts the calls of [Math.random] made
    so far and [timerCounter] the handles [window.setInterval] has handed
    out; both belong to the runtime around the engine.  [state.config],
    [nodes] and [edges] are assigned by the constructor only and are
    parameters of the development. *)
Record Engine : Type := mkEngine {
  status : SimulationStatus;
  currentTime : Q;
  activeRequests : list ActiveRequest;
  nodeMetrics : list (string * NodeMetrics);
  systemMetrics : SystemMetrics;
  events : list SimulationEvent;
  metricsHistory : list MetricsSnapshot;
  speed : Q;
  intervalId : option nat;
  requestIdCounter : nat;
  eventIdCounter : nat;
  randomCalls : nat;
  timerCounter : nat
}.

(** Field assignments. *)
Definition set_status (v : SimulationStatus) (x : Engine) : Engine :=
  mkEngine v (currentTime x) (activeRequests x) (nodeMetrics x)
    (systemMetrics x) (events x) (metricsHistory x) (speed x) (intervalId x)
    (requestIdCounter x) (eventIdCounter x) (randomCalls x) (timerCounter x).

Definition set_currentTime (v : Q) (x : Engine) : Engine :=
  mkEngine (status x) v (activeRequests x) (nodeMetrics x) (systemMetrics x)
    (events x) (metricsHistory x) (speed x) (intervalId x)
    (requestIdCounter x) (eventIdCounter x) (randomCalls x) (timerCounter x).

Definition set_activeRequests (v : list ActiveRequest) (x : Engine) : Engine :=
  mkEngine (status x) (currentTime x) v (nodeMetrics x) (systemMetrics x)
    (events x) (metricsHistory x) (speed x) (intervalId x)
    (requestIdCounter x) (eventIdCounter x) (randomCalls x) (timerCounter x).

Definition set_nodeMetrics (v : list (string * NodeMetrics)) (x : Engine) : Engine :=
  mkEngine (status x) (currentTime x) (activeRequests x) v (systemMetrics x)
    (events x) (metricsHistory x) (speed x) (intervalId x)
    (requestIdCounter x) (eventIdCounter x) (randomCalls x) (timerCounter x).

Definition set_systemMetrics (v : SystemMetrics) (x : Engine) : Engine :=
  mkEngine (status x) (currentTime x) (activeRequests x) (nodeMetrics x) v
    (events x) (metricsHistory x) (speed x) (intervalId x)
    (requestIdCounter x) (eventIdCounter x) (randomCalls x) (timerCounter x).

Definition set_events (v : list SimulationEvent) (x : Engine) : Engine :=
  mkEngine (status x) (currentTime x) (activeRequests x) (nodeMetrics x)
    (systemMetrics x) v (metricsHistory x) (speed x) (intervalId x)
    (requestIdCounter x) (eventIdCounter x) (randomCalls x) (timerCounter x).

Definition set_metricsHistory (v : list MetricsSnapshot) (x : Engine) : Engine :=
  mkEngine (status x) (currentTime x) (activeRequests x) (nodeMetrics x)
    (systemMetrics x) (events x) v (speed x) (intervalId x)
    (requestIdCounter x) (eventIdCounter x) (randomCalls x) (timerCounter x).

Definition set_speed (v : Q) (x : Engine) : Engine :=
  mkEngine (status x) (currentTime x) (activeRequests x) (nodeMetrics x)
    (systemMetrics x) (events x) (metricsHistory x) v (intervalId x)
    (requestIdCounter x) (eventIdCounter x) (randomCalls x) (timerCounter x).

Definition set_intervalId (v : option nat) (x : Engine) : Engine :=
  mkEngine (status x) (currentTime x) (activeRequests x) (nodeMetrics x)
    (systemMetrics x) (events x) (metricsHistory x) (speed x) v
    (requestIdCounter x) (eventIdCounter x) (randomCalls x) (timerCounter x).

Definition set_requestIdCounter (v : nat) (x : Engine) : Engine :=
  mkEngine (status x) (currentTime x) (activeRequests x) (nodeMetrics x)
    (systemMetrics x) (events x) (metricsHistory x) (speed x) (intervalId x) v
    (eventIdCounter x) (randomCalls x) (timerCounter x).

Definition set_eventIdCounter (v : nat) (x : Engine) : Engine :=
  mkEngine (status x) (currentTime x) (activeRequests x) (nodeMetrics x)
    (systemMetrics x) (events x) (metricsHistory x) (speed x) (intervalId x)
    (requestIdCounter x) v (randomCalls x) (timerCounter x).

Definition set_randomCalls (v : nat) (x : Engine) : Engine :=
  mkEngine (status x) (currentTime x) (activeRequests x) (nodeMetrics x)
    (systemMetrics x) (events x) (metricsHistory x) (speed x) (intervalId x)
    (requestIdCounter x) (eventIdCounter x) v (timerCounter x).

Definition set_timerCounter (v : nat) (x : Engine) : Engine :=
  mkEngine (status x) (currentTime x) (activeRequests x) (nodeMetrics x)
    (systemMetrics x) (events x) (metricsHistory x) (speed x) (intervalId x)
    (requestIdCounter x) (eventIdCounter x) (randomCalls x) v.

Definition set_targetNodeId (v : string) (x : ActiveRequest) : ActiveRequest :=
  mkRequest (r_id x) (sourceNodeId x) v (path x) (startTime x)
    (currentLatency x) (payload x) (r_status x) (progress x).

Definition set_path (v : list string) (x : ActiveRequest) : ActiveRequest :=
  mkRequest (r_id x) (sourceNodeId x) (targetNodeId x) v (startTime x)
    (currentLatency x) (payload x) (r_status x) (progress x).

Definition set_currentLatency (v : Q) (x : ActiveRequest) : ActiveRequest :=
  mkRequest (r_id x) (sourceNodeId x) (targetNodeId x) (path x) (startTime x)
    v (payload x) (r_status x) (progress x).

Definition set_r_status (v : RequestStatus) (x : ActiveRequest) : ActiveRequest :=
  mkRequest (r_id x) (sourceNodeId x) (targetNodeId x) (path x) (startTime x)
    (currentLatency x) (payload x) v (progress x).

Definition set_progress (v : num) (x : ActiveRequest) : ActiveRequest :=
  mkRequest (r_id x) (sourceNodeId x) (targetNodeId x) (path x) (startTime x)
    (currentLatency x) (payload x) (r_status x) v.

Definition set_m_requestsPerSecond (v : num) (x : NodeMetrics) : NodeMetrics :=
  mkNodeMetrics (nodeId x) v (m_averageLatency x) (successRate x)
    (m_errorRate x) (queueDepth x) (cpuUtilization x) (instances x)
    (throughput x) (cacheHitRate x) (queryRate x).

Definition set_successRate (v : num) (x : NodeMetrics) : NodeMetrics :=
  mkNodeMetrics (nodeId x) (m_requestsPerSecond x) (m_averageLatency x) v
    (m_errorRate x) (queueDepth x) (cpuUtilization x) (instances x)
    (throughput x) (cacheHitRate x) (queryRate x).

Definition set_queueDepth (v : nat) (x : NodeMetrics) : NodeMetrics :=
  mkNodeMetrics (nodeId x) (m_requestsPerSecond x) (m_averageLatency x)
    (successRate x) (m_errorRate x) v (cpuUtilization x) (instances x)
    (throughput x) (cacheHitRate x) (queryRate x).

Definition set_cpuUtilization (v : num) (x : NodeMetrics) : NodeMetrics :=
  mkNodeMetrics (nodeId x) (m_requestsPerSecond x) (m_averageLatency x)
    (successRate x) (m_errorRate x) (queueDepth x) v (instances x)
    (throughput x) (cacheHitRate x) (queryRate x).

Definition set_instances (v : Z) (x : NodeMetrics) : NodeMetrics :=
  mkNodeMetrics (nodeId x) (m_requestsPerSecond x) (m_averageLatency x)
    (successRate x) (m_errorRate x) (queueDepth x) (cpuUtilization x) v
    (throughput x) (cacheHitRate x) (queryRate x).

Definition set_throughput (v : nat) (x : NodeMetrics) : NodeMetrics :=
  mkNodeMetrics (nodeId x) (m_requestsPerSecond x) (m_averageLatency x)
    (successRate x) (m_errorRate x) (queueDepth x) (cpuUtilization x)
    (instances x) v (cacheHitRate x) (queryRate x).

Definition set_queryRate (v : option nat) (x : NodeMetrics) : NodeMetrics :=
  mkNodeMetrics (nodeId x) (m_requestsPerSecond x) (m_averageLatency x)
    (successRate x) (m_errorRate x) (queueDepth x) (cpuUtilization x)
    (instances x) (throughput x) (cacheHitRate x) v.

Definition set_timestamp (v : Q) (x : SystemMetrics) : SystemMetrics :=
  mkSystemMetrics v (totalRequests x) (successfulRequests x)
    (failedRequests x) (averageLatency x) (s_requestsPerSecond x)
    (s_errorRate x) (totalQueueDepth x) (s_activeRequests x)
    (scalingActions x).

Definition set_totalRequests (v : nat) (x : SystemMetrics) : SystemMetrics :=
  mkSystemMetrics (timestamp x) v (successfulRequests x) (failedRequests x)
    (averageLatency x) (s_requestsPerSecond x) (s_errorRate x)
    (totalQueueDepth x) (s_activeRequests x) (scalingActions x).

Definition set_successfulRequests (v : nat) (x : SystemMetrics) : SystemMetrics :=
  mkSystemMetrics (timestamp x) (totalRequests x) v (failedRequests x)
    (averageLatency x) (s_requestsPerSecond x) (s_errorRate x)
    (totalQueueDepth x) (s_activeRequests x) (scalingActions x).

Definition set_failedRequests (v : nat) (x : SystemMetrics) : SystemMetrics :=
  mkSystemMetrics (timestamp x) (totalRequests x) (successfulRequests x) v
    (averageLatency x) (s_requestsPerSecond x) (s_errorRate x)
    (totalQueueDepth x) (s_activeRequests x) (scalingActions x).

Definition set_averageLatency (v : num) (x : SystemMetrics) : SystemMetrics :=
  mkSystemMetrics (timestamp x) (totalRequests x) (successfulRequests x)
    (failedRequests x) v (s_requestsPerSecond x) (s_errorRate x)
    (totalQueueDepth x) (s_activeRequests x) (scalingActions x).

Definition set_s_requestsPerSecond (v : num) (x : SystemMetrics) : SystemMetrics :=
  mkSystemMetrics (timestamp x) (totalRequests x) (successfulRequests x)
    (failedRequests x) (averageLatency x) v (s_errorRate x)
    (totalQueueDepth x) (s_activeRequests x) (scalingActions x).

Definition set_s_errorRate (v : num) (x : SystemMetrics) : SystemMetrics :=
  mkSystemMetrics (timestamp x) (totalRequests x) (successfulRequests x)
    (failedRequests x) (averageLatency x) (s_requestsPerSecond x) v
    (totalQueueDepth x) (s_activeRequests x) (scalingActions x).

Definition set_totalQueueDepth (v : nat) (x : SystemMetrics) : SystemMetrics :=
  mkSystemMetrics (timestamp x) (totalRequests x) (successfulRequests x)
    (failedRequests x) (averageLatency x) (s_requestsPerSecond x)
    (s_errorRate x) v (s_activeRequests x) (scalingActions x).

Definition set_s_activeRequests (v : nat) (x : SystemMetrics) : SystemMetrics :=
  mkSystemMetrics (timestamp x) (totalRequests x) (successfulRequests x)
    (failedRequests x) (averageLatency x) (s_requestsPerSecond x)
    (s_errorRate x) (totalQueueDepth x) v (scalingActions x).

Definition set_scalingActions (v : nat) (x : SystemMetrics) : SystemMetrics :=
  mkSystemMetrics (timestamp x) (totalRequests x) (successfulRequests x)
    (failedRequests x) (averageLatency x) (s_requestsPerSecond x)
    (s_errorRate x) (totalQueueDepth x) (s_activeRequests x) v.

(** ** Node metrics map

    [Map<string, NodeMetrics>] iterates in insertion order, and the order
    decides the order of scaling events and of bottlenecks: an association
    list in which [mapSet] overwrites an existing key in place. *)
Fixpoint mapGet (k : string) (m : list (string * NodeMetrics)) : option NodeMetrics :=
  match m with
  | [] => None
  | (k', v) :: m' => if String.eqb k' k then Some v else mapGet k m'
  end.

Fixpoint mapSet (k : string) (v : NodeMetrics) (m : list (string * NodeMetrics))
  : list (string * NodeMetrics) :=
  match m with
  | [] => [(k, v)]
  | (k', v') :: m' =>
      if String.eqb k' k then (k', v) :: m' else (k', v') :: mapSet k v m'
  end.

(** How a method returns: normally, or by a [TypeError] raised when a
    property of [undefined] is read. *)
Inductive completion : Type := Normal | Thrown.

(** [Math.floor(r * len)] and the array access [l[i]]. *)
Definition floorIndex (r : Q) (len : nat) : Z :=
  Qfloor (r * inject_Z (Z.of_nat len)).

Definition arrayAt {A : Type} (l : list A) (i : Z) : option A :=
  if (i <? 0)%Z then None else nth_error l (Z.to_nat i).

(** [x % 1000 === 0] for a finite [x]. *)
Definition isMultipleOf1000 (x : Q) : bool :=
  Qeq_bool (x / 1000) (inject_Z (Qfloor (x / 1000))).

Definition isTerminal (st : RequestStatus) : bool :=
  match st with
  | completed | failed => true
  | pending | processing => false
  end.

Definition createEmptySystemMetrics : SystemMetrics :=
  mkSystemMetrics 0 0 0 0 (Num.Fin 0) (Num.Fin 0) (Num.Fin 0) 0 0 0.

(** [emitEvent] appends to the log.  The listeners it then calls belong to
    the host and are not part of the engine. *)
Definition emitEvent (ty : SimulationEventType) (node : option string)
    (sp : option PathRef) (tp : option (list string))
    (msg : Message) (sev : Severity) (s : Engine) : Engine :=
  set_eventIdCounter (S (eventIdCounter s))
    (set_events
       (events s
        ++ [mkEvent (eventIdCounter s) ty (currentTime s) node sp tp msg sev])
       s).

Section Simulator.

Variable nodes : list SystemNode.
Variable edges : list SystemEdge.
Variable config : SimulationConfig.

(** The successive results of [Math.random()]. *)
Variable rnd : nat -> Q.

Definition random (s : Engine) : Q * Engine :=
  (rnd (randomCalls s), set_randomCalls (S (randomCalls s)) s).

Definition getNodeById (nodeId : string) : option SystemNode :=
  find (fun n => String.eqb (n_id n) nodeId) nodes.

Definition initialNodeMetrics (node : SystemNode) : NodeMetrics :=
  mkNodeMetrics (n_id node) (Num.Fin 0) (Num.Fin 0) (Num.Fin 1) (Num.Fin 0)
    0 (Num.Fin 0) 1 0
    (if NodeType_eqb (type (data node)) CACHE
     then Some (cacheHitRatio config) else None)
    (if NodeType_eqb (type (data node)) DATABASE then Some 0 else None).

Definition initializeState : Engine :=
  mkEngine IDLE 0 []
    (fold_left (fun m node => mapSet (n_id node) (initialNodeMetrics node) m)
       nodes [])
    createEmptySystemMetrics [] [] 1 None 0 0 0 0.

(** *** Lifecycle *)

(** [window.setInterval] hands out a fresh handle.  The wall-clock period
    [tickRate / speed] only paces the calls of the callback and is not
    part of the state. *)
Definition runSimulationLoop (s : Engine) : Engine :=
  set_timerCounter (S (timerCounter s))
    (set_intervalId (Some (timerCounter s)) s).

Definition clearLoop (s : Engine) : Engine :=
  match intervalId s with
  | Some _ => set_intervalId None s
  | None => s
  end.

Definition start (s : Engine) : Engine :=
  if status_eqb (status s) RUNNING then s
  else
    runSimulationLoop
      (emitEvent REQUEST_SENT None None None MsgStarted info
         (set_status RUNNING s)).

Definition pause (s : Engine) : Engine :=
  if negb (status_eqb (status s) RUNNING) then s
  else
    emitEvent REQUEST_SENT None None None MsgPaused info
      (clearLoop (set_status PAUSED s)).

Definition resume (s : Engine) : Engine :=
  if negb (status_eqb (status s) PAUSED) then s
  else
    runSimulationLoop
      (emitEvent REQUEST_SENT None None None MsgResumed info
         (set_status RUNNING s)).

Definition stop (s : Engine) : Engine :=
  emitEvent REQUEST_SENT None None None MsgStopped info
    (clearLoop (set_status STOPPED s)).

Definition setSpeed (v : Q) (s : Engine) : Engine :=
  let wasRunning := status_eqb (status s) RUNNING in
  let s1 := if wasRunning then pause s else s in
  let s2 := set_speed v s1 in
  if wasRunning then resume s2 else s2.

Definition complete (s : Engine) : Engine :=
  if status_eqb (status s) COMPLETED then s
  else
    let s1 := set_status COMPLETED (stop s) in
    emitEvent REQUEST_SENT None None None
      (MsgSimulationCompleted (totalRequests (systemMetrics s1))) success s1.

(** *** Request generation *)

Definition generateOne (clientNodes : list SystemNode) (s : Engine)
  : Engine * completion :=
  let (r1, s1) := random s in
  match arrayAt clientNodes (floorIndex r1 (length clientNodes)) with
  | None => (s1, Thrown)
  | Some clientNode =>
      let targetEdges :=
        filter (fun e => String.eqb (source e) (n_id clientNode)) edges in
      match targetEdges with
      | [] => (s1, Normal)
      | _ :: _ =>
          let (r2, s2) := random s1 in
          match arrayAt targetEdges (floorIndex r2 (length targetEdges)) with
          | None => (s2, Thrown)
          | Some targetEdge =>
              let targetNodeId := target targetEdge in
              let request :=
                mkRequest (requestIdCounter s2) (n_id clientNode) targetNodeId
                  [n_id clientNode] (currentTime s2) 0 (payloadSize config)
                  pending (Num.Fin 0) in
              let s3 := set_requestIdCounter (S (requestIdCounter s2)) s2 in
              let s4 := set_activeRequests (activeRequests s3 ++ [request]) s3 in
              let s5 :=
                set_systemMetrics
                  (set_totalRequests (S (totalRequests (systemMetrics s4)))
                     (systemMetrics s4)) s4 in
              (emitEvent REQUEST_SENT (Some (n_id clientNode))
                 (Some (PathLiteral [n_id clientNode])) (Some [targetNodeId])
                 (MsgRequestSent (r_id request) (label (data clientNode))
                    (option_map (fun n => label (data n))
                       (getNodeById targetNodeId)))
                 info s5,
               Normal)
          end
      end
  end.

Fixpoint generateLoop (count : nat) (clientNodes : list SystemNode) (s : Engine)
  : Engine * completion :=
  match count with
  | O => (s, Normal)
  | S k =>
      match generateOne clientNodes s with
      | (s', Thrown) => (s', Thrown)
      | (s', Normal) => generateLoop k clientNodes s'
      end
  end.

Definition generateRequests (s : Engine) : Engine * completion :=
  let clientNodes :=
    filter (fun n => NodeType_eqb (type (data n)) CLIENT) nodes in
  match clientNodes with
  | [] => (s, Normal)
  | _ :: _ =>
      let requestsThisTick :=
        (requestsPerSecond config * tickRate config / 1000)%Q in
      let (r, s1) := random s in
      let requestsToGenerate := Qfloor (requestsThisTick + r) in
      generateLoop (Z.to_nat requestsToGenerate) clientNodes s1
  end.

(** *** Latencies and routing *)

(** [network[key] || 10]: an absent entry and a zero entry both give 10. *)
Definition getNetworkLatency (sourceId : option string) (targetId : string) : Q :=
  match match sourceId with Some i => getNodeById i | None => None end,
        getNodeById targetId with
  | Some sourceNode, Some targetNode =>
      match network config (type (data sourceNode)) (type (data targetNode)) with
      | Some l => if Qeq_bool l 0 then 10%Q else l
      | None => 10%Q
      end
  | _, _ => 10%Q
  end.

Definition getProcessingLatency (node : SystemNode) : Q :=
  match type (data node) with
  | DATABASE => dbLatency config
  | CACHE => 2%Q
  | QUEUE => 5%Q
  | SERVICE => serviceCpuCost config
  | _ => 5%Q
  end.

Definition includes (p : list string) (x : string) : bool :=
  existsb (String.eqb x) p.

Definition findNextHop (currentNodeId : string) (request : ActiveRequest)
  : option string :=
  let outgoingEdges :=
    filter (fun e => String.eqb (source e) currentNodeId) edges in
  let unvisitedEdges :=
    filter (fun e => negb (includes (path request) (target e))) outgoingEdges in
  match unvisitedEdges with
  | [] => None
  | e :: _ => Some (target e)
  end.

(** *** Node processing *)

Definition incScalingActions (s : Engine) : Engine :=
  set_systemMetrics
    (set_scalingActions (S (scalingActions (systemMetrics s))) (systemMetrics s)) s.

(** The [NodeMetrics] object of the node is mutated in place; the events
    emitted meanwhile do not read the map, so the object is written back
    once, at the end. *)
Definition handleNodeProcessing (node : SystemNode) (request : ActiveRequest)
    (s : Engine) : Engine :=
  match mapGet (n_id node) (nodeMetrics s) with
  | None => s
  | Some metrics =>
      let m1 := set_throughput (S (throughput metrics)) metrics in
      let '(m2, s2) :=
        match type (data node) with
        | CACHE =>
            let (r, s1) := random s in
            if Num.Qltb r (cacheHitRatio config)
            then (m1, emitEvent CACHE_HIT (Some (n_id node)) None None
                        (MsgCacheHit (r_id request)) success s1)
            else (m1, emitEvent CACHE_MISS (Some (n_id node)) None None
                        (MsgCacheMiss (r_id request)) warning s1)
        | DATABASE =>
            let q := match queryRate m1 with Some q => q | None => 0 end in
            (set_queryRate (Some (S q)) m1,
             emitEvent DB_QUERY (Some (n_id node)) None None
               (MsgDbQuery (r_id request) (dbLatency config)) info s)
        | QUEUE =>
            let m := set_queueDepth (S (queueDepth m1)) m1 in
            let s1 :=
              emitEvent QUEUE_ENQUEUE (Some (n_id node)) None None
                (MsgEnqueued (queueDepth m)) info s in
            if Num.Qltb (messageQueueDepth config * (8 # 10))
                 (inject_Z (Z.of_nat (queueDepth m)))
            then (m, emitEvent BACKLOG_WARNING (Some (n_id node)) None None
                       (MsgBacklog (queueDepth m) (messageQueueDepth config))
                       warning s1)
            else (m, s1)
        | _ => (m1, s)
        end in
      let rps :=
        Num.div (Num.ofNat (throughput m2)) (Num.Fin (currentTime s2 / 1000)) in
      let m3 := set_m_requestsPerSecond rps m2 in
      let m4 :=
        set_cpuUtilization
          (Num.min (Num.mul (Num.div rps (Num.Fin 100)) (Num.ofZ (instances m3)))
             (Num.Fin 1)) m3 in
      set_nodeMetrics (mapSet (n_id node) m4 (nodeMetrics s2)) s2
  end.

(** *** Request processing *)

Definition incFailed (s : Engine) : Engine :=
  set_systemMetrics
    (set_failedRequests (S (failedRequests (systemMetrics s))) (systemMetrics s)) s.

Definition incSuccessful (s : Engine) : Engine :=
  set_systemMetrics
    (set_successfulRequests (S (successfulRequests (systemMetrics s)))
       (systemMetrics s)) s.

Definition updateLatencyMetrics (latency : Q) (s : Engine) : Engine :=
  let count := Num.ofNat (successfulRequests (systemMetrics s)) in
  let currentAvg := averageLatency (systemMetrics s) in
  set_systemMetrics
    (set_averageLatency
       (Num.div
          (Num.add (Num.mul currentAvg (Num.sub count (Num.Fin 1)))
             (Num.Fin latency))
          count)
       (systemMetrics s)) s.

(** The body of the [forEach] callback for one request: the request as it
    leaves the callback, the engine, and whether its id was pushed onto
    [completedRequests]. *)
Definition processRequest (deltaTime : Q) (request : ActiveRequest) (s : Engine)
  : ActiveRequest * Engine * bool :=
  if isTerminal (r_status request) then (request, s, true)
  else
    match getNodeById (targetNodeId request) with
    | None => (set_r_status failed request, incFailed s, false)
    | Some targetNode =>
        let networkLatency :=
          getNetworkLatency (last (map Some (path request)) None)
            (targetNodeId request) in
        let processingLatency := getProcessingLatency targetNode in
        let totalLatency := (networkLatency + processingLatency)%Q in
        let r1 :=
          set_currentLatency (currentLatency request + deltaTime)%Q request in
        let r2 :=
          set_progress
            (Num.min
               (Num.div (Num.Fin (currentLatency r1)) (Num.Fin totalLatency))
               (Num.Fin 1)) r1 in
        if Num.geb (progress r2) (Num.Fin 1) then
          let r3 := set_path (path r2 ++ [targetNodeId r2]) r2 in
          let (x, s1) := random s in
          if Num.Qltb x (errorRate config) then
            (set_r_status failed r3,
             emitEvent REQUEST_FAILED (Some (n_id targetNode))
               (Some (PathOfRequest (r_id r3))) None
               (MsgRequestFailed (r_id r3) (label (data targetNode))) error
               (incFailed s1),
             false)
          else
            let s2 := handleNodeProcessing targetNode r3 s1 in
            match findNextHop (n_id targetNode) r3 with
            | Some nextHop =>
                (set_r_status processing
                   (set_progress (Num.Fin 0)
                      (set_currentLatency 0 (set_targetNodeId nextHop r3))),
                 emitEvent REQUEST_PROCESSED (Some (n_id targetNode))
                   (Some (PathOfRequest (r_id r3))) (Some [nextHop])
                   (MsgRequestForwarded (r_id r3) (label (data targetNode))
                      (option_map (fun n => label (data n))
                         (getNodeById nextHop)))
                   info s2,
                 false)
            | None =>
                let s3 := incSuccessful s2 in
                let totalLatency := (currentTime s3 - startTime r3)%Q in
                (set_r_status completed r3,
                 emitEvent REQUEST_PROCESSED (Some (n_id targetNode))
                   (Some (PathOfRequest (r_id r3))) None
                   (MsgRequestCompleted (r_id r3) totalLatency) success
                   (updateLatencyMetrics totalLatency s3),
                 false)
            end
        else (r2, s, false)
    end.

(** [forEach] over the active requests: the requests after the loop, the
    ids collected in [completedRequests], and the engine. *)
Fixpoint processLoop (deltaTime : Q) (requests : list ActiveRequest) (s : Engine)
  : list ActiveRequest * list nat * Engine :=
  match requests with
  | [] => ([], [], s)
  | request :: rest =>
      let '(request', s1, done) := processRequest deltaTime request s in
      let '(rest', completedRequests, s2) := processLoop deltaTime rest s1 in
      (request' :: rest',
       (if done then r_id request :: completedRequests else completedRequests),
       s2)
  end.

Definition processRequests (deltaTime : Q) (s : Engine) : Engine :=
  let '(requests, completedRequests, s1) :=
    processLoop deltaTime (activeRequests s) s in
  set_activeRequests
    (filter (fun r => negb (existsb (Nat.eqb (r_id r)) completedRequests))
       requests) s1.

(** *** Metrics aggregation *)

Definition sumQueueDepth (m : list (string * NodeMetrics)) : nat :=
  fold_left (fun acc kv => acc + queueDepth (snd kv)) m 0.

Definition refreshSuccessRate (metrics : NodeMetrics) : NodeMetrics :=
  if 0 <? throughput metrics
  then set_successRate (Num.sub (Num.Fin 1) (m_errorRate metrics)) metrics
  else metrics.

Definition updateMetrics (s : Engine) : Engine :=
  let sys1 := set_timestamp (currentTime s) (systemMetrics s) in
  let sys2 := set_s_activeRequests (length (activeRequests s)) sys1 in
  let sys3 :=
    set_s_requestsPerSecond
      (Num.div (Num.ofNat (totalRequests sys2))
         (Num.Fin (currentTime s / 1000))) sys2 in
  let sys4 :=
    if 0 <? totalRequests sys3
    then set_s_errorRate
           (Num.div (Num.ofNat (failedRequests sys3))
              (Num.ofNat (totalRequests sys3))) sys3
    else sys3 in
  let metrics' :=
    map (fun kv => (fst kv, refreshSuccessRate (snd kv))) (nodeMetrics s) in
  let totalQueueDepth := sumQueueDepth (nodeMetrics s) in
  set_nodeMetrics metrics'
    (set_systemMetrics (set_totalQueueDepth totalQueueDepth sys4) s).

(** *** Auto-scaling *)

Definition scaleUp (nodeId : string) (node : SystemNode)
    (metrics : NodeMetrics) (s : Engine) : NodeMetrics * Engine :=
  if Num.gtb (cpuUtilization metrics) (Num.Fin (8 # 10))
     && (instances metrics <? 10)%Z
  then
    let m1 := set_instances (instances metrics + 1)%Z metrics in
    let s1 := incScalingActions s in
    let s2 :=
      emitEvent NODE_SCALED (Some nodeId) None None
        (MsgScaledUp (label (data node)) (instances m1) (cpuUtilization m1)
           (Num.mul (cpuUtilization m1) (Num.Fin (8 # 10))))
        success s1 in
    (set_cpuUtilization (Num.mul (cpuUtilization m1) (Num.Fin (8 # 10))) m1, s2)
  else (metrics, s).

Definition scaleDown (nodeId : string) (node : SystemNode)
    (metrics : NodeMetrics) (s : Engine) : NodeMetrics * Engine :=
  if Num.ltb (cpuUtilization metrics) (Num.Fin (3 # 10))
     && (1 <? instances metrics)%Z
  then
    let m1 := set_instances (instances metrics - 1)%Z metrics in
    let s1 := incScalingActions s in
    let s2 :=
      emitEvent NODE_SCALED (Some nodeId) None None
        (MsgScaledDown (label (data node)) (instances m1)) info s1 in
    (set_cpuUtilization (Num.mul (cpuUtilization m1) (Num.Fin (12 # 10))) m1, s2)
  else (metrics, s).

(** The [forEach] callback of [checkAutoScaling] for one entry. *)
Definition scaleNode (nodeId : string) (metrics : NodeMetrics) (s : Engine)
  : NodeMetrics * Engine :=
  match getNodeById nodeId with
  | None => (metrics, s)
  | Some node =>
      if negb (NodeType_eqb (type (data node)) SERVICE) then (metrics, s)
      else
        let (m1, s1) := scaleUp nodeId node metrics s in
        scaleDown nodeId node m1 s1
  end.

Fixpoint scaleLoop (entries : list (string * NodeMetrics)) (s : Engine)
  : list (string * NodeMetrics) * Engine :=
  match entries with
  | [] => ([], s)
  | (nodeId, metrics) :: rest =>
      let (metrics', s1) := scaleNode nodeId metrics s in
      let (rest', s2) := scaleLoop rest s1 in
      ((nodeId, metrics') :: rest', s2)
  end.

Definition checkAutoScaling (s : Engine) : Engine :=
  let (entries, s1) := scaleLoop (nodeMetrics s) s in
  set_nodeMetrics entries s1.

(** *** Chaos effects and snapshots *)

Definition applyChaosEffects (s : Engine) : Engine * completion :=
  let (r, s1) := random s in
  if Num.Qltb r (5 # 100) then
    let (r2, s2) := random s1 in
    match arrayAt nodes (floorIndex r2 (length nodes)) with
    | None => (s2, Thrown)
    | Some node =>
        (emitEvent NODE_OVERLOAD (Some (n_id node)) None None MsgChaosSpike
           warning s2,
         Normal)
    end
  else (s1, Normal).

Definition takeMetricsSnapshot (s : Engine) : Engine :=
  set_metricsHistory
    (metricsHistory s
     ++ [mkSnapshot (currentTime s) (systemMetrics s) (map fst (nodeMetrics s))])
    s.

(** *** The tick and the interval callback *)

Definition tick (s : Engine) : Engine * completion :=
  let deltaTime := tickRate config in
  let s1 := set_currentTime (currentTime s + deltaTime)%Q s in
  match generateRequests s1 with
  | (s2, Thrown) => (s2, Thrown)
  | (s2, Normal) =>
      let s3 := processRequests deltaTime s2 in
      let s4 := updateMetrics s3 in
      let s5 := if autoScaling config then checkAutoScaling s4 else s4 in
      match (if chaosMode config then applyChaosEffects s5 else (s5, Normal)) with
      | (s6, Thrown) => (s6, Thrown)
      | (s6, Normal) =>
          (if isMultipleOf1000 (currentTime s6)
           then takeMetricsSnapshot s6 else s6,
           Normal)
      end
  end.

(** The callback given to [setInterval].  An exception raised by the tick
    leaves the callback at that point; the interval stays scheduled. *)
Definition intervalCallback (s : Engine) : Engine :=
  if negb (status_eqb (status s) RUNNING) then s
  else
    match tick s with
    | (s1, Thrown) => s1
    | (s1, Normal) =>
        let durationMs := (duration config * 1000)%Q in
        if Qle_bool durationMs (currentTime s1) then complete s1 else s1
    end.

(** *** Bottleneck analysis and result synthesis *)

Inductive BottleneckSeverity : Type := low | medium | high | critical.

Definition severityOrder (sev : BottleneckSeverity) : nat :=
  match sev with
  | critical => 4
  | high => 3
  | medium => 2
  | low => 1
  end.

Record BottleneckMetrics : Type := mkBottleneckMetrics {
  avgLatency : num;
  maxQueueDepth : nat;
  b_errorRate : num;
  b_cpuUtilization : num
}.

Record BottleneckAnalysis : Type := mkBottleneck {
  b_nodeId : string;
  nodeName : string;
  b_severity : BottleneckSeverity;
  issues : list string;
  b_metrics : BottleneckMetrics;
  b_recommendations : list string
}.

(** The issues, severity and recommendations that the callback of
    [analyzeBottlenecks] accumulates for one node. *)
Definition diagnose (metrics : NodeMetrics)
  : list string * BottleneckSeverity * list string :=
  let '(i1, sev1, rec1) :=
    if Num.gtb (cpuUtilization metrics) (Num.Fin (9 # 10))
    then (["CPU utilization critically high"%string], critical,
          ["Add more instances or horizontal scaling"%string])
    else if Num.gtb (cpuUtilization metrics) (Num.Fin (7 # 10))
    then (["CPU utilization high"%string], medium,
          ["Consider adding auto-scaling"%string])
    else ([], low, []) in
  let '(i2, sev2, rec2) :=
    if Num.Qltb (messageQueueDepth config * (8 # 10))
         (inject_Z (Z.of_nat (queueDepth metrics)))
    then (i1 ++ ["Queue depth near capacity"%string], high,
          rec1 ++ ["Increase queue capacity or add more workers"%string])
    else (i1, sev1, rec1) in
  if Num.gtb (m_errorRate metrics) (Num.Fin (1 # 10))
  then (i2 ++ ["High error rate detected"%string], critical,
        rec2 ++ ["Investigate error sources and add retry logic"%string])
  else (i2, sev2, rec2).

Definition analyzeNode (nodeId : string) (metrics : NodeMetrics)
  : option BottleneckAnalysis :=
  match getNodeById nodeId with
  | None => None
  | Some node =>
      let '(iss, sev, recs) := diagnose metrics in
      match iss with
      | [] => None
      | _ :: _ =>
          Some (mkBottleneck nodeId (label (data node)) sev iss
                  (mkBottleneckMetrics (m_averageLatency metrics)
                     (queueDepth metrics) (m_errorRate metrics)
                     (cpuUtilization metrics))
                  recs)
      end
  end.

Fixpoint collectBottlenecks (entries : list (string * NodeMetrics))
  : list BottleneckAnalysis :=
  match entries with
  | [] => []
  | (nodeId, metrics) :: rest =>
      match analyzeNode nodeId metrics with
      | Some b => b :: collectBottlenecks rest
      | None => collectBottlenecks rest
      end
  end.

(** [Array.prototype.sort] is stable; the comparator orders by descending
    severity rank. *)
Fixpoint insertBySeverity (b : BottleneckAnalysis) (l : list BottleneckAnalysis)
  : list BottleneckAnalysis :=
  match l with
  | [] => [b]
  | c :: l' =>
      if severityOrder (b_severity b) <? severityOrder (b_severity c)
      then c :: insertBySeverity b l'
      else b :: c :: l'
  end.

Definition sortBySeverity (l : list BottleneckAnalysis) : list BottleneckAnalysis :=
  fold_right insertBySeverity [] l.

Definition analyzeBottlenecks (s : Engine) : list BottleneckAnalysis :=
  sortBySeverity (collectBottlenecks (nodeMetrics s)).

(** Each message starts with a pictogram in the source, left out here. *)
Definition generateRecommendations (bottlenecks : list BottleneckAnalysis)
  : list string :=
  let r1 :=
    match bottlenecks with
    | [] => ["System is performing well under current load"%string]
    | _ :: _ => []
    end in
  let hasCriticalBottlenecks :=
    existsb (fun b => match b_severity b with critical => true | _ => false end)
      bottlenecks in
  let r2 :=
    if hasCriticalBottlenecks
    then r1 ++ ["Critical issues detected - immediate action required"%string]
    else r1 in
  let r3 :=
    if negb (existsb (fun n => NodeType_eqb (type (data n)) CACHE) nodes)
    then r2 ++ ["Consider adding a cache layer to reduce database load"%string]
    else r2 in
  if negb (existsb (fun n => NodeType_eqb (type (data n)) LOAD_BALANCER) nodes)
  then r3 ++ ["Add a load balancer to distribute traffic evenly"%string]
  else r3.

Record Summary : Type := mkSummary {
  sm_totalRequests : nat;
  sm_successRate : num;
  sm_averageLatency : num;
  peakRPS : num;
  bottlenecks : list BottleneckAnalysis;
  recommendations : list string
}.

Record SimulationResult : Type := mkResult {
  res_config : SimulationConfig;
  res_duration : Q;
  res_metricsHistory : list MetricsSnapshot;
  res_events : list SimulationEvent;
  summary : Summary
}.

Definition getResult (s : Engine) : SimulationResult :=
  let bottlenecks := analyzeBottlenecks s in
  let peakRPS :=
    Num.maxList (map (fun sn => s_requestsPerSecond (system sn))
                   (metricsHistory s)) in
  mkResult config (currentTime s / 1000)%Q (metricsHistory s) (events s)
    (mkSummary (totalRequests (systemMetrics s))
       (Num.div (Num.ofNat (successfulRequests (systemMetrics s)))
          (Num.ofNat (totalRequests (systemMetrics s))))
       (averageLatency (systemMetrics s))
       peakRPS bottlenecks (generateRecommendations bottlenecks)).

(** *** Runs

    What the host and the timer can do to an engine, and the engine after
    a sequence of such calls.  The interval callback runs only while an
    interval is scheduled. *)
Inductive Call : Type :=
| CallStart
| CallPause
| CallResume
| CallStop
| CallSetSpeed (v : Q)
| TimerFires.

Definition step (s : Engine) (c : Call) : Engine :=
  match c with
  | CallStart => start s
  | CallPause => pause s
  | CallResume => resume s
  | CallStop => stop s
  | CallSetSpeed v => setSpeed v s
  | TimerFires =>
      match intervalId s with
      | Some _ => intervalCallback s
      | None => s
      end
  end.

Definition run (calls : list Call) : Engine :=
  fold_left step calls initializeState.

End Simulator.

(** ** Predicates of the statements *)

(** A stream of [Math.random()] results: every draw lies in [[0, 1)]. *)
Definition unitInterval (rnd : nat -> Q) : Prop :=
  forall i, (0 <= rnd i)%Q /\ (rnd i < 1)%Q.

(** The requests of a list that are neither completed nor failed. *)
Definition inFlight (requests : list ActiveRequest) : nat :=
  length (filter (fun r => negb (isTerminal (r_status r))) requests).

(** Every request ever generated is in flight, successful or failed. *)
Definition countsBalanced (s : Engine) : Prop :=
  totalRequests (systemMetrics s)
  = successfulRequests (systemMetrics s) + failedRequests (systemMetrics s)
    + inFlight (activeRequests s).

(** The ids of the active requests are pairwise distinct and were all
    handed out by [generateRequestId]. *)
Definition idsFresh (s : Engine) : Prop :=
  NoDup (map r_id (activeRequests s))
  /\ Forall (fun r => r_id r < requestIdCounter s) (activeRequests s).

Definition instancesInRange (metrics : NodeMetrics) : Prop :=
  (1 <= instances metrics <= 10)%Z.

(** Two states of the metrics map with the same keys in the same order and
    no queue depth smaller in the second. *)
Definition queuesGrow (m m' : list (string * NodeMetrics)) : Prop :=
  Forall2 (fun a b => fst a = fst b /\ queueDepth (snd a) <= queueDepth (snd b))
    m m'.

(** The latencies that the completion events of a log report. *)
Definition completionLatencies (log : list SimulationEvent) : list Q :=
  flat_map
    (fun e =>
       match message e with
       | MsgRequestCompleted _ l => [l]
       | _ => []
       end) log.

Definition isRequestFailed (e : SimulationEvent) : bool :=
  if SimulationEventType_eq_dec (ev_type e) REQUEST_FAILED then true else false.

Definition isBacklogWarning (e : SimulationEvent) : bool :=
  if SimulationEventType_eq_dec (ev_type e) BACKLOG_WARNING then true else false.

(** A node whose metrics no request and no scaling step has touched. *)
Definition untouched (metrics : NodeMetrics) : Prop :=
  cpuUtilization metrics = Num.Fin 0
  /\ m_errorRate metrics = Num.Fin 0
  /\ queueDepth metrics = 0
  /\ throughput metrics = 0
  /\ instances metrics = 1%Z.

Definition hasType (nodes : list SystemNode) (t : NodeType) : bool :=
  existsb (fun n => NodeType_eqb (type (data n)) t) nodes.

(** [getResult] reads the engine and assigns none of its fields: a call
    returns the result and leaves the engine as it was. *)
Definition callGetResult (nodes : list SystemNode) (config : SimulationConfig)
    (s : Engine) : SimulationResult * Engine :=
  (getResult nodes config s, s).

(** ** Sample graphs, configurations and random streams *)

Definition sampleConfig : SimulationConfig :=
  mkConfig 10 1 1 0 100 (8 # 10) 40 10 true false false strong 1 100
    (fun _ _ => None).

Definition idleConfig : SimulationConfig :=
  mkConfig 0 1 1 0 100 (8 # 10) 40 10 true false true strong 1 100
    (fun _ _ => None).

Definition halves : nat -> Q := fun _ => (1 # 2)%Q.

Definition clientNode : SystemNode := mkNode "c" (mkData "Client" CLIENT).
Definition databaseNode : SystemNode := mkNode "d" (mkData "Database" DATABASE).
Definition queueNode : SystemNode := mkNode "q" (mkData "Queue" QUEUE).
Definition serviceNode : SystemNode := mkNode "s" (mkData "Service" SERVICE).

(** A client whose only edge loops back to itself. *)
Definition selfLoopNodes : list SystemNode := [clientNode].
Definition selfLoopEdges : list SystemEdge := [mkEdge "c" "c"].

(** A client whose only edge points at an id that is not a node. *)
Definition danglingNodes : list SystemNode := [clientNode].
Definition danglingEdges : list SystemEdge := [mkEdge "c" "ghost"].

(** One client connected directly to one database. *)
Definition clientDbNodes : list SystemNode := [clientNode; databaseNode].
Definition clientDbEdges : list SystemEdge := [mkEdge "c" "d"].

(** A client in front of a queue and a service. *)
Definition pipelineNodes : list SystemNode := [clientNode; queueNode; serviceNode].
Definition pipelineEdges : list SystemEdge := [mkEdge "c" "q"; mkEdge "q" "s"].

(** ** Relations between two states of the engine *)

(** What only a tick changes: the fields it assigns and the completion
    latencies it logs. *)
Definition core (s : Engine)
  : list ActiveRequest * list (string * NodeMetrics) * SystemMetrics * nat
    * list MetricsSnapshot * list Q :=
  (activeRequests s, nodeMetrics s, systemMetrics s, requestIdCounter s,
   metricsHistory s, completionLatencies (events s)).

(** The request ledger: the active requests, the three request counters,
    the id counter and the logged completion latencies. *)
Definition ledger (s : Engine)
  : list ActiveRequest * nat * nat * nat * nat * list Q :=
  (activeRequests s, totalRequests (systemMetrics s),
   successfulRequests (systemMetrics s), failedRequests (systemMetrics s),
   requestIdCounter s, completionLatencies (events s)).

(** Two maps with the same keys in the same order and related values. *)
Definition mapRel (R : NodeMetrics -> NodeMetrics -> Prop)
    (m m' : list (string * NodeMetrics)) : Prop :=
  Forall2 (fun a b => fst a = fst b /\ R (snd a) (snd b)) m m'.

(** What any engine operation may do to the metrics of one node. *)
Definition grows (a b : NodeMetrics) : Prop :=
  queueDepth a <= queueDepth b /\ (instancesInRange a -> instancesInRange b).

(** The recorded total queue depth never exceeds the current sum. *)
Definition queueTotalBounded (s : Engine) : Prop :=
  totalQueueDepth (systemMetrics s) <= sumQueueDepth (nodeMetrics s).

(** What any engine operation may do to the engine. *)
Definition evolves (s s' : Engine) : Prop :=
  totalRequests (systemMetrics s) <= totalRequests (systemMetrics s')
  /\ mapRel grows (nodeMetrics s) (nodeMetrics s')
  /\ (totalRequests (systemMetrics s') = 0 ->
      s_errorRate (systemMetrics s') = s_errorRate (systemMetrics s))
  /\ (queueTotalBounded s ->
      queueTotalBounded s'
      /\ totalQueueDepth (systemMetrics s) <= totalQueueDepth (systemMetrics s')).

(** A request that is still in flight counts for one. *)
Definition terminalWeight (r : ActiveRequest) : nat :=
  if isTerminal (r_status r) then 0 else 1.

Definition balanced (s : Engine) : Prop := countsBalanced s /\ idsFresh s.

(** Every node has a metrics entry and every entry a legal instance count. *)
Definition instancesKept (nodes : list SystemNode) (s : Engine) : Prop :=
  Forall (fun kv => instancesInRange (snd kv)) (nodeMetrics s)
  /\ (forall node, In node nodes -> mapGet (n_id node) (nodeMetrics s) <> None).

(** While no request was ever generated the system error rate is the
    initial one. *)
Definition errorRateGuarded (s : Engine) : Prop :=
  totalRequests (systemMetrics s) = 0 -> s_errorRate (systemMetrics s) = Num.Fin 0.

(** A run in which nothing has happened to requests or node metrics. *)
Definition quiet (s : Engine) : Prop :=
  activeRequests s = []
  /\ totalRequests (systemMetrics s) = 0
  /\ Forall (fun kv => untouched (snd kv)) (nodeMetrics s).

Definition cacheAdvice (nodes : list SystemNode) : list string :=
  if hasType nodes CACHE then []
  else ["Consider adding a cache layer to reduce database load"%string].

Definition balancerAdvice (nodes : list SystemNode) : list string :=
  if hasType nodes LOAD_BALANCER then []
  else ["Add a load balancer to distribute traffic evenly"%string].

(** The graph of one client [c] connected directly to one database [d]. *)
Definition directNodes (c d lc ld : string) : list SystemNode :=
  [mkNode c (mkData lc CLIENT); mkNode d (mkData ld DATABASE)].

Definition directEdges (c d : string) : list SystemEdge := [mkEdge c d].

(** A request as [generateRequests] has just made it in that graph. *)
Definition freshAt (c d : string) (now : Q) (r : ActiveRequest) : Prop :=
  r_status r = pending
  /\ targetNodeId r = d
  /\ path r = [c]
  /\ currentLatency r = 0%Q
  /\ startTime r = now.

(** Failures, completions and logged completion latencies of a state in
    which every completion took no simulated time. *)
Definition instantCompletions (s : Engine) : Prop :=
  failedRequests (systemMetrics s) = 0
  /\ length (completionLatencies (events s)) = successfulRequests (systemMetrics s)
  /\ Forall (fun l => l == 0)%Q (completionLatencies (events s)).

(** A request that has completed at the database after one tick of
    progress on its only hop. *)
Definition arrived (c d : string) (r : ActiveRequest) : Prop :=
  r_status r = completed
  /\ path r = [c; d]
  /\ (currentLatency r == 100)%Q.

(** Between two ticks every active request has arrived. *)
Definition settled (c d : string) (s : Engine) : Prop :=
  Forall (arrived c d) (activeRequests s)
  /\ instantCompletions s.

(** After request generation the active requests have arrived or are
    fresh. *)
Definition generated (c d : string) (s : Engine) : Prop :=
  Forall (fun r => arrived c d r \/ freshAt c d (currentTime s) r)
    (activeRequests s)
  /\ instantCompletions s.

(** A request that has visited only nodes of the graph, none of them twice,
    and is not heading for a node it has visited. *)
Definition pathFresh (nodes : list SystemNode) (r : ActiveRequest) : Prop :=
  NoDup (path r)
  /\ incl (path r) (map n_id nodes)
  /\ (isTerminal (r_status r) = false -> ~ In (targetNodeId r) (path r)).

Definition allPathsFresh (nodes : list SystemNode) (s : Engine) : Prop :=
  Forall (pathFresh nodes) (activeRequests s).

(** ** Further sample inputs *)

(** Five requests a second at a tick of 100ms: half a request per tick. *)
Definition sparseConfig : SimulationConfig :=
  mkConfig 5 1 1 0 100 (8 # 10) 40 10 true false false strong 1 100
    (fun _ _ => None).

(** A queue that is over 80% of its capacity after one message. *)
Definition tinyQueueConfig : SimulationConfig :=
  mkConfig 10 1 1 0 1 (8 # 10) 40 10 true false false strong 1 100
    (fun _ _ => None).

(** Four draws of one half, then zeros. *)
Definition earlyHalves : nat -> Q :=
  fun i => if i <? 4 then (1 # 2)%Q else 0%Q.

Definition balancerNode : SystemNode :=
  mkNode "lb" (mkData "Balancer" LOAD_BALANCER).
Definition cacheNode : SystemNode := mkNode "k" (mkData "Cache" CACHE).

(** A graph with a cache and a load balancer. *)
Definition layeredNodes : list SystemNode :=
  [clientNode; balancerNode; cacheNode; databaseNode].
Definition layeredEdges : list SystemEdge :=
  [mkEdge "c" "lb"; mkEdge "lb" "k"; mkEdge "k" "d"].

Definition sampleRequest : ActiveRequest :=
  mkRequest 7 "c" "q" ["c"%string] 0 0 1 pending (Num.Fin 0).

Definition busyMetrics : NodeMetrics :=
  mkNodeMetrics "s" (Num.Fin 900) (Num.Fin 0) (Num.Fin 1) (Num.Fin 0)
    0 (Num.Fin 1) 10 900 None None.

(** ** The event log and the counters it accounts for *)

(** The fields that only the lifecycle methods assign. *)
Definition control (s : Engine) : SimulationStatus * option nat * nat * Q :=
  (status s, intervalId s, timerCounter s, speed s).

Definition isGenerated (e : SimulationEvent) : bool :=
  match message e with
  | MsgRequestSent _ _ _ => true
  | _ => false
  end.

Definition isCompletion (e : SimulationEvent) : bool :=
  match message e with
  | MsgRequestCompleted _ _ => true
  | _ => false
  end.

Definition isNodeScaled (e : SimulationEvent) : bool :=
  if SimulationEventType_eq_dec (ev_type e) NODE_SCALED then true else false.

Definition countOf (p : SimulationEvent -> bool) (log : list SimulationEvent) : nat :=
  length (filter p log).

Definition sumQ (l : list Q) : Q := fold_right Qplus 0%Q l.

(** The system average latency is the mean of the logged completion
    latencies. *)
Definition meanKept (s : Engine) : Prop :=
  exists a,
    averageLatency (systemMetrics s) = Num.Fin a
    /\ (a * inject_Z (Z.of_nat (successfulRequests (systemMetrics s)))
        == sumQ (completionLatencies (events s)))%Q.

(** What an operation inside a tick does to the log and to the counters:
    it appends [suffix], numbered from the event counter and stamped with
    the current time, and moves each counter by the events of its kind. *)
Record tallied (s s' : Engine) (suffix : list SimulationEvent) : Prop :=
  mkTallied {
    t_events : events s' = events s ++ suffix;
    t_counter : eventIdCounter s' = eventIdCounter s + length suffix;
    t_ids : map ev_id suffix = seq (eventIdCounter s) (length suffix);
    t_stamps : Forall (fun e => ev_timestamp e = currentTime s) suffix;
    t_time : currentTime s' = currentTime s;
    t_total :
      totalRequests (systemMetrics s')
      = totalRequests (systemMetrics s) + countOf isGenerated suffix;
    t_requestIds :
      requestIdCounter s' = requestIdCounter s + countOf isGenerated suffix;
    t_successful :
      successfulRequests (systemMetrics s')
      = successfulRequests (systemMetrics s) + countOf isCompletion suffix;
    t_scaling :
      scalingActions (systemMetrics s')
      = scalingActions (systemMetrics s) + countOf isNodeScaled suffix;
    t_failed :
      failedRequests (systemMetrics s) + countOf isRequestFailed suffix
      <= failedRequests (systemMetrics s');
    t_mean : meanKept s -> meanKept s'
  }.

(** An operation that appends to the log and keeps the accounts. *)
Definition announced (s s' : Engine) : Prop :=
  exists suffix, tallied s s' suffix.

(** The same for an operation inside a tick, which leaves the lifecycle
    fields alone. *)
Definition logged (s s' : Engine) : Prop :=
  exists suffix, tallied s s' suffix /\ control s' = control s.

(** The clock advanced by one tick. *)
Definition advance (config : SimulationConfig) (s : Engine) : Engine :=
  set_currentTime (currentTime s + tickRate config)%Q s.

(** The part of a tick that follows the advance of the clock. *)
Definition afterAdvance (nodes : list SystemNode) (edges : list SystemEdge)
    (config : SimulationConfig) (rnd : nat -> Q) (s1 : Engine)
  : Engine * completion :=
  match generateRequests nodes edges config rnd s1 with
  | (s2, Thrown) => (s2, Thrown)
  | (s2, Normal) =>
      let s3 := processRequests nodes edges config rnd (tickRate config) s2 in
      let s4 := updateMetrics s3 in
      let s5 := if autoScaling config then checkAutoScaling nodes s4 else s4 in
      match (if chaosMode config then applyChaosEffects nodes rnd s5
             else (s5, Normal)) with
      | (s6, Thrown) => (s6, Thrown)
      | (s6, Normal) =>
          (if isMultipleOf1000 (currentTime s6)
           then takeMetricsSnapshot s6 else s6,
           Normal)
      end
  end.

(** The events of the log carry the ids 0, 1, 2, ... in order, and the
    event counter is the length of the log. *)
Definition numbered (s : Engine) : Prop :=
  map ev_id (events s) = seq 0 (length (events s))
  /\ eventIdCounter s = length (events s).

(** Each counter of the system metrics against the events of its kind. *)
Definition accounted (s : Engine) : Prop :=
  totalRequests (systemMetrics s) = countOf isGenerated (events s)
  /\ requestIdCounter s = countOf isGenerated (events s)
  /\ successfulRequests (systemMetrics s) = countOf isCompletion (events s)
  /\ scalingActions (systemMetrics s) = countOf isNodeScaled (events s)
  /\ countOf isRequestFailed (events s) <= failedRequests (systemMetrics s).

(** The log is in the order of the simulated clock and holds no event of
    the future. *)
Definition stamped (s : Engine) : Prop :=
  StronglySorted Qle (map ev_timestamp (events s))
  /\ Forall (fun e => (ev_timestamp e <= currentTime s)%Q) (events s).

(** An interval is scheduled exactly while the engine is running. *)
Definition timerConsistent (s : Engine) : Prop :=
  intervalId s <> None <-> status s = RUNNING.

(** A completed engine has reached the configured duration. *)
Definition completedOnTime (config : SimulationConfig) (s : Engine) : Prop :=
  status s = COMPLETED -> (duration config * 1000 <= currentTime s)%Q.

(** A request as [generateRequests] makes it at time [now]: pending, at
    its source, which is a client of the graph, and bound for the target
    of one of the edges that leave the source. *)
Definition newRequest (nodes : list SystemNode) (edges : list SystemEdge)
    (now : Q) (r : ActiveRequest) : Prop :=
  r_status r = pending
  /\ startTime r = now
  /\ currentLatency r = 0%Q
  /\ path r = [sourceNodeId r]
  /\ (exists n, In n nodes /\ type (data n) = CLIENT /\ n_id n = sourceNodeId r)
  /\ (exists e, In e edges /\ source e = sourceNodeId r
                /\ target e = targetNodeId r).

(** The number of requests that a tick sets out to generate when the
    draw for the fractional part is [r]. *)
Definition requestsToGenerate (config : SimulationConfig) (r : Q) : nat :=
  Z.to_nat (Qfloor (requestsPerSecond config * tickRate config / 1000 + r)).



(** A random stream whose every draw is below the chaos threshold. *)
Definition zeros : nat -> Q := fun _ => 0%Q.


(** An engine over the empty graph that has thrown in every tick so far. *)
Definition stalled (s : Engine) : Prop :=
  status s <> COMPLETED
  /\ metricsHistory s = []
  /\ activeRequests s = []
  /\ nodeMetrics s = [].

(** ** The metrics of one node *)

(** The metrics of a node once [handleNodeProcessing] has counted one
    more request at time [now]. *)
Definition touched (node : SystemNode) (now : Q) (metrics : NodeMetrics)
  : NodeMetrics :=
  let m1 := set_throughput (S (throughput metrics)) metrics in
  let m2 :=
    match type (data node) with
    | DATABASE =>
        set_queryRate
          (Some (S (match queryRate m1 with Some q => q | None => 0 end))) m1
    | QUEUE => set_queueDepth (S (queueDepth m1)) m1
    | _ => m1
    end in
  let rps := Num.div (Num.ofNat (throughput m2)) (Num.Fin (now / 1000)) in
  let m3 := set_m_requestsPerSecond rps m2 in
  set_cpuUtilization
    (Num.min (Num.mul (Num.div rps (Num.Fin 100)) (Num.ofZ (instances m3)))
       (Num.Fin 1)) m3.

(** The three ways in which the engine rewrites the metrics stored under
    the key [k]: a request is processed at the node, the success rate is
    refreshed, the node is scaled. *)
Inductive nodeStep (nodes : list SystemNode) (now : Q) (k : string)
  : NodeMetrics -> NodeMetrics -> Prop :=
| step_touched node m :
    getNodeById nodes k = Some node -> n_id node = k ->
    nodeStep nodes now k m (touched node now m)
| step_refreshed m : nodeStep nodes now k m (refreshSuccessRate m)
| step_scaled m s : nodeStep nodes now k m (fst (scaleNode nodes k m s)).

(** Two maps with the same keys in the same order whose values are
    related, each under its key. *)
Definition keyedRel (R : string -> NodeMetrics -> NodeMetrics -> Prop)
    (m m' : list (string * NodeMetrics)) : Prop :=
  Forall2 (fun a b => fst a = fst b /\ R (fst a) (snd a) (snd b)) m m'.

(** The map after any number of rewritings at time [now]. *)
Definition rewritten (nodes : list SystemNode) (now : Q)
    (m m' : list (string * NodeMetrics)) : Prop :=
  keyedRel (fun k => clos_refl_trans NodeMetrics (nodeStep nodes now k)) m m'.

(** Every entry of the metrics map satisfies [P] under its key. *)
Definition nodesSatisfy (P : string -> NodeMetrics -> Prop) (s : Engine)
  : Prop :=
  Forall (fun kv => P (fst kv) (snd kv)) (nodeMetrics s).

(** The fields of an entry that no method assigns, and the success rate
    that [updateMetrics] derives from one of them. *)
Definition deadFields (k : string) (m : NodeMetrics) : Prop :=
  nodeId m = k
  /\ m_errorRate m = Num.Fin 0
  /\ m_averageLatency m = Num.Fin 0
  /\ successRate m = Num.Fin 1.

(** The counters of an entry against the type of its node. *)
Definition bookkept (nodes : list SystemNode) (config : SimulationConfig)
    (k : string) (m : NodeMetrics) : Prop :=
  forall node, getNodeById nodes k = Some node ->
    queueDepth m
    = (if NodeType_eqb (type (data node)) QUEUE then throughput m else 0)
    /\ queryRate m
       = (if NodeType_eqb (type (data node)) DATABASE
          then Some (throughput m) else None)
    /\ cacheHitRate m
       = (if NodeType_eqb (type (data node)) CACHE
          then Some (cacheHitRatio config) else None)
    /\ (type (data node) <> SERVICE -> instances m = 1%Z).

(** A CPU utilisation that is a finite fraction, on a legal number of
    instances. *)
Definition cpuInRange (m : NodeMetrics) : Prop :=
  instancesInRange m
  /\ exists c, cpuUtilization m = Num.Fin c /\ (0 <= c)%Q /\ (c <= 1)%Q.

(** [min((rps / 100) * instances, 1)] for the rate of [t] requests in
    [now] milliseconds. *)
Definition cpuLoad (t : nat) (now : Q) (inst : Z) : num :=
  Num.min
    (Num.mul
       (Num.div (Num.div (Num.ofNat t) (Num.Fin (now / 1000))) (Num.Fin 100))
       (Num.ofZ inst))
    (Num.Fin 1).

(** The keys of the metrics map: the distinct ids of the nodes. *)
Definition keys (s : Engine) : list string := map fst (nodeMetrics s).

(** ** Bottleneck reports *)

(** What every reported bottleneck satisfies: it names a node of the
    graph by its label, its severity is not the lowest, and it lists
    between one and three issues with a recommendation for each. *)
Definition wellFormedReport (nodes : list SystemNode) (b : BottleneckAnalysis)
  : Prop :=
  b_severity b <> low
  /\ issues b <> []
  /\ length (issues b) = length (b_recommendations b)
  /\ length (issues b) <= 3
  /\ exists node,
       getNodeById nodes (b_nodeId b) = Some node
       /\ nodeName b = label (data node).

(** ** Snapshots *)

(** What an operation inside a tick other than [updateMetrics] and
    [takeMetricsSnapshot] leaves alone. *)
Definition kept (s s' : Engine) : Prop :=
  metricsHistory s' = metricsHistory s
  /\ timestamp (systemMetrics s') = timestamp (systemMetrics s).

(** A snapshot taken on a whole second of simulated time, of system
    metrics refreshed at that time, with the node map of the engine. *)
Definition snapshotAt (ks : list string) (sn : MetricsSnapshot) : Prop :=
  isMultipleOf1000 (sn_timestamp sn) = true
  /\ timestamp (system sn) = sn_timestamp sn
  /\ sn_nodes sn = ks.

(** The history of [s'] is that of [s], or that of [s] followed by a
    snapshot of [s']. *)
Definition recorded (s s' : Engine) : Prop :=
  metricsHistory s' = metricsHistory s
  \/ (metricsHistory s'
      = metricsHistory s
        ++ [mkSnapshot (currentTime s') (systemMetrics s') (keys s')]
      /\ isMultipleOf1000 (currentTime s') = true
      /\ timestamp (systemMetrics s') = currentTime s').

(** ** Walks *)

(** Each entry of [p] but the last has an edge to the entry after it. *)
Fixpoint walk (edges : list SystemEdge) (p : list string) : Prop :=
  match p with
  | a :: (b :: _) as rest => In (mkEdge a b) edges /\ walk edges rest
  | _ => True
  end.

(** The path of a request starts at its source and is a walk of the
    graph, which the hop to the target extends while the request is in
    flight. *)
Definition routed (edges : list SystemEdge) (r : ActiveRequest) : Prop :=
  hd_error (path r) = Some (sourceNodeId r)
  /\ walk edges
       (if isTerminal (r_status r) then path r
        else path r ++ [targetNodeId r]).

(** The severity that the analysis gives a node on which no error rate
    was ever recorded: a queue near capacity decides before the CPU. *)
Definition severityOfReport (config : SimulationConfig) (b : BottleneckAnalysis)
  : BottleneckSeverity :=
  if Num.Qltb (messageQueueDepth config * (8 # 10))
       (inject_Z (Z.of_nat (maxQueueDepth (b_metrics b))))
  then high
  else if Num.gtb (b_cpuUtilization (b_metrics b)) (Num.Fin (9 # 10))
       then critical
       else medium.

(** ** The system metrics after a tick *)

(** The derived fields of the system metrics agree with the engine. *)
Definition settledMetrics (s : Engine) : Prop :=
  timestamp (systemMetrics s) = currentTime s
  /\ s_activeRequests (systemMetrics s) = length (activeRequests s)
  /\ totalQueueDepth (systemMetrics s) = sumQueueDepth (nodeMetrics s)
  /\ s_requestsPerSecond (systemMetrics s)
     = Num.div (Num.ofNat (totalRequests (systemMetrics s)))
         (Num.Fin (currentTime s / 1000))
  /\ (0 < totalRequests (systemMetrics s) ->
      s_errorRate (systemMetrics s)
      = Num.div (Num.ofNat (failedRequests (systemMetrics s)))
          (Num.ofNat (totalRequests (systemMetrics s)))).

(** What the auto-scaler and the chaos effects leave alone. *)
Definition derivedKept (s s' : Engine) : Prop :=
  currentTime s' = currentTime s
  /\ activeRequests s' = activeRequests s
  /\ set_scalingActions 0 (systemMetrics s')
     = set_scalingActions 0 (systemMetrics s).

(** The events that [setSpeed] logs on a running engine. *)
Definition restartEvents (s : Engine) : list SimulationEvent :=
  [mkEvent (eventIdCounter s) REQUEST_SENT (currentTime s) None None None
     MsgPaused info;
   mkEvent (S (eventIdCounter s)) REQUEST_SENT (currentTime s) None None None
     MsgResumed info].

(** * Properties *)

(** ** Lifecycle *)

(** C6, counterexample.  [stop] has no guard: on an engine that was never
    started it sets the status to Stopped and logs an event. *)
Lemma stop_from_idle_is_not_a_noop :
  status (initializeState clientDbNodes sampleConfig) = IDLE
  /\ status (stop (initializeState clientDbNodes sampleConfig)) = STOPPED
  /\ map message (events (stop (initializeState clientDbNodes sampleConfig)))
     = [MsgStopped]
  /\ stop (initializeState clientDbNodes sampleConfig)
     <> initializeState clientDbNodes sampleConfig.
Proof.
  repeat split.
  intro H. apply (f_equal status) in H. discriminate H.
Qed.

(** C6, amended.  [start] on a running engine, [pause] on an engine that is
    not running and [resume] on an engine that is not paused return the
    engine unchanged.  [stop] is not guarded: from every status, Idle
    included, it sets the status to Stopped, clears the interval and logs
    one "Simulation stopped" event, and leaves the metrics, the active
    requests, the history and the clock as they were.  None of the four
    can raise an exception. *)
Theorem guarded_transitions :
  (forall s, status s = RUNNING -> start s = s)
  /\ (forall s, status s <> RUNNING -> pause s = s)
  /\ (forall s, status s <> PAUSED -> resume s = s)
  /\ (forall s,
        status (stop s) = STOPPED
        /\ intervalId (stop s) = None
        /\ events (stop s)
           = events s
             ++ [mkEvent (eventIdCounter s) REQUEST_SENT (currentTime s)
                   None None None MsgStopped info]
        /\ eventIdCounter (stop s) = S (eventIdCounter s)
        /\ systemMetrics (stop s) = systemMetrics s
        /\ nodeMetrics (stop s) = nodeMetrics s
        /\ activeRequests (stop s) = activeRequests s
        /\ metricsHistory (stop s) = metricsHistory s
        /\ currentTime (stop s) = currentTime s).
Proof.
  split; [|split; [|split]].
  - intros s H. unfold start. rewrite H. reflexivity.
  - intros s H. unfold pause, status_eqb.
    destruct (SimulationStatus_eq_dec (status s) RUNNING); [contradiction | reflexivity].
  - intros s H. unfold resume, status_eqb.
    destruct (SimulationStatus_eq_dec (status s) PAUSED); [contradiction | reflexivity].
  - intros s. unfold stop, clearLoop. simpl.
    destruct (intervalId s) eqn:E; simpl; repeat split; auto.
Qed.

(** C6, witness: a second [start], and [pause] and [resume] on a fresh
    engine. *)
Lemma guarded_transitions_witness :
  start (start (initializeState clientDbNodes sampleConfig))
  = start (initializeState clientDbNodes sampleConfig)
  /\ pause (initializeState clientDbNodes sampleConfig)
     = initializeState clientDbNodes sampleConfig
  /\ resume (initializeState clientDbNodes sampleConfig)
     = initializeState clientDbNodes sampleConfig.
Proof.
  destruct guarded_transitions as (Hstart & Hpause & Hresume & _).
  split; [|split].
  - apply Hstart. reflexivity.
  - apply Hpause. simpl. discriminate.
  - apply Hresume. simpl. discriminate.
Defined.

(** ** Result synthesis *)

(** The bottleneck list is the collected list reordered by descending
    severity rank, and bottlenecks of one rank keep their order. *)
Lemma insertBySeverity_perm b l : Permutation (b :: l) (insertBySeverity b l).
Proof.
  induction l as [|c l IH]; simpl; [apply Permutation_refl|].
  destruct (severityOrder (b_severity b) <? severityOrder (b_severity c)).
  - eapply perm_trans; [apply perm_swap|]. apply perm_skip, IH.
  - apply Permutation_refl.
Qed.

Lemma sortBySeverity_perm l : Permutation l (sortBySeverity l).
Proof.
  induction l as [|b l IH]; simpl; [constructor|].
  eapply perm_trans; [apply perm_skip, IH | apply insertBySeverity_perm].
Qed.

Lemma insertBySeverity_sorted b l :
  Sorted (fun x y => severityOrder (b_severity y) <= severityOrder (b_severity x)) l ->
  Sorted (fun x y => severityOrder (b_severity y) <= severityOrder (b_severity x))
    (insertBySeverity b l).
Proof.
  induction 1 as [|c l Hl IH Hhd]; simpl; [repeat constructor|].
  destruct (severityOrder (b_severity b) <? severityOrder (b_severity c)) eqn:E.
  - apply Nat.ltb_lt in E. constructor; [exact IH|].
    destruct l as [|c' l']; simpl.
    + constructor. lia.
    + destruct (severityOrder (b_severity b) <? severityOrder (b_severity c'));
        constructor; [inversion Hhd; assumption | lia].
  - apply Nat.ltb_ge in E. constructor; [constructor; assumption|].
    constructor. exact E.
Qed.

Lemma sortBySeverity_sorted l :
  Sorted (fun x y => severityOrder (b_severity y) <= severityOrder (b_severity x))
    (sortBySeverity l).
Proof.
  induction l as [|b l IH]; simpl; [constructor|].
  apply insertBySeverity_sorted, IH.
Qed.

Lemma insertBySeverity_stable rank b l :
  filter (fun x => severityOrder (b_severity x) =? rank) (insertBySeverity b l)
  = filter (fun x => severityOrder (b_severity x) =? rank) (b :: l).
Proof.
  induction l as [|c l IH]; [reflexivity|]. simpl insertBySeverity.
  destruct (severityOrder (b_severity b) <? severityOrder (b_severity c)) eqn:E;
    [|reflexivity].
  apply Nat.ltb_lt in E. simpl in *. rewrite IH.
  destruct (severityOrder (b_severity c) =? rank) eqn:Ec; [|reflexivity].
  apply Nat.eqb_eq in Ec.
  destruct (severityOrder (b_severity b) =? rank) eqn:Eb; [|reflexivity].
  apply Nat.eqb_eq in Eb. lia.
Qed.

Lemma sortBySeverity_stable rank l :
  filter (fun x => severityOrder (b_severity x) =? rank) (sortBySeverity l)
  = filter (fun x => severityOrder (b_severity x) =? rank) l.
Proof.
  induction l as [|b l IH]; [reflexivity|]. simpl sortBySeverity.
  rewrite insertBySeverity_stable. simpl. rewrite IH. reflexivity.
Qed.

(** C8.  Two consecutive calls of [getResult] on the same engine return
    equal summaries: the same totals, rates, peak, recommendations and the
    same bottleneck list, which is the collected list in descending order
    of severity.  The second call leaves the engine as the first found it,
    and both results carry its event log; after [stop] that log ends with
    the one "Simulation stopped" event and the calls add nothing to it. *)
Theorem getResult_idempotent
    (nodes : list SystemNode) (config : SimulationConfig) (s : Engine) :
  (let (r1, s1) := callGetResult nodes config s in
   let (r2, s2) := callGetResult nodes config s1 in
   summary r1 = summary r2
   /\ s2 = s
   /\ res_events r1 = events s
   /\ res_events r2 = events s
   /\ Permutation (collectBottlenecks nodes config (nodeMetrics s))
        (bottlenecks (summary r2))
   /\ Sorted
        (fun x y => severityOrder (b_severity y) <= severityOrder (b_severity x))
        (bottlenecks (summary r2)))
  /\ (let (r1, s1) := callGetResult nodes config (stop s) in
      let (r2, s2) := callGetResult nodes config s1 in
      summary r1 = summary r2
      /\ events s2
         = events s
           ++ [mkEvent (eventIdCounter s) REQUEST_SENT (currentTime s)
                 None None None MsgStopped info]).
Proof.
  unfold callGetResult. split.
  - repeat split.
    + apply sortBySeverity_perm.
    + apply sortBySeverity_sorted.
  - split; [reflexivity|].
    unfold stop, clearLoop. destruct (intervalId (set_status STOPPED s));
      reflexivity.
Qed.

(** ** Two runs that show a defect *)

(** C1, at the failing input.  On a graph whose client has an edge to
    itself the first hop, which [generateRequests] picks without looking
    at the path, appends the client to a path that already starts with it:
    after one tick the path of the request is the client followed by
    itself, two entries long on a graph of one node. *)
Theorem first_hop_revisits_client :
  let s := run selfLoopNodes selfLoopEdges sampleConfig halves
             [CallStart; TimerFires] in
  map path (activeRequests s) = [["c"; "c"]%string]
  /\ map r_status (activeRequests s) = [completed]
  /\ length (nodup string_dec (map n_id selfLoopNodes)) = 1.
Proof. vm_compute. repeat split; reflexivity. Qed.

(** A request whose target is not a node of the graph is marked failed and
    counted, and nothing is logged. *)
Lemma processRequest_missing_target nodes edges config rnd deltaTime request s :
  isTerminal (r_status request) = false ->
  getNodeById nodes (targetNodeId request) = None ->
  processRequest nodes edges config rnd deltaTime request s
  = (set_r_status failed request, incFailed s, false)
  /\ events (incFailed s) = events s.
Proof.
  intros Hterm Hnone. unfold processRequest. rewrite Hterm, Hnone.
  split; reflexivity.
Qed.

(** C3, at the failing input.  A request whose target is not a node of the
    graph is marked failed and counted in [failedRequests], but the tick
    logs nothing for it: the only event of the tick is the REQUEST_SENT of
    its generation, and the log has no REQUEST_FAILED event. *)
Theorem missing_target_fails_silently :
  let s0 := run danglingNodes danglingEdges sampleConfig halves [CallStart] in
  let s := run danglingNodes danglingEdges sampleConfig halves
             [CallStart; TimerFires] in
  map r_status (activeRequests s) = [failed]
  /\ failedRequests (systemMetrics s) = 1
  /\ filter isRequestFailed (events s) = []
  /\ map ev_type (events s) = map ev_type (events s0) ++ [REQUEST_SENT].
Proof. vm_compute. repeat split; reflexivity. Qed.

(** ** Maps of node metrics *)

Lemma mapRel_refl (R : NodeMetrics -> NodeMetrics -> Prop) :
  (forall a, R a a) -> forall m, mapRel R m m.
Proof.
  intros HR m. induction m as [|kv m IH]; constructor; auto.
Qed.

Lemma mapRel_trans (R : NodeMetrics -> NodeMetrics -> Prop) :
  (forall a b c, R a b -> R b c -> R a c) ->
  forall m1 m2 m3, mapRel R m1 m2 -> mapRel R m2 m3 -> mapRel R m1 m3.
Proof.
  intros HR m1 m2 m3 H12. revert m3.
  induction H12 as [|a b l l' [Hk Hab] _ IH]; intros m3 H23.
  - inversion H23. constructor.
  - inversion H23 as [|b' c l2 l3 [Hk' Hbc] Hrest]; subst.
    constructor.
    + split; [congruence | eauto].
    + apply IH. assumption.
Qed.

Lemma mapRel_mapSet (R : NodeMetrics -> NodeMetrics -> Prop) k v v' m :
  (forall a, R a a) ->
  mapGet k m = Some v -> R v v' -> mapRel R m (mapSet k v' m).
Proof.
  intros HR. induction m as [|[k0 v0] m IH]; simpl; intros Hget Hv.
  - discriminate.
  - destruct (String.eqb k0 k).
    + injection Hget as ->. constructor; [split; auto|]. apply mapRel_refl, HR.
    + constructor; [split; auto|]. apply IH; assumption.
Qed.

Lemma grows_refl a : grows a a.
Proof. split; auto. Qed.

Lemma grows_trans a b c : grows a b -> grows b c -> grows a c.
Proof. intros [H1 H2] [H3 H4]. split; [lia | auto]. Qed.

Lemma sumQueueDepth_acc m m' :
  mapRel grows m m' ->
  forall a a', a <= a' ->
  fold_left (fun acc kv => acc + queueDepth (snd kv)) m a
  <= fold_left (fun acc kv => acc + queueDepth (snd kv)) m' a'.
Proof.
  induction 1 as [|x y l l' [_ [Hq _]] _ IH]; intros a a' Ha; simpl.
  - assumption.
  - apply IH. lia.
Qed.

Lemma sumQueueDepth_mono m m' :
  mapRel grows m m' -> sumQueueDepth m <= sumQueueDepth m'.
Proof. intros H. apply sumQueueDepth_acc; auto. Qed.

Lemma mapRel_queuesGrow m m' : mapRel grows m m' -> queuesGrow m m'.
Proof.
  induction 1 as [|x y l l' [Hk [Hq _]] _ IH]; constructor; auto.
Qed.

Lemma mapRel_instances m m' :
  mapRel grows m m' ->
  Forall (fun kv => instancesInRange (snd kv)) m ->
  Forall (fun kv => instancesInRange (snd kv)) m'.
Proof.
  induction 1 as [|x y l l' [_ [_ Hi]] _ IH]; intros HF; constructor;
    inversion HF; subst; auto.
Qed.

(** ** The evolution relation *)

Lemma evolves_refl s : evolves s s.
Proof.
  repeat split; auto. apply mapRel_refl, grows_refl.
Qed.

Lemma evolves_trans s1 s2 s3 : evolves s1 s2 -> evolves s2 s3 -> evolves s1 s3.
Proof.
  intros (Ht & Hm & He & Hq) (Ht' & Hm' & He' & Hq').
  split; [lia|]. split; [eapply mapRel_trans; eauto using grows_trans|].
  split.
  - intros H0. rewrite He' by assumption. apply He. lia.
  - intros HJ. destruct (Hq HJ) as [HJ2 Hle]. destruct (Hq' HJ2) as [HJ3 Hle'].
    split; [assumption | lia].
Qed.

(** An operation that may add requests and lets the node metrics grow. *)
Lemma evolves_metrics s s' :
  totalRequests (systemMetrics s) <= totalRequests (systemMetrics s') ->
  s_errorRate (systemMetrics s') = s_errorRate (systemMetrics s) ->
  totalQueueDepth (systemMetrics s') = totalQueueDepth (systemMetrics s) ->
  mapRel grows (nodeMetrics s) (nodeMetrics s') ->
  evolves s s'.
Proof.
  intros Ht He Hq Hm. unfold evolves, queueTotalBounded.
  rewrite He, Hq. repeat split; auto.
  apply sumQueueDepth_mono in Hm. lia.
Qed.

Lemma evolves_same s s' :
  systemMetrics s' = systemMetrics s -> nodeMetrics s' = nodeMetrics s ->
  evolves s s'.
Proof.
  intros Hs Hm. apply evolves_metrics.
  - rewrite Hs. apply Nat.le_refl.
  - rewrite Hs. reflexivity.
  - rewrite Hs. reflexivity.
  - rewrite Hm. apply mapRel_refl, grows_refl.
Qed.

Lemma evolves_core s s' : core s' = core s -> evolves s s'.
Proof.
  unfold core. intros H. injection H as _ Hm Hs _ _ _.
  apply evolves_same; assumption.
Qed.

(** ** What the lifecycle methods leave alone *)

Lemma completionLatencies_snoc log e :
  completionLatencies (log ++ [e])
  = completionLatencies log
    ++ match message e with
       | MsgRequestCompleted _ l => [l]
       | _ => []
       end.
Proof.
  unfold completionLatencies. rewrite flat_map_app. simpl.
  rewrite app_nil_r. reflexivity.
Qed.

(** Rewrites the completion latencies of a log extended by events. *)
Ltac latencies :=
  simpl; rewrite ?completionLatencies_snoc; simpl; rewrite ?app_nil_r.

Lemma core_clearLoop s : core (clearLoop s) = core s.
Proof. unfold clearLoop. destruct (intervalId s); reflexivity. Qed.

Lemma core_start s : core (start s) = core s.
Proof.
  unfold start. destruct (status_eqb (status s) RUNNING); [reflexivity|].
  unfold core. latencies. reflexivity.
Qed.

Lemma core_stop s : core (stop s) = core s.
Proof.
  unfold stop. transitivity (core (clearLoop (set_status STOPPED s))).
  - unfold core. latencies. reflexivity.
  - rewrite core_clearLoop. reflexivity.
Qed.

Lemma core_pause s : core (pause s) = core s.
Proof.
  unfold pause. destruct (negb (status_eqb (status s) RUNNING)); [reflexivity|].
  transitivity (core (clearLoop (set_status PAUSED s))).
  - unfold core. latencies. reflexivity.
  - rewrite core_clearLoop. reflexivity.
Qed.

Lemma core_resume s : core (resume s) = core s.
Proof.
  unfold resume. destruct (negb (status_eqb (status s) PAUSED)); [reflexivity|].
  unfold core. latencies. reflexivity.
Qed.

Lemma core_setSpeed v s : core (setSpeed v s) = core s.
Proof.
  unfold setSpeed. destruct (status_eqb (status s) RUNNING).
  - rewrite core_resume. unfold core at 1. simpl.
    change (core (pause s) = core s). apply core_pause.
  - reflexivity.
Qed.

Lemma core_complete s : core (complete s) = core s.
Proof.
  unfold complete. destruct (status_eqb (status s) COMPLETED); [reflexivity|].
  transitivity (core (stop s)); [|apply core_stop].
  unfold core. latencies. reflexivity.
Qed.

Section Properties.

Variable nodes : list SystemNode.
Variable edges : list SystemEdge.
Variable config : SimulationConfig.
Variable rnd : nat -> Q.

(** A property of the reachable states follows from the initial state and
    from what a tick does, when it only reads the fields a tick assigns. *)
Lemma run_invariant (P : Engine -> Prop) :
  (forall s s', core s' = core s -> P s -> P s') ->
  P (initializeState nodes config) ->
  (forall s, P s -> P (fst (tick nodes edges config rnd s))) ->
  forall calls, P (run nodes edges config rnd calls).
Proof.
  intros Hcore Hinit Htick calls. unfold run.
  generalize (initializeState nodes config) Hinit.
  induction calls as [|c calls IH]; intros s Hs; simpl; [assumption|].
  apply IH. destruct c; simpl.
  - apply (Hcore s); [apply core_start | assumption].
  - apply (Hcore s); [apply core_pause | assumption].
  - apply (Hcore s); [apply core_resume | assumption].
  - apply (Hcore s); [apply core_stop | assumption].
  - apply (Hcore s); [apply core_setSpeed | assumption].
  - destruct (intervalId s); [|assumption].
    unfold intervalCallback.
    destruct (negb (status_eqb (status s) RUNNING)); [assumption|].
    specialize (Htick s Hs).
    destruct (tick nodes edges config rnd s) as [s1 [|]]; simpl in Htick.
    + destruct (Qle_bool (duration config * 1000) (currentTime s1)); [|assumption].
      apply (Hcore s1); [apply core_complete | assumption].
    + assumption.
Qed.

(** Every call is an evolution when the tick is. *)
Lemma step_evolves :
  (forall s, evolves s (fst (tick nodes edges config rnd s))) ->
  forall s c, evolves s (step nodes edges config rnd s c).
Proof.
  intros Htick s c. destruct c; simpl.
  - apply evolves_core, core_start.
  - apply evolves_core, core_pause.
  - apply evolves_core, core_resume.
  - apply evolves_core, core_stop.
  - apply evolves_core, core_setSpeed.
  - destruct (intervalId s); [|apply evolves_refl].
    unfold intervalCallback.
    destruct (negb (status_eqb (status s) RUNNING)); [apply evolves_refl|].
    specialize (Htick s).
    destruct (tick nodes edges config rnd s) as [s1 [|]]; simpl in Htick.
    + destruct (Qle_bool (duration config * 1000) (currentTime s1)); [|assumption].
      eapply evolves_trans; [eassumption|]. apply evolves_core, core_complete.
    + assumption.
Qed.

(** *** Every operation of a tick is an evolution *)

Lemma ev_emitEvent s ty n sp tp msg sev x :
  evolves s x -> evolves s (emitEvent ty n sp tp msg sev x).
Proof. intros H. eapply evolves_trans; [eassumption|]. apply evolves_same; reflexivity. Qed.

Lemma ev_randomCalls s v x : evolves s x -> evolves s (set_randomCalls v x).
Proof. intros H. eapply evolves_trans; [eassumption|]. apply evolves_same; reflexivity. Qed.

Lemma ev_currentTime s v x : evolves s x -> evolves s (set_currentTime v x).
Proof. intros H. eapply evolves_trans; [eassumption|]. apply evolves_same; reflexivity. Qed.

Lemma ev_activeRequests s v x : evolves s x -> evolves s (set_activeRequests v x).
Proof. intros H. eapply evolves_trans; [eassumption|]. apply evolves_same; reflexivity. Qed.

Lemma ev_requestIdCounter s v x : evolves s x -> evolves s (set_requestIdCounter v x).
Proof. intros H. eapply evolves_trans; [eassumption|]. apply evolves_same; reflexivity. Qed.

Lemma ev_metricsHistory s v x : evolves s x -> evolves s (set_metricsHistory v x).
Proof. intros H. eapply evolves_trans; [eassumption|]. apply evolves_same; reflexivity. Qed.

Lemma ev_incFailed s x : evolves s x -> evolves s (incFailed x).
Proof.
  intros H. eapply evolves_trans; [eassumption|].
  apply evolves_metrics; simpl; auto. apply mapRel_refl, grows_refl.
Qed.

Lemma ev_incSuccessful s x : evolves s x -> evolves s (incSuccessful x).
Proof.
  intros H. eapply evolves_trans; [eassumption|].
  apply evolves_metrics; simpl; auto. apply mapRel_refl, grows_refl.
Qed.

Lemma ev_incScalingActions s x : evolves s x -> evolves s (incScalingActions x).
Proof.
  intros H. eapply evolves_trans; [eassumption|].
  apply evolves_metrics; simpl; auto. apply mapRel_refl, grows_refl.
Qed.

Lemma ev_updateLatencyMetrics s l x :
  evolves s x -> evolves s (updateLatencyMetrics l x).
Proof.
  intros H. eapply evolves_trans; [eassumption|].
  apply evolves_metrics; simpl; auto. apply mapRel_refl, grows_refl.
Qed.

Lemma ev_systemMetrics s v x :
  evolves s x ->
  totalRequests (systemMetrics x) <= totalRequests v ->
  s_errorRate v = s_errorRate (systemMetrics x) ->
  totalQueueDepth v = totalQueueDepth (systemMetrics x) ->
  evolves s (set_systemMetrics v x).
Proof.
  intros H Ht He Hq. eapply evolves_trans; [eassumption|].
  apply evolves_metrics; simpl; auto. apply mapRel_refl, grows_refl.
Qed.

Ltac evolve_step :=
  lazymatch goal with
  | |- evolves ?s ?s => apply evolves_refl
  | |- evolves _ (emitEvent _ _ _ _ _ _ _) => apply ev_emitEvent
  | |- evolves _ (set_randomCalls _ _) => apply ev_randomCalls
  | |- evolves _ (set_currentTime _ _) => apply ev_currentTime
  | |- evolves _ (set_activeRequests _ _) => apply ev_activeRequests
  | |- evolves _ (set_requestIdCounter _ _) => apply ev_requestIdCounter
  | |- evolves _ (set_metricsHistory _ _) => apply ev_metricsHistory
  | |- evolves _ (incFailed _) => apply ev_incFailed
  | |- evolves _ (incSuccessful _) => apply ev_incSuccessful
  | |- evolves _ (incScalingActions _) => apply ev_incScalingActions
  | |- evolves _ (updateLatencyMetrics _ _) => apply ev_updateLatencyMetrics
  | |- evolves _ (set_systemMetrics _ _) =>
      apply ev_systemMetrics; [| simpl; lia | reflexivity | reflexivity]
  end.

Ltac evolve := repeat evolve_step.

Lemma generateOne_evolves clientNodes s :
  evolves s (fst (generateOne nodes edges config rnd clientNodes s)).
Proof.
  unfold generateOne, random.
  destruct (arrayAt clientNodes _) as [clientNode|]; simpl; [|evolve].
  destruct (filter _ edges) as [|e es]; simpl; [evolve|].
  destruct (arrayAt (e :: es) _) as [targetEdge|]; simpl; evolve.
Qed.

Lemma generateLoop_evolves count clientNodes s :
  evolves s (fst (generateLoop nodes edges config rnd count clientNodes s)).
Proof.
  revert s. induction count as [|k IH]; intros s; simpl; [apply evolves_refl|].
  pose proof (generateOne_evolves clientNodes s) as H1.
  destruct (generateOne nodes edges config rnd clientNodes s) as [s1 [|]];
    simpl in H1.
  - eapply evolves_trans; [eassumption | apply IH].
  - assumption.
Qed.

Lemma generateRequests_evolves s :
  evolves s (fst (generateRequests nodes edges config rnd s)).
Proof.
  unfold generateRequests, random.
  destruct (filter _ nodes) as [|c cs]; simpl; [apply evolves_refl|].
  eapply evolves_trans; [|apply generateLoop_evolves]. evolve.
Qed.

Lemma handleNodeProcessing_systemMetrics node request s :
  systemMetrics (handleNodeProcessing config rnd node request s) = systemMetrics s.
Proof.
  unfold handleNodeProcessing, random.
  destruct (mapGet _ _); [|reflexivity].
  destruct (type (data node)); simpl; try reflexivity.
  - destruct (Num.Qltb _ _); reflexivity.
  - destruct (Num.Qltb _ _); reflexivity.
Qed.

Lemma handleNodeProcessing_grows node request s :
  mapRel grows (nodeMetrics s)
    (nodeMetrics (handleNodeProcessing config rnd node request s)).
Proof.
  unfold handleNodeProcessing, random.
  destruct (mapGet _ _) as [metrics|] eqn:Hget;
    [|apply mapRel_refl, grows_refl].
  destruct (type (data node)); simpl;
    try (destruct (Num.Qltb _ _); simpl);
    (apply mapRel_mapSet with (v := metrics);
     [apply grows_refl | assumption | split; simpl; auto]).
Qed.

Lemma ev_handleNodeProcessing s node request x :
  evolves s x -> evolves s (handleNodeProcessing config rnd node request x).
Proof.
  intros H. eapply evolves_trans; [eassumption|].
  apply evolves_metrics; try rewrite handleNodeProcessing_systemMetrics; auto.
  apply handleNodeProcessing_grows.
Qed.

Lemma processRequest_evolves deltaTime request s :
  evolves s (snd (fst (processRequest nodes edges config rnd deltaTime request s))).
Proof.
  unfold processRequest, random.
  destruct (isTerminal _); simpl; [apply evolves_refl|].
  destruct (getNodeById nodes _) as [targetNode|]; simpl; [|evolve].
  destruct (Num.geb _ _); simpl; [|apply evolves_refl].
  destruct (Num.Qltb _ _); simpl; [evolve|].
  destruct (findNextHop edges _ _); simpl; evolve;
    apply ev_handleNodeProcessing; evolve.
Qed.

Lemma processLoop_evolves deltaTime requests s :
  evolves s (snd (processLoop nodes edges config rnd deltaTime requests s)).
Proof.
  revert s. induction requests as [|r rest IH]; intros s; simpl;
    [apply evolves_refl|].
  pose proof (processRequest_evolves deltaTime r s) as H1.
  destruct (processRequest nodes edges config rnd deltaTime r s) as [[r' s1] done].
  simpl in H1. specialize (IH s1).
  destruct (processLoop nodes edges config rnd deltaTime rest s1) as [[rest' ids] s2].
  simpl in *. eapply evolves_trans; eassumption.
Qed.

Lemma processRequests_evolves deltaTime s :
  evolves s (processRequests nodes edges config rnd deltaTime s).
Proof.
  unfold processRequests.
  pose proof (processLoop_evolves deltaTime (activeRequests s) s) as H.
  destruct (processLoop _ _ _ _ _ _ _) as [[rs ids] s1]. simpl in H.
  evolve. assumption.
Qed.

Lemma refreshSuccessRate_grows metrics : grows metrics (refreshSuccessRate metrics).
Proof.
  unfold refreshSuccessRate. destruct (0 <? throughput metrics); split; auto.
Qed.

Lemma refresh_map_grows m :
  mapRel grows m (map (fun kv => (fst kv, refreshSuccessRate (snd kv))) m).
Proof.
  induction m as [|kv m IH]; constructor; auto.
  split; [reflexivity | apply refreshSuccessRate_grows].
Qed.

Lemma updateMetrics_evolves s : evolves s (updateMetrics s).
Proof.
  unfold updateMetrics, evolves, queueTotalBounded. simpl.
  split; [|split; [|split]].
  - destruct (0 <? totalRequests (systemMetrics s)); simpl; auto.
  - apply refresh_map_grows.
  - destruct (0 <? totalRequests (systemMetrics s)) eqn:E; simpl; auto.
    intros H0. rewrite H0 in E. discriminate.
  - intros HJ.
    destruct (0 <? totalRequests (systemMetrics s)); simpl;
      (split; [apply sumQueueDepth_mono, refresh_map_grows | assumption]).
Qed.

Lemma scaleUp_spec nodeId node metrics s :
  grows metrics (fst (scaleUp nodeId node metrics s))
  /\ evolves s (snd (scaleUp nodeId node metrics s)).
Proof.
  unfold scaleUp.
  destruct (Num.gtb _ _ && (instances metrics <? 10)%Z) eqn:E; simpl.
  - apply andb_prop in E. destruct E as [_ E]. apply Z.ltb_lt in E.
    split; [|evolve].
    split; simpl; auto. unfold instancesInRange. simpl. lia.
  - split; [apply grows_refl | apply evolves_refl].
Qed.

Lemma scaleDown_spec nodeId node metrics s :
  grows metrics (fst (scaleDown nodeId node metrics s))
  /\ evolves s (snd (scaleDown nodeId node metrics s)).
Proof.
  unfold scaleDown.
  destruct (Num.ltb _ _ && (1 <? instances metrics)%Z) eqn:E; simpl.
  - apply andb_prop in E. destruct E as [_ E]. apply Z.ltb_lt in E.
    split; [|evolve].
    split; simpl; auto. unfold instancesInRange. simpl. lia.
  - split; [apply grows_refl | apply evolves_refl].
Qed.

Lemma scaleNode_spec nodeId metrics s :
  grows metrics (fst (scaleNode nodes nodeId metrics s))
  /\ evolves s (snd (scaleNode nodes nodeId metrics s)).
Proof.
  unfold scaleNode.
  destruct (getNodeById nodes nodeId) as [node|];
    [|split; [apply grows_refl | apply evolves_refl]].
  destruct (negb _); [split; [apply grows_refl | apply evolves_refl]|].
  destruct (scaleUp_spec nodeId node metrics s) as [Hg He].
  destruct (scaleUp nodeId node metrics s) as [m1 s1]. simpl in *.
  destruct (scaleDown_spec nodeId node m1 s1) as [Hg' He'].
  split; [eapply grows_trans | eapply evolves_trans]; eassumption.
Qed.

Lemma scaleLoop_spec entries s :
  mapRel grows entries (fst (scaleLoop nodes entries s))
  /\ evolves s (snd (scaleLoop nodes entries s)).
Proof.
  revert s. induction entries as [|[nodeId metrics] rest IH]; intros s; simpl.
  - split; [constructor | apply evolves_refl].
  - destruct (scaleNode_spec nodeId metrics s) as [Hg He].
    destruct (scaleNode nodes nodeId metrics s) as [m1 s1]. simpl in *.
    destruct (IH s1) as [Hg' He'].
    destruct (scaleLoop nodes rest s1) as [rest' s2]. simpl in *.
    split; [constructor; auto | eapply evolves_trans; eassumption].
Qed.

(** The scaling loop writes no entry of the map it iterates over. *)
Lemma scaleLoop_nodeMetrics entries s :
  nodeMetrics (snd (scaleLoop nodes entries s)) = nodeMetrics s.
Proof.
  revert s. induction entries as [|[nodeId metrics] rest IH]; intros s; simpl;
    [reflexivity|].
  assert (H1 : nodeMetrics (snd (scaleNode nodes nodeId metrics s)) = nodeMetrics s).
  { unfold scaleNode. destruct (getNodeById nodes nodeId); [|reflexivity].
    destruct (negb _); [reflexivity|].
    unfold scaleUp, scaleDown.
    destruct (Num.gtb _ _ && _); simpl; destruct (Num.ltb _ _ && _); reflexivity. }
  destruct (scaleNode nodes nodeId metrics s) as [m1 s1]. simpl in H1.
  specialize (IH s1). destruct (scaleLoop nodes rest s1) as [rest' s2].
  simpl in *. congruence.
Qed.

Lemma checkAutoScaling_evolves s : evolves s (checkAutoScaling nodes s).
Proof.
  unfold checkAutoScaling.
  destruct (scaleLoop_spec (nodeMetrics s) s) as [Hg He].
  pose proof (scaleLoop_nodeMetrics (nodeMetrics s) s) as Hsame.
  destruct (scaleLoop nodes (nodeMetrics s) s) as [entries s1]. simpl in *.
  destruct He as (Ht & _ & Herr & Hq).
  unfold evolves, queueTotalBounded in *. simpl.
  split; [assumption|]. split; [assumption|]. split; [assumption|].
  intros HJ. destruct (Hq HJ) as [HJ1 Hle]. split; [|assumption].
  rewrite Hsame in HJ1. apply sumQueueDepth_mono in Hg. lia.
Qed.

Lemma applyChaosEffects_evolves s :
  evolves s (fst (applyChaosEffects nodes rnd s)).
Proof.
  unfold applyChaosEffects, random.
  destruct (Num.Qltb _ _); simpl; [|evolve].
  destruct (arrayAt nodes _); simpl; evolve.
Qed.

Lemma tick_evolves s : evolves s (fst (tick nodes edges config rnd s)).
Proof.
  unfold tick.
  pose proof (generateRequests_evolves
                (set_currentTime (currentTime s + tickRate config)%Q s)) as H1.
  destruct (generateRequests _ _ _ _ _) as [s2 [|]]; simpl in H1.
  2: { simpl. eapply evolves_trans; [|eassumption]. evolve. }
  assert (H5 : evolves s
                 (if autoScaling config
                  then checkAutoScaling nodes
                         (updateMetrics
                            (processRequests nodes edges config rnd (tickRate config) s2))
                  else updateMetrics
                         (processRequests nodes edges config rnd (tickRate config) s2))).
  { eapply evolves_trans; [|destruct (autoScaling config);
                             [apply checkAutoScaling_evolves | apply evolves_refl]].
    eapply evolves_trans; [|apply updateMetrics_evolves].
    eapply evolves_trans; [|apply processRequests_evolves].
    eapply evolves_trans; [|eassumption]. evolve. }
  set (s5 := if autoScaling config then _ else _) in *.
  assert (H6 : evolves s
                 (fst (if chaosMode config
                       then applyChaosEffects nodes rnd s5 else (s5, Normal)))).
  { destruct (chaosMode config); [|assumption].
    eapply evolves_trans; [eassumption | apply applyChaosEffects_evolves]. }
  destruct (if chaosMode config then _ else _) as [s6 [|]]; simpl in *;
    [|assumption].
  destruct (isMultipleOf1000 (currentTime s6)); [|assumption].
  unfold takeMetricsSnapshot. evolve. assumption.
Qed.

Lemma call_evolves s c : evolves s (step nodes edges config rnd s c).
Proof. apply step_evolves, tick_evolves. Qed.

(** *** The request ledger *)

Lemma handleNodeProcessing_ledger node request s :
  ledger (handleNodeProcessing config rnd node request s) = ledger s.
Proof.
  unfold handleNodeProcessing, random.
  destruct (mapGet _ _); [|reflexivity].
  destruct (type (data node)); simpl; try reflexivity;
    try destruct (Num.Qltb _ _); unfold ledger; latencies; reflexivity.
Qed.

Lemma ledger_fields s s' :
  ledger s' = ledger s ->
  activeRequests s' = activeRequests s
  /\ totalRequests (systemMetrics s') = totalRequests (systemMetrics s)
  /\ successfulRequests (systemMetrics s') = successfulRequests (systemMetrics s)
  /\ failedRequests (systemMetrics s') = failedRequests (systemMetrics s)
  /\ requestIdCounter s' = requestIdCounter s
  /\ completionLatencies (events s') = completionLatencies (events s).
Proof.
  unfold ledger. intros H. injection H as H1 H2 H3 H4 H5 H6. repeat split; auto.
Qed.

Lemma inFlight_cons r l : inFlight (r :: l) = terminalWeight r + inFlight l.
Proof.
  unfold inFlight, terminalWeight. simpl.
  destruct (isTerminal (r_status r)); reflexivity.
Qed.

Lemma inFlight_app l l' : inFlight (l ++ l') = inFlight l + inFlight l'.
Proof.
  induction l as [|r l IH]; [reflexivity|].
  simpl app. rewrite !inFlight_cons, IH. lia.
Qed.

(** One request through the [forEach] callback: its id stays, it is
    reported as done exactly when it was terminal on entry, and then it is
    left as it was; the counters move with the status of the request. *)
Lemma processRequest_ledger deltaTime request s :
  let '(request', s', done) :=
    processRequest nodes edges config rnd deltaTime request s in
  r_id request' = r_id request
  /\ done = isTerminal (r_status request)
  /\ (done = true -> request' = request)
  /\ totalRequests (systemMetrics s') = totalRequests (systemMetrics s)
  /\ requestIdCounter s' = requestIdCounter s
  /\ successfulRequests (systemMetrics s') + failedRequests (systemMetrics s')
     + terminalWeight request'
     = successfulRequests (systemMetrics s) + failedRequests (systemMetrics s)
       + terminalWeight request.
Proof.
  unfold processRequest, random, terminalWeight.
  destruct (isTerminal (r_status request)) eqn:Hterm.
  { repeat split; auto. rewrite Hterm. reflexivity. }
  destruct (getNodeById nodes _) as [targetNode|].
  2: { simpl. repeat split; auto; try discriminate. lia. }
  destruct (Num.geb _ _).
  2: { simpl. rewrite Hterm. repeat split; auto; discriminate. }
  destruct (Num.Qltb _ _).
  { simpl. repeat split; auto; try discriminate. lia. }
  destruct (findNextHop edges _ _) as [nextHop|]; simpl;
    match goal with
    | |- context [handleNodeProcessing config rnd ?n ?r ?x] =>
        destruct (ledger_fields _ _ (handleNodeProcessing_ledger n r x))
          as (_ & Ht & Hs & Hf & Hc & _)
    end;
    simpl in Ht, Hs, Hf, Hc; rewrite ?Ht, ?Hs, ?Hf, ?Hc;
    repeat split; auto; try discriminate; lia.
Qed.

Lemma processLoop_ledger deltaTime requests s :
  let '(requests', ids, s') :=
    processLoop nodes edges config rnd deltaTime requests s in
  map r_id requests' = map r_id requests
  /\ totalRequests (systemMetrics s') = totalRequests (systemMetrics s)
  /\ requestIdCounter s' = requestIdCounter s
  /\ successfulRequests (systemMetrics s') + failedRequests (systemMetrics s')
     + inFlight requests'
     = successfulRequests (systemMetrics s) + failedRequests (systemMetrics s)
       + inFlight requests
  /\ (forall i, In i ids -> In i (map r_id requests))
  /\ (NoDup (map r_id requests) ->
      forall r, In r requests' -> In (r_id r) ids ->
                isTerminal (r_status r) = true).
Proof.
  revert s. induction requests as [|request rest IH]; intros s; simpl.
  - repeat split; auto; intros; contradiction.
  - pose proof (processRequest_ledger deltaTime request s) as H1.
    destruct (processRequest nodes edges config rnd deltaTime request s)
      as [[request' s1] done].
    destruct H1 as (Hid & Hdone & Hsame & Ht & Hc & Hbal).
    specialize (IH s1).
    destruct (processLoop nodes edges config rnd deltaTime rest s1)
      as [[rest' ids] s2].
    destruct IH as (Hids & Ht' & Hc' & Hbal' & Hsub & Hterm).
    rewrite !inFlight_cons.
    split; [simpl; congruence|]. split; [congruence|]. split; [congruence|].
    split; [lia|]. split.
    + intros i Hi. destruct done; [destruct Hi as [<-|Hi]|]; auto.
    + intros Hnd r Hr Hin. apply NoDup_cons_iff in Hnd.
      destruct Hnd as [Hnotin Hnd'].
      destruct Hr as [<-|Hr].
      * destruct done.
        -- rewrite Hsame by reflexivity. auto.
        -- exfalso. apply Hnotin. rewrite <- Hid. auto.
      * apply Hterm; auto.
        destruct done; [|assumption].
        destruct Hin as [Heq|Hin]; [|assumption].
        exfalso. apply Hnotin. rewrite Heq, <- Hids. apply in_map. assumption.
Qed.

Lemma inFlight_filter keep l :
  (forall r, In r l -> keep r = false -> isTerminal (r_status r) = true) ->
  inFlight (filter keep l) = inFlight l.
Proof.
  induction l as [|r l IH]; intros H; [reflexivity|].
  simpl filter. destruct (keep r) eqn:E.
  - rewrite !inFlight_cons, IH; auto. intros; apply H; simpl; auto.
  - rewrite inFlight_cons, IH by (intros; apply H; simpl; auto).
    unfold terminalWeight. rewrite (H r); simpl; auto.
Qed.

Lemma NoDup_map_filter {A B : Type} (f : A -> B) keep (l : list A) :
  NoDup (map f l) -> NoDup (map f (filter keep l)).
Proof.
  induction l as [|x l IH]; simpl; intros H; [constructor|].
  inversion H as [|y l' Hnotin Hnd]; subst.
  destruct (keep x); simpl; auto.
  constructor; auto. intros Hin. apply Hnotin.
  apply in_map_iff in Hin. destruct Hin as (z & Hz & Hin).
  apply filter_In in Hin. rewrite <- Hz. apply in_map. tauto.
Qed.

Lemma balanced_ledger s s' : ledger s' = ledger s -> balanced s -> balanced s'.
Proof.
  intros H. apply ledger_fields in H. destruct H as (Ha & Ht & Hs & Hf & Hc & _).
  unfold balanced, countsBalanced, idsFresh. rewrite Ha, Ht, Hs, Hf, Hc. auto.
Qed.

Lemma processRequests_balanced deltaTime s :
  balanced s -> balanced (processRequests nodes edges config rnd deltaTime s).
Proof.
  intros [Hbal [Hnd Hlt]]. unfold processRequests.
  pose proof (processLoop_ledger deltaTime (activeRequests s) s) as H.
  destruct (processLoop nodes edges config rnd deltaTime (activeRequests s) s)
    as [[requests ids] s1].
  destruct H as (Hids & Ht & Hc & Hsum & Hsub & Hterm).
  unfold balanced, countsBalanced, idsFresh in *. simpl.
  split.
  - rewrite inFlight_filter; [lia|].
    intros r Hr Hkeep. apply Hterm; auto.
    apply negb_false_iff in Hkeep. apply existsb_exists in Hkeep.
    destruct Hkeep as (i & Hi & Heq). apply Nat.eqb_eq in Heq. congruence.
  - split.
    + apply NoDup_map_filter. rewrite Hids. assumption.
    + apply Forall_forall. intros r Hr. apply filter_In in Hr.
      destruct Hr as [Hr _]. rewrite Hc.
      assert (Hin : In (r_id r) (map r_id (activeRequests s)))
        by (rewrite <- Hids; apply in_map; assumption).
      apply in_map_iff in Hin. destruct Hin as (r0 & Hr0 & Hin).
      rewrite Forall_forall in Hlt. rewrite <- Hr0. auto.
Qed.

Lemma generateOne_balanced clientNodes s :
  balanced s -> balanced (fst (generateOne nodes edges config rnd clientNodes s)).
Proof.
  intros Hb. unfold generateOne, random.
  destruct (arrayAt clientNodes _) as [clientNode|]; simpl;
    [|apply (balanced_ledger s); auto].
  destruct (filter _ edges) as [|e es]; simpl;
    [apply (balanced_ledger s); auto|].
  destruct (arrayAt (e :: es) _) as [targetEdge|]; simpl;
    [|apply (balanced_ledger s); auto].
  destruct Hb as [Hbal [Hnd Hlt]].
  unfold balanced, countsBalanced, idsFresh in *. simpl.
  rewrite inFlight_app, map_app. simpl. split; [unfold inFlight in *; simpl; lia|].
  split.
  - apply NoDup_app.
    + assumption.
    + constructor; [intros []|constructor].
    + intros i Hi [<-|[]]. apply in_map_iff in Hi.
      destruct Hi as (r & Hr & Hin). rewrite Forall_forall in Hlt.
      specialize (Hlt r Hin). lia.
  - apply Forall_app. split.
    + eapply Forall_impl; [|eassumption]. simpl. intros; lia.
    + constructor; [simpl; lia | constructor].
Qed.

Lemma generateLoop_balanced count clientNodes s :
  balanced s ->
  balanced (fst (generateLoop nodes edges config rnd count clientNodes s)).
Proof.
  revert s. induction count as [|k IH]; intros s Hb; simpl; [assumption|].
  pose proof (generateOne_balanced clientNodes s Hb) as H1.
  destruct (generateOne nodes edges config rnd clientNodes s) as [s1 [|]];
    simpl in H1; auto.
Qed.

Lemma generateRequests_balanced s :
  balanced s -> balanced (fst (generateRequests nodes edges config rnd s)).
Proof.
  intros Hb. unfold generateRequests, random.
  destruct (filter _ nodes) as [|c cs]; simpl; [assumption|].
  apply generateLoop_balanced. apply (balanced_ledger s); auto.
Qed.

Lemma updateMetrics_ledger s : ledger (updateMetrics s) = ledger s.
Proof.
  unfold updateMetrics, ledger. simpl.
  destruct (0 <? totalRequests (systemMetrics s)); reflexivity.
Qed.

Lemma scaleNode_ledger nodeId metrics s :
  ledger (snd (scaleNode nodes nodeId metrics s)) = ledger s.
Proof.
  unfold scaleNode. destruct (getNodeById nodes nodeId); [|reflexivity].
  destruct (negb _); [reflexivity|].
  unfold scaleUp, scaleDown.
  destruct (Num.gtb _ _ && _); simpl; destruct (Num.ltb _ _ && _);
    unfold ledger; latencies; reflexivity.
Qed.

Lemma scaleLoop_ledger entries s :
  ledger (snd (scaleLoop nodes entries s)) = ledger s.
Proof.
  revert s. induction entries as [|[nodeId metrics] rest IH]; intros s; simpl;
    [reflexivity|].
  pose proof (scaleNode_ledger nodeId metrics s) as H1.
  destruct (scaleNode nodes nodeId metrics s) as [m1 s1]. simpl in H1.
  specialize (IH s1). destruct (scaleLoop nodes rest s1) as [rest' s2].
  simpl in *. congruence.
Qed.

Lemma checkAutoScaling_ledger s : ledger (checkAutoScaling nodes s) = ledger s.
Proof.
  unfold checkAutoScaling.
  pose proof (scaleLoop_ledger (nodeMetrics s) s) as H.
  destruct (scaleLoop nodes (nodeMetrics s) s) as [entries s1]. exact H.
Qed.

Lemma applyChaosEffects_ledger s :
  ledger (fst (applyChaosEffects nodes rnd s)) = ledger s.
Proof.
  unfold applyChaosEffects, random.
  destruct (Num.Qltb _ _); simpl; [|reflexivity].
  destruct (arrayAt nodes _); unfold ledger; latencies; reflexivity.
Qed.

(** What follows request processing in a tick leaves the ledger alone. *)
Lemma tick_tail_ledger s :
  let s4 := updateMetrics s in
  let s5 := if autoScaling config then checkAutoScaling nodes s4 else s4 in
  let r := if chaosMode config then applyChaosEffects nodes rnd s5
           else (s5, Normal) in
  ledger (fst (match r with
               | (s6, Thrown) => (s6, Thrown)
               | (s6, Normal) =>
                   (if isMultipleOf1000 (currentTime s6)
                    then takeMetricsSnapshot s6 else s6, Normal)
               end)) = ledger s.
Proof.
  intros s4 s5 r.
  assert (H5 : ledger s5 = ledger s).
  { subst s5 s4. destruct (autoScaling config);
      [rewrite checkAutoScaling_ledger|]; apply updateMetrics_ledger. }
  assert (H6 : ledger (fst r) = ledger s).
  { subst r. destruct (chaosMode config); [|assumption].
    rewrite applyChaosEffects_ledger. assumption. }
  destruct r as [s6 [|]]; simpl in *; [|assumption].
  destruct (isMultipleOf1000 (currentTime s6)); assumption.
Qed.

Lemma tick_balanced s :
  balanced s -> balanced (fst (tick nodes edges config rnd s)).
Proof.
  intros Hb. unfold tick.
  assert (H1 : balanced (set_currentTime (currentTime s + tickRate config)%Q s))
    by (apply (balanced_ledger s); auto).
  apply generateRequests_balanced in H1.
  destruct (generateRequests _ _ _ _ _) as [s2 [|]]; simpl in H1; [|assumption].
  apply (processRequests_balanced (tickRate config)) in H1.
  eapply balanced_ledger; [|eassumption].
  apply tick_tail_ledger.
Qed.

Lemma balanced_core s s' : core s' = core s -> balanced s -> balanced s'.
Proof.
  intros H. apply balanced_ledger. unfold core in H. unfold ledger.
  injection H as Ha _ Hs Hc _ Hl. rewrite Ha, Hs, Hc, Hl. reflexivity.
Qed.

Lemma run_balanced calls : balanced (run nodes edges config rnd calls).
Proof.
  apply run_invariant.
  - apply balanced_core.
  - unfold balanced, countsBalanced, idsFresh. simpl.
    repeat split; constructor.
  - apply tick_balanced.
Qed.

(** C2.  At every point of every run the successful and the failed requests
    together never exceed the total, and the two sides are equal whenever
    no request is active, in particular once the run has completed with an
    empty active set. *)
Theorem request_counters_balance calls :
  let s := run nodes edges config rnd calls in
  successfulRequests (systemMetrics s) + failedRequests (systemMetrics s)
  <= totalRequests (systemMetrics s)
  /\ (activeRequests s = [] ->
      successfulRequests (systemMetrics s) + failedRequests (systemMetrics s)
      = totalRequests (systemMetrics s)).
Proof.
  destruct (run_balanced calls) as [Hbal _]. unfold countsBalanced in Hbal.
  simpl. split; [lia|]. intros Hempty. rewrite Hempty in Hbal.
  unfold inFlight in Hbal. simpl in Hbal. lia.
Qed.

(** *** Instances *)

Lemma mapGet_mapSet_same k v m : mapGet k (mapSet k v m) = Some v.
Proof.
  induction m as [|[k0 v0] m IH]; simpl.
  - rewrite String.eqb_refl. reflexivity.
  - destruct (String.eqb k0 k) eqn:E; simpl; rewrite E; auto.
Qed.

Lemma mapGet_mapSet_other k k' v m :
  k <> k' -> mapGet k (mapSet k' v m) = mapGet k m.
Proof.
  intros Hne. induction m as [|[k0 v0] m IH]; simpl.
  - destruct (String.eqb k' k) eqn:E; [|reflexivity].
    apply String.eqb_eq in E. congruence.
  - destruct (String.eqb k0 k') eqn:E; simpl.
    + apply String.eqb_eq in E. subst k0.
      destruct (String.eqb k' k) eqn:E'; [|reflexivity].
      apply String.eqb_eq in E'. congruence.
    + rewrite IH. reflexivity.
Qed.

Lemma Forall_mapSet (P : NodeMetrics -> Prop) k v m :
  Forall (fun kv => P (snd kv)) m -> P v ->
  Forall (fun kv => P (snd kv)) (mapSet k v m).
Proof.
  intros Hm Hv. induction Hm as [|[k0 v0] m H0 Hm IH]; simpl.
  - constructor; auto.
  - destruct (String.eqb k0 k); constructor; auto.
Qed.

Lemma mapGet_Forall (P : NodeMetrics -> Prop) k v m :
  Forall (fun kv => P (snd kv)) m -> mapGet k m = Some v -> P v.
Proof.
  induction 1 as [|[k0 v0] m H0 Hm IH]; simpl; [discriminate|].
  destruct (String.eqb k0 k); [intros [= <-]; assumption | assumption].
Qed.

Lemma mapRel_mapGet R m m' k v :
  mapRel R m m' -> mapGet k m = Some v ->
  exists v', mapGet k m' = Some v' /\ R v v'.
Proof.
  induction 1 as [|[k0 v0] [k1 v1] l l' [Hk HR] _ IH]; simpl; [discriminate|].
  simpl in Hk. subst k1. destruct (String.eqb k0 k).
  - intros [= <-]. eauto.
  - assumption.
Qed.

(** The constructor gives every node an entry with one instance. *)
Lemma initial_metrics_acc (l : list SystemNode) acc :
  Forall (fun kv => instancesInRange (snd kv)) acc ->
  let m := fold_left
             (fun m node => mapSet (n_id node) (initialNodeMetrics config node) m)
             l acc in
  Forall (fun kv => instancesInRange (snd kv)) m
  /\ (forall k, (mapGet k acc <> None \/ In k (map n_id l)) -> mapGet k m <> None).
Proof.
  revert acc. induction l as [|node l IH]; intros acc Hacc; simpl.
  - split; [assumption|]. intros k [H|[]]. assumption.
  - assert (Hacc' : Forall (fun kv => instancesInRange (snd kv))
                      (mapSet (n_id node) (initialNodeMetrics config node) acc)).
    { apply Forall_mapSet; [assumption|]. unfold instancesInRange. simpl. lia. }
    destruct (IH _ Hacc') as [H1 H2].
    split; [assumption|]. intros k Hk. apply H2.
    destruct (string_dec k (n_id node)) as [->|Hne].
    + left. rewrite mapGet_mapSet_same. discriminate.
    + rewrite mapGet_mapSet_other by assumption.
      destruct Hk as [Hk|[Hk|Hk]]; auto; congruence.
Qed.

Lemma evolves_instancesKept s s' :
  evolves s s' -> instancesKept nodes s -> instancesKept nodes s'.
Proof.
  intros (_ & Hm & _) [HF Hk]. split.
  - eapply mapRel_instances; eassumption.
  - intros node Hin. specialize (Hk node Hin).
    destruct (mapGet (n_id node) (nodeMetrics s)) as [v|] eqn:E; [|congruence].
    destruct (mapRel_mapGet _ _ _ _ _ Hm E) as (v' & Hv' & _). congruence.
Qed.

Lemma run_instancesKept calls : instancesKept nodes (run nodes edges config rnd calls).
Proof.
  unfold run.
  assert (H0 : instancesKept nodes (initializeState nodes config)).
  { destruct (initial_metrics_acc nodes [] (Forall_nil _)) as [H1 H2].
    split; [exact H1|]. intros node Hin. apply H2. right. apply in_map. assumption. }
  revert H0. generalize (initializeState nodes config).
  induction calls as [|c calls IH]; intros s Hs; simpl; [assumption|].
  apply IH. eapply evolves_instancesKept; [apply call_evolves | assumption].
Qed.

(** C5.  Throughout any run, every node of the graph, and so every SERVICE
    node under auto-scaling, has a metrics entry whose instance count lies
    in [[1, 10]]; the scale-up branch never takes a count in that range
    above 10 and the scale-down branch never takes it below 1. *)
Theorem instances_stay_in_range calls :
  (forall node, In node nodes ->
     exists metrics,
       mapGet (n_id node) (nodeMetrics (run nodes edges config rnd calls))
       = Some metrics
       /\ (1 <= instances metrics <= 10)%Z)
  /\ (forall nodeId node metrics s,
        (1 <= instances metrics <= 10)%Z ->
        (instances (fst (scaleUp nodeId node metrics s)) <= 10)%Z
        /\ (1 <= instances (fst (scaleDown nodeId node metrics s)))%Z).
Proof.
  split.
  - intros node Hin. destruct (run_instancesKept calls) as [HF Hk].
    specialize (Hk node Hin).
    destruct (mapGet _ _) as [metrics|] eqn:E; [|congruence].
    exists metrics. split; [reflexivity|].
    exact (mapGet_Forall instancesInRange _ _ _ HF E).
  - intros nodeId node metrics s Hr. split.
    + destruct (scaleUp_spec nodeId node metrics s) as [[_ H] _]. apply H, Hr.
    + destruct (scaleDown_spec nodeId node metrics s) as [[_ H] _]. apply H, Hr.
Qed.

(** *** Queue depth *)

Lemma run_queueTotalBounded calls :
  queueTotalBounded (run nodes edges config rnd calls).
Proof.
  unfold run.
  assert (H0 : queueTotalBounded (initializeState nodes config))
    by (unfold queueTotalBounded; simpl; lia).
  revert H0. generalize (initializeState nodes config).
  induction calls as [|c calls IH]; intros s Hs; simpl; [assumption|].
  apply IH. destruct (call_evolves s c) as (_ & _ & _ & H). apply H, Hs.
Qed.

Lemma backlog_on_traversal node request metrics s :
  type (data node) = QUEUE ->
  mapGet (n_id node) (nodeMetrics s) = Some metrics ->
  (messageQueueDepth config * (8 # 10) < inject_Z (Z.of_nat (queueDepth metrics)))%Q ->
  events (handleNodeProcessing config rnd node request s)
  = events s
    ++ [mkEvent (eventIdCounter s) QUEUE_ENQUEUE (currentTime s)
          (Some (n_id node)) None None
          (MsgEnqueued (S (queueDepth metrics))) info;
        mkEvent (S (eventIdCounter s)) BACKLOG_WARNING (currentTime s)
          (Some (n_id node)) None None
          (MsgBacklog (S (queueDepth metrics)) (messageQueueDepth config))
          warning].
Proof.
  intros Hty Hget Hlt. unfold handleNodeProcessing. rewrite Hget, Hty.
  cbn -[Num.Qltb Z.of_nat].
  assert (E : Num.Qltb (messageQueueDepth config * (8 # 10))
                (inject_Z (Z.of_nat (S (queueDepth metrics)))) = true).
  { unfold Num.Qltb. apply negb_true_iff.
    destruct (Qle_bool _ _) eqn:E; [|reflexivity].
    apply Qle_bool_iff in E. exfalso.
    apply (Qlt_irrefl (messageQueueDepth config * (8 # 10))).
    eapply Qlt_le_trans; [exact Hlt|].
    eapply Qle_trans; [|exact E].
    rewrite <- Zle_Qle. lia. }
  rewrite E. simpl. rewrite <- app_assoc. reflexivity.
Qed.

(** C9.  Every call leaves the keys of the metrics map as they are and no
    queue depth smaller, so the recorded total queue depth never decreases;
    a queue that is over 80% of [messageQueueDepth] stays over it, and each
    traversal of such a queue, that is each call of [handleNodeProcessing]
    for it, appends a BACKLOG_WARNING. *)
Theorem queue_depth_never_decreases calls c :
  let s := run nodes edges config rnd calls in
  let s' := step nodes edges config rnd s c in
  queuesGrow (nodeMetrics s) (nodeMetrics s')
  /\ totalQueueDepth (systemMetrics s) <= totalQueueDepth (systemMetrics s')
  /\ (forall k metrics,
        mapGet k (nodeMetrics s) = Some metrics ->
        (messageQueueDepth config * (8 # 10)
         < inject_Z (Z.of_nat (queueDepth metrics)))%Q ->
        exists metrics',
          mapGet k (nodeMetrics s') = Some metrics'
          /\ (messageQueueDepth config * (8 # 10)
              < inject_Z (Z.of_nat (queueDepth metrics')))%Q)
  /\ (forall node request metrics x,
        type (data node) = QUEUE ->
        mapGet (n_id node) (nodeMetrics x) = Some metrics ->
        (messageQueueDepth config * (8 # 10)
         < inject_Z (Z.of_nat (queueDepth metrics)))%Q ->
        filter isBacklogWarning
          (events (handleNodeProcessing config rnd node request x))
        = filter isBacklogWarning (events x)
          ++ [mkEvent (S (eventIdCounter x)) BACKLOG_WARNING (currentTime x)
                (Some (n_id node)) None None
                (MsgBacklog (S (queueDepth metrics)) (messageQueueDepth config))
                warning]).
Proof.
  intros s s'. destruct (call_evolves s c) as (_ & Hm & _ & Hq).
  destruct (Hq (run_queueTotalBounded calls)) as [_ Hle].
  split; [apply mapRel_queuesGrow, Hm|]. split; [exact Hle|]. split.
  - intros k metrics Hget Hlt.
    destruct (mapRel_mapGet _ _ _ _ _ Hm Hget) as (metrics' & Hget' & [Hgrow _]).
    exists metrics'. split; [assumption|].
    eapply Qlt_le_trans; [exact Hlt|]. rewrite <- Zle_Qle. lia.
  - intros node request metrics x Hty Hget Hlt.
    rewrite (backlog_on_traversal node request metrics x Hty Hget Hlt).
    rewrite filter_app. reflexivity.
Qed.

(** *** The unguarded summary *)

Lemma run_errorRateGuarded calls :
  errorRateGuarded (run nodes edges config rnd calls).
Proof.
  unfold run.
  assert (H0 : errorRateGuarded (initializeState nodes config))
    by (intros _; reflexivity).
  revert H0. generalize (initializeState nodes config).
  induction calls as [|c calls IH]; intros s Hs; simpl; [assumption|].
  apply IH. destruct (call_evolves s c) as (Ht & _ & He & _).
  intros H0. rewrite He by assumption. apply Hs. lia.
Qed.

(** C10.  [getResult] is a total function of the engine.  Its success rate
    is the plain quotient of the two counters: whenever no request was
    generated it is [0/0], that is NaN, while the system error rate is
    still the guarded [0]; and while no snapshot was taken the peak is the
    maximum of no arguments, [-Infinity]. *)
Theorem summary_is_unguarded calls :
  let s := run nodes edges config rnd calls in
  sm_successRate (summary (getResult nodes config s))
  = Num.div (Num.ofNat (successfulRequests (systemMetrics s)))
      (Num.ofNat (totalRequests (systemMetrics s)))
  /\ (totalRequests (systemMetrics s) = 0 ->
      sm_successRate (summary (getResult nodes config s)) = Num.NaN
      /\ s_errorRate (systemMetrics s) = Num.Fin 0)
  /\ (metricsHistory s = [] ->
      peakRPS (summary (getResult nodes config s)) = Num.NInf).
Proof.
  intros s. split; [reflexivity|]. split.
  - intros H0. split; [|apply run_errorRateGuarded, H0].
    destruct (run_balanced calls) as [Hbal _]. unfold countsBalanced in Hbal.
    fold s in Hbal. simpl.
    assert (Hs : successfulRequests (systemMetrics s) = 0) by lia.
    rewrite H0, Hs. reflexivity.
  - intros Hh. simpl. rewrite Hh. reflexivity.
Qed.

(** *** Runs that generate nothing *)

Lemma Qfloor_unit (q : Q) : (0 <= q)%Q -> (q < 1)%Q -> Qfloor q = 0%Z.
Proof.
  intros H0 H1.
  pose proof (Qfloor_le q) as Hle. pose proof (Qlt_floor q) as Hlt.
  assert (Ha : (Qfloor q < 1)%Z).
  { rewrite Zlt_Qlt. eapply Qle_lt_trans; eassumption. }
  assert (Hb : (0 < Qfloor q + 1)%Z).
  { rewrite Zlt_Qlt. eapply Qle_lt_trans; eassumption. }
  lia.
Qed.

Lemma untouched_refresh metrics : untouched metrics -> untouched (refreshSuccessRate metrics).
Proof.
  unfold refreshSuccessRate. destruct (0 <? throughput metrics); auto.
Qed.

Lemma scaleNode_untouched nodeId metrics s :
  untouched metrics -> scaleNode nodes nodeId metrics s = (metrics, s).
Proof.
  intros (Hcpu & _ & _ & _ & Hi). unfold scaleNode.
  destruct (getNodeById nodes nodeId); [|reflexivity].
  destruct (negb _); [reflexivity|].
  unfold scaleUp. rewrite Hcpu. simpl.
  unfold scaleDown. rewrite Hcpu, Hi. reflexivity.
Qed.

Lemma scaleLoop_untouched entries s :
  Forall (fun kv => untouched (snd kv)) entries ->
  scaleLoop nodes entries s = (entries, s).
Proof.
  induction 1 as [|[nodeId metrics] rest H0 _ IH]; simpl; [reflexivity|].
  rewrite (scaleNode_untouched nodeId metrics s H0), IH. reflexivity.
Qed.

Lemma quiet_core s s' : core s' = core s -> quiet s -> quiet s'.
Proof.
  unfold core, quiet. intros H. injection H as Ha Hm Hs _ _ _.
  rewrite Ha, Hm, Hs. auto.
Qed.

Lemma tick_quiet s :
  (requestsPerSecond config == 0)%Q -> unitInterval rnd ->
  quiet s -> quiet (fst (tick nodes edges config rnd s)).
Proof.
  intros Hrps Hrnd (Ha & Ht & Hm). unfold tick.
  assert (Hgen : exists s2,
             generateRequests nodes edges config rnd
               (set_currentTime (currentTime s + tickRate config)%Q s)
             = (s2, Normal)
             /\ quiet s2).
  { unfold generateRequests, random.
    destruct (filter _ nodes) as [|cl cls]; [eexists; split; [reflexivity|]|].
    - repeat split; assumption.
    - cbn -[Qfloor Qplus Qmult Qdiv Z.to_nat].
      assert (Hz : Qfloor
                     (requestsPerSecond config * tickRate config / 1000
                      + rnd (randomCalls s)) = 0%Z).
      { destruct (Hrnd (randomCalls s)) as [H0 H1].
        apply Qfloor_unit.
        - rewrite Hrps. setoid_replace (0 * tickRate config / 1000)%Q with 0%Q
            by (unfold Qdiv; ring).
          rewrite Qplus_0_l. assumption.
        - rewrite Hrps. setoid_replace (0 * tickRate config / 1000)%Q with 0%Q
            by (unfold Qdiv; ring).
          rewrite Qplus_0_l. assumption. }
      rewrite Hz. simpl. eexists; split; [reflexivity|].
      repeat split; assumption. }
  destruct Hgen as (s2 & -> & Ha2 & Ht2 & Hm2).
  assert (H3 : processRequests nodes edges config rnd (tickRate config) s2
               = set_activeRequests [] s2).
  { unfold processRequests. rewrite Ha2. reflexivity. }
  rewrite H3.
  assert (H4 : quiet (updateMetrics (set_activeRequests [] s2))).
  { unfold quiet, updateMetrics. simpl. rewrite Ht2. simpl.
    repeat split; auto.
    apply Forall_map. eapply Forall_impl; [|exact Hm2].
    intros kv. simpl. apply untouched_refresh. }
  set (s4 := updateMetrics _) in *.
  assert (H5 : quiet (if autoScaling config then checkAutoScaling nodes s4 else s4)).
  { destruct (autoScaling config); [|assumption].
    unfold checkAutoScaling. destruct H4 as (Ha4 & Ht4 & Hm4).
    rewrite (scaleLoop_untouched _ s4 Hm4). repeat split; assumption. }
  set (s5 := if autoScaling config then _ else _) in *.
  assert (H6 : quiet (fst (if chaosMode config
                           then applyChaosEffects nodes rnd s5 else (s5, Normal)))).
  { destruct (chaosMode config); [|assumption].
    unfold applyChaosEffects, random.
    destruct (Num.Qltb _ _); simpl; [|exact H5].
    destruct (arrayAt nodes _); exact H5. }
  destruct (if chaosMode config then _ else _) as [s6 [|]]; simpl in *;
    [|assumption].
  destruct (isMultipleOf1000 (currentTime s6)); assumption.
Qed.

Lemma run_quiet calls :
  (requestsPerSecond config == 0)%Q -> unitInterval rnd ->
  quiet (run nodes edges config rnd calls).
Proof.
  intros Hrps Hrnd. apply run_invariant.
  - apply quiet_core.
  - unfold quiet. simpl. repeat split.
    generalize (@nil (string * NodeMetrics))
      (Forall_nil (fun kv : string * NodeMetrics => untouched (snd kv))).
    induction nodes as [|node l IH]; intros acc Hacc; simpl; [assumption|].
    apply IH. apply Forall_mapSet; [assumption|]. repeat split.
  - intros s. apply tick_quiet; assumption.
Qed.

Lemma diagnose_untouched metrics :
  (0 <= messageQueueDepth config)%Q -> untouched metrics ->
  diagnose config metrics = ([], low, []).
Proof.
  intros Hq (Hcpu & Herr & Hd & _). unfold diagnose.
  rewrite Hcpu, Herr, Hd. simpl.
  assert (E : Num.Qltb (messageQueueDepth config * (8 # 10)) (inject_Z 0) = false).
  { unfold Num.Qltb. apply negb_false_iff. apply Qle_bool_iff.
    change (inject_Z 0) with 0%Q.
    apply Qmult_le_0_compat; [assumption | discriminate]. }
  simpl in E. rewrite E. reflexivity.
Qed.

Lemma collectBottlenecks_untouched entries :
  (0 <= messageQueueDepth config)%Q ->
  Forall (fun kv => untouched (snd kv)) entries ->
  collectBottlenecks nodes config entries = [].
Proof.
  intros Hq. induction 1 as [|[nodeId metrics] rest H0 _ IH]; simpl;
    [reflexivity|].
  unfold analyzeNode. destruct (getNodeById nodes nodeId); [|assumption].
  rewrite (diagnose_untouched metrics Hq H0). assumption.
Qed.

(** C7, amended.  With [requestsPerSecond = 0] (and a queue capacity that is
    not negative) no request is ever generated and no node is reported as a
    bottleneck; the recommendations are the positive message followed by
    the advice to add a cache when the graph has none and the advice to add
    a load balancer when it has none, so the positive message stands alone
    exactly for graphs that have both. *)
Theorem idle_run_reports_no_bottleneck calls :
  (requestsPerSecond config == 0)%Q ->
  unitInterval rnd ->
  (0 <= messageQueueDepth config)%Q ->
  let s := run nodes edges config rnd calls in
  totalRequests (systemMetrics s) = 0
  /\ activeRequests s = []
  /\ bottlenecks (summary (getResult nodes config s)) = []
  /\ recommendations (summary (getResult nodes config s))
     = "System is performing well under current load"%string
       :: cacheAdvice nodes ++ balancerAdvice nodes
  /\ (hasType nodes CACHE = true -> hasType nodes LOAD_BALANCER = true ->
      recommendations (summary (getResult nodes config s))
      = ["System is performing well under current load"%string]).
Proof.
  intros Hrps Hrnd Hq s.
  destruct (run_quiet calls Hrps Hrnd) as (Ha & Ht & Hm). fold s in Ha, Ht, Hm.
  assert (Hb : analyzeBottlenecks nodes config s = []).
  { unfold analyzeBottlenecks.
    rewrite (collectBottlenecks_untouched _ Hq Hm). reflexivity. }
  assert (Hr : recommendations (summary (getResult nodes config s))
               = "System is performing well under current load"%string
                 :: cacheAdvice nodes ++ balancerAdvice nodes).
  { simpl. rewrite Hb. unfold generateRecommendations, cacheAdvice, balancerAdvice, hasType.
    simpl.
    destruct (existsb (fun n => NodeType_eqb (type (data n)) CACHE) nodes);
      destruct (existsb (fun n => NodeType_eqb (type (data n)) LOAD_BALANCER) nodes);
      reflexivity. }
  repeat split; try assumption.
  intros Hc Hl. rewrite Hr. unfold cacheAdvice, balancerAdvice.
  rewrite Hc, Hl. reflexivity.
Qed.

(** *** Routing *)

Lemma includes_In p x : includes p x = true <-> In x p.
Proof.
  unfold includes. rewrite existsb_exists. split.
  - intros (y & Hy & E). apply String.eqb_eq in E. subst. assumption.
  - intros H. exists x. split; [assumption | apply String.eqb_refl].
Qed.

(** The next hop is the target of an edge that leaves the current node and
    is not on the path of the request. *)
Lemma findNextHop_unvisited currentNodeId request nextHop :
  findNextHop edges currentNodeId request = Some nextHop ->
  In (mkEdge currentNodeId nextHop) edges /\ ~ In nextHop (path request).
Proof.
  unfold findNextHop.
  destruct (filter _ (filter _ edges)) as [|e es] eqn:E; [discriminate|].
  intros [= <-].
  assert (Hin : In e (filter
                        (fun e => negb (includes (path request) (target e)))
                        (filter (fun e => String.eqb (source e) currentNodeId) edges)))
    by (rewrite E; left; reflexivity).
  apply filter_In in Hin. destruct Hin as [Hin Hun].
  apply filter_In in Hin. destruct Hin as [Hin Hsrc].
  apply String.eqb_eq in Hsrc. split.
  - destruct e as [src tgt]. simpl in *. subst src. assumption.
  - intros Hvisited. apply includes_In in Hvisited.
    rewrite Hvisited in Hun. discriminate.
Qed.

Lemma getNodeById_In nodeId node :
  getNodeById nodes nodeId = Some node -> In nodeId (map n_id nodes).
Proof.
  unfold getNodeById. intros H. apply find_some in H. destruct H as [Hin E].
  apply String.eqb_eq in E. subst nodeId. apply in_map. assumption.
Qed.

Lemma arrayAt_In {A : Type} (l : list A) i x : arrayAt l i = Some x -> In x l.
Proof.
  unfold arrayAt. destruct (i <? 0)%Z; [discriminate|]. apply nth_error_In.
Qed.

Section NoSelfLoop.

(** No client has an edge to itself. *)
Hypothesis noSelfLoop :
  forall e n,
    In e edges -> In n nodes -> type (data n) = CLIENT ->
    source e = n_id n -> target e <> n_id n.

Lemma processRequest_pathFresh deltaTime request s :
  pathFresh nodes request ->
  pathFresh nodes (fst (fst (processRequest nodes edges config rnd deltaTime request s))).
Proof.
  intros (Hnd & Hnodes & Htarget). unfold processRequest, random.
  destruct (isTerminal (r_status request)) eqn:Hterm.
  { repeat split; try assumption. simpl. rewrite Hterm. discriminate. }
  destruct (getNodeById nodes _) as [targetNode|] eqn:Hfound.
  2: { repeat split; try assumption. discriminate. }
  destruct (Num.geb _ _).
  2: { repeat split; try assumption. simpl. rewrite Hterm. assumption. }
  assert (Hnd' : NoDup (path request ++ [targetNodeId request])).
  { apply NoDup_app; [assumption | constructor; [intros []|constructor] |].
    intros x Hx [<-|[]]. apply Htarget; auto. }
  assert (Hnodes' : incl (path request ++ [targetNodeId request]) (map n_id nodes)).
  { apply incl_app; [assumption|]. intros x [<-|[]].
    eapply getNodeById_In; eassumption. }
  destruct (Num.Qltb _ _).
  { repeat split; try assumption. discriminate. }
  destruct (findNextHop edges _ _) as [nextHop|] eqn:Hnext.
  - apply findNextHop_unvisited in Hnext. destruct Hnext as [_ Hnew].
    repeat split; try assumption. intros _. exact Hnew.
  - repeat split; try assumption. discriminate.
Qed.

Lemma processLoop_pathFresh deltaTime requests s :
  Forall (pathFresh nodes) requests ->
  Forall (pathFresh nodes)
    (fst (fst (processLoop nodes edges config rnd deltaTime requests s))).
Proof.
  revert s. induction requests as [|request rest IH]; intros s Hall; simpl;
    [constructor|].
  apply Forall_cons_iff in Hall. destruct Hall as [Hr Hrest].
  pose proof (processRequest_pathFresh deltaTime request s Hr) as H1.
  destruct (processRequest _ _ _ _ _ _ _) as [[request' s1] done].
  specialize (IH s1 Hrest).
  destruct (processLoop _ _ _ _ _ _ _) as [[rest' ids] s2].
  simpl in *. constructor; assumption.
Qed.

Lemma generateOne_pathFresh clientNodes s :
  Forall (fun n => In n nodes /\ type (data n) = CLIENT) clientNodes ->
  allPathsFresh nodes s ->
  allPathsFresh nodes (fst (generateOne nodes edges config rnd clientNodes s)).
Proof.
  intros Hclients Hall. unfold generateOne, random.
  destruct (arrayAt clientNodes _) as [clientNode|] eqn:Hc; [|exact Hall].
  destruct (filter _ edges) as [|e es] eqn:E; [exact Hall|].
  destruct (arrayAt (e :: es) _) as [targetEdge|] eqn:Ht; [|exact Hall].
  unfold allPathsFresh. simpl. apply Forall_app. split; [exact Hall|].
  constructor; [|constructor]. split; [|split]; simpl.
  - constructor; [intros []|constructor].
  - intros x [<-|[]]. apply in_map.
    apply arrayAt_In in Hc. rewrite Forall_forall in Hclients.
    apply (Hclients clientNode Hc).
  - intros _ [Heq|[]].
    apply arrayAt_In in Ht. rewrite <- E in Ht.
    apply filter_In in Ht. destruct Ht as [Hin Hsrc].
    apply String.eqb_eq in Hsrc.
    apply arrayAt_In in Hc. rewrite Forall_forall in Hclients.
    destruct (Hclients clientNode Hc) as [Hnode Hclient].
    apply (noSelfLoop targetEdge clientNode Hin Hnode Hclient Hsrc).
    symmetry. exact Heq.
Qed.

Lemma generateLoop_pathFresh count clientNodes s :
  Forall (fun n => In n nodes /\ type (data n) = CLIENT) clientNodes ->
  allPathsFresh nodes s ->
  allPathsFresh nodes (fst (generateLoop nodes edges config rnd count clientNodes s)).
Proof.
  intros Hclients. revert s.
  induction count as [|k IH]; intros s Hall; simpl; [assumption|].
  pose proof (generateOne_pathFresh clientNodes s Hclients Hall) as H1.
  destruct (generateOne _ _ _ _ _ _) as [s1 [|]]; simpl in H1; auto.
Qed.

Lemma allPathsFresh_ledger s s' :
  ledger s' = ledger s -> allPathsFresh nodes s -> allPathsFresh nodes s'.
Proof.
  intros H. apply ledger_fields in H. destruct H as [Ha _].
  unfold allPathsFresh. rewrite Ha. auto.
Qed.

Lemma tick_pathFresh s :
  allPathsFresh nodes s -> allPathsFresh nodes (fst (tick nodes edges config rnd s)).
Proof.
  intros Hall. unfold tick.
  assert (H1 : allPathsFresh nodes
                 (fst (generateRequests nodes edges config rnd
                         (set_currentTime (currentTime s + tickRate config)%Q s)))).
  { unfold generateRequests, random.
    destruct (filter _ nodes) as [|x xs] eqn:E; [exact Hall|].
    apply generateLoop_pathFresh; [|exact Hall].
    rewrite <- E. apply Forall_forall. intros n Hn. apply filter_In in Hn.
    destruct Hn as [Hin Hty]. split; [exact Hin|].
    unfold NodeType_eqb in Hty.
    destruct (NodeType_eq_dec (type (data n)) CLIENT); [assumption | discriminate]. }
  destruct (generateRequests _ _ _ _ _) as [s2 [|]]; simpl in H1; [|assumption].
  eapply allPathsFresh_ledger; [apply tick_tail_ledger|].
  unfold processRequests.
  pose proof (processLoop_pathFresh (tickRate config) (activeRequests s2) s2 H1) as H.
  destruct (processLoop _ _ _ _ _ _ _) as [[requests ids] s3].
  unfold allPathsFresh. simpl in *.
  apply Forall_forall. intros r Hr. apply filter_In in Hr.
  rewrite Forall_forall in H. apply H. tauto.
Qed.

(** Routing over a graph in which no client has an edge to itself: no
    active request ever has a node twice on its path, and so no path is
    longer than the number of distinct node ids. *)
Lemma paths_never_revisit calls :
  Forall (fun r =>
            NoDup (path r)
            /\ length (path r) <= length (nodup string_dec (map n_id nodes)))
    (activeRequests (run nodes edges config rnd calls)).
Proof.
  assert (H : allPathsFresh nodes (run nodes edges config rnd calls)).
  { apply run_invariant.
    - intros s s' Hc. unfold core in Hc. injection Hc as Ha _ _ _ _ _.
      unfold allPathsFresh. rewrite Ha. auto.
    - constructor.
    - apply tick_pathFresh. }
  eapply Forall_impl; [|exact H]. intros r (Hnd & Hnodes & _).
  split; [exact Hnd|]. apply NoDup_incl_length; [exact Hnd|].
  intros x Hx. apply nodup_In, Hnodes, Hx.
Qed.

End NoSelfLoop.

End Properties.

(** ** One client in front of one database *)

Section DirectDatabase.

Variable config : SimulationConfig.
Variable rnd : nat -> Q.
Variables c d lc ld : string.

Hypothesis distinct : c <> d.
Hypothesis noErrors : errorRate config = 0%Q.
Hypothesis dbLatency40 : dbLatency config = 40%Q.
Hypothesis tickRate100 : tickRate config = 100%Q.
Hypothesis noEntry : network config CLIENT DATABASE = None.
Hypothesis draws : unitInterval rnd.

Lemma arrayAt_singleton {A : Type} (x y : A) i : arrayAt [x] i = Some y -> y = x.
Proof.
  unfold arrayAt. destruct (i <? 0)%Z; [discriminate|].
  destruct (Z.to_nat i) as [|[|n]]; simpl; congruence.
Qed.

Lemma eqb_c_d : String.eqb c d = false.
Proof. apply String.eqb_neq. exact distinct. Qed.

Lemma getNodeById_database :
  getNodeById (directNodes c d lc ld) d = Some (mkNode d (mkData ld DATABASE)).
Proof.
  unfold getNodeById. simpl. rewrite eqb_c_d, String.eqb_refl. reflexivity.
Qed.

Lemma getNodeById_client :
  getNodeById (directNodes c d lc ld) c = Some (mkNode c (mkData lc CLIENT)).
Proof. unfold getNodeById. simpl. rewrite String.eqb_refl. reflexivity. Qed.

Lemma findNextHop_database request : findNextHop (directEdges c d) d request = None.
Proof. unfold findNextHop. simpl. rewrite eqb_c_d. reflexivity. Qed.

Lemma handleNodeProcessing_currentTime node request s :
  currentTime (handleNodeProcessing config rnd node request s) = currentTime s.
Proof.
  unfold handleNodeProcessing, random.
  destruct (mapGet _ _); [|reflexivity].
  destruct (type (data node)); simpl; try reflexivity;
    destruct (Num.Qltb _ _); reflexivity.
Qed.

Lemma handleNodeProcessing_latencies node request s :
  completionLatencies (events (handleNodeProcessing config rnd node request s))
  = completionLatencies (events s).
Proof.
  pose proof (handleNodeProcessing_ledger config rnd node request s) as H.
  apply ledger_fields in H. tauto.
Qed.

Lemma no_error_roll x : (0 <= x)%Q -> Num.Qltb x 0 = false.
Proof.
  intros H. unfold Num.Qltb. apply negb_false_iff, Qle_bool_iff. exact H.
Qed.

(** A fresh request completes in the tick that made it, after no simulated
    time at all. *)
Lemma processRequest_fresh request s :
  freshAt c d (currentTime s) request ->
  let '(request', s', done) :=
    processRequest (directNodes c d lc ld) (directEdges c d) config rnd
      (tickRate config) request s in
  arrived c d request'
  /\ currentTime s' = currentTime s
  /\ failedRequests (systemMetrics s') = failedRequests (systemMetrics s)
  /\ successfulRequests (systemMetrics s') = S (successfulRequests (systemMetrics s))
  /\ completionLatencies (events s')
     = completionLatencies (events s) ++ [(currentTime s - startTime request)%Q].
Proof.
  intros (Hst & Htarget & Hpath & Hlat & Hstart).
  unfold processRequest. rewrite Hst. cbn [isTerminal].
  rewrite Htarget, getNodeById_database, Hpath.
  unfold getNetworkLatency, getProcessingLatency. cbn [last map].
  rewrite getNodeById_client, getNodeById_database. cbn [type data].
  rewrite noEntry, dbLatency40, tickRate100.
  cbn [progress set_progress currentLatency set_currentLatency].
  rewrite Hlat.
  change (Num.geb
            (Num.min (Num.div (Num.Fin (0 + 100)) (Num.Fin (10 + 40))) (Num.Fin 1))
            (Num.Fin 1)) with true.
  unfold random. cbv beta iota.
  rewrite noErrors, (no_error_roll _ (proj1 (draws (randomCalls s)))).
  cbn [n_id]. rewrite findNextHop_database.
  split; [repeat split; simpl; rewrite ?Hpath, ?Htarget; reflexivity|].
  split; [simpl; rewrite handleNodeProcessing_currentTime; reflexivity|].
  split; [simpl; rewrite handleNodeProcessing_systemMetrics; reflexivity|].
  split; [simpl; rewrite handleNodeProcessing_systemMetrics; reflexivity|].
  latencies. rewrite handleNodeProcessing_latencies, handleNodeProcessing_currentTime.
  reflexivity.
Qed.

Lemma instantCompletions_ledger s s' :
  ledger s' = ledger s -> instantCompletions s -> instantCompletions s'.
Proof.
  intros H. apply ledger_fields in H. destruct H as (_ & _ & Hs & Hf & _ & Hl).
  unfold instantCompletions. rewrite Hs, Hf, Hl. auto.
Qed.

Lemma processRequest_arrived deltaTime request s :
  arrived c d request ->
  processRequest (directNodes c d lc ld) (directEdges c d) config rnd
    deltaTime request s
  = (request, s, true).
Proof. intros [H _]. unfold processRequest. rewrite H. reflexivity. Qed.

(** The loop over requests that have arrived or are fresh leaves all of
    them arrived. *)
Lemma processLoop_generated requests s :
  Forall (fun r => arrived c d r \/ freshAt c d (currentTime s) r) requests ->
  instantCompletions s ->
  let '(requests', ids, s') :=
    processLoop (directNodes c d lc ld) (directEdges c d) config rnd
      (tickRate config) requests s in
  Forall (arrived c d) requests'
  /\ instantCompletions s'.
Proof.
  revert s. induction requests as [|request rest IH]; intros s Hreq Hs; simpl.
  - split; [constructor | assumption].
  - apply Forall_cons_iff in Hreq. destruct Hreq as [Hr Hrest].
    assert (Hone :
      let '(request', s1, done) :=
        processRequest (directNodes c d lc ld) (directEdges c d) config rnd
          (tickRate config) request s in
      arrived c d request'
      /\ currentTime s1 = currentTime s
      /\ instantCompletions s1).
    { destruct Hr as [Hr|Hr].
      - rewrite (processRequest_arrived _ _ _ Hr). auto.
      - pose proof (processRequest_fresh request s Hr) as H.
        destruct (processRequest _ _ _ _ _ _ _) as [[request' s1] done].
        destruct H as (Hst & Hc & Hf & Hsucc & Hl).
        split; [assumption|]. split; [assumption|].
        destruct Hs as (Hf0 & Hlen & Hzero).
        unfold instantCompletions. rewrite Hf, Hsucc, Hl.
        split; [assumption|]. split.
        + rewrite length_app. simpl. lia.
        + apply Forall_app. split; [assumption|].
          constructor; [|constructor].
          destruct Hr as (_ & _ & _ & _ & Hstart). rewrite Hstart.
          unfold Qminus. apply Qplus_opp_r. }
    destruct (processRequest _ _ _ _ _ _ _) as [[request' s1] done].
    destruct Hone as (Hst & Hc & Hs1).
    specialize (IH s1). rewrite Hc in IH. specialize (IH Hrest Hs1).
    destruct (processLoop _ _ _ _ _ _ _) as [[rest' ids] s2].
    destruct IH as [Hrest' Hs2]. split; [constructor; assumption | assumption].
Qed.

Lemma processRequests_generated s :
  generated c d s ->
  settled c d
    (processRequests (directNodes c d lc ld) (directEdges c d) config rnd
       (tickRate config) s).
Proof.
  intros [Hreq Hs]. unfold processRequests.
  pose proof (processLoop_generated (activeRequests s) s Hreq Hs) as H.
  destruct (processLoop _ _ _ _ _ _ _) as [[requests ids] s1].
  destruct H as [Hall Hs1]. split.
  - simpl. apply Forall_forall. intros r Hr. apply filter_In in Hr.
    rewrite Forall_forall in Hall. apply Hall. tauto.
  - exact Hs1.
Qed.

Lemma arrayAt_draw {A : Type} (x : A) i :
  arrayAt [x] (floorIndex (rnd i) 1) = Some x.
Proof.
  destruct (draws i) as [H0 H1].
  assert (E : floorIndex (rnd i) 1 = 0%Z).
  { unfold floorIndex. apply Qfloor_unit.
    - apply Qmult_le_0_compat; [assumption | discriminate].
    - setoid_replace (rnd i * inject_Z (Z.of_nat 1))%Q with (rnd i)
        by (simpl; ring).
      assumption. }
  rewrite E. reflexivity.
Qed.

Lemma generateOne_generated s :
  generated c d s ->
  exists s',
    generateOne (directNodes c d lc ld) (directEdges c d) config rnd
      (filter (fun n => NodeType_eqb (type (data n)) CLIENT) (directNodes c d lc ld)) s
    = (s', Normal)
    /\ generated c d s'.
Proof.
  intros [Hreq Hs]. unfold generateOne, random. simpl filter.
  simpl length. rewrite arrayAt_draw. cbn [n_id].
  rewrite String.eqb_refl. simpl length. rewrite arrayAt_draw.
  eexists. split; [reflexivity|]. split.
  - simpl. apply Forall_app. split; [exact Hreq|].
    constructor; [|constructor]. right. repeat split.
  - unfold instantCompletions in *. simpl.
    rewrite completionLatencies_snoc. simpl. rewrite app_nil_r. exact Hs.
Qed.

Lemma generateLoop_generated count s :
  generated c d s ->
  exists s',
    generateLoop (directNodes c d lc ld) (directEdges c d) config rnd count
      (filter (fun n => NodeType_eqb (type (data n)) CLIENT) (directNodes c d lc ld)) s
    = (s', Normal)
    /\ generated c d s'.
Proof.
  revert s. induction count as [|k IH]; intros s Hg.
  - exists s. split; [reflexivity | assumption].
  - cbn [generateLoop].
    destruct (generateOne_generated s Hg) as (s1 & -> & Hg1).
    apply IH, Hg1.
Qed.

Lemma generateRequests_generated s :
  generated c d s ->
  exists s',
    generateRequests (directNodes c d lc ld) (directEdges c d) config rnd s = (s', Normal)
    /\ generated c d s'.
Proof.
  intros Hg. unfold generateRequests, random.
  destruct (filter _ (directNodes c d lc ld)) as [|x xs] eqn:E; [discriminate E|].
  rewrite <- E. apply generateLoop_generated.
  destruct Hg as [Hreq Hs]. split; assumption.
Qed.

Lemma settled_ledger s s' :
  ledger s' = ledger s -> settled c d s -> settled c d s'.
Proof.
  intros H [Hall Hs]. split.
  - apply ledger_fields in H. destruct H as [Ha _]. rewrite Ha. exact Hall.
  - apply (instantCompletions_ledger s); assumption.
Qed.

Lemma tick_settled s :
  settled c d s ->
  settled c d
    (fst (tick (directNodes c d lc ld) (directEdges c d) config rnd s)).
Proof.
  intros [Hall Hs]. unfold tick.
  assert (Hg : generated c d
                 (set_currentTime (currentTime s + tickRate config)%Q s)).
  { split; [|exact Hs].
    simpl. eapply Forall_impl; [|exact Hall]. intros r Hr. left. exact Hr. }
  destruct (generateRequests_generated _ Hg) as (s2 & -> & Hg2).
  apply processRequests_generated in Hg2.
  eapply settled_ledger; [|exact Hg2].
  apply tick_tail_ledger.
Qed.

Lemma settled_core s s' : core s' = core s -> settled c d s -> settled c d s'.
Proof.
  intros H. apply settled_ledger. unfold core in H. unfold ledger.
  injection H as Ha _ Hs Hc _ Hl. rewrite Ha, Hs, Hc, Hl. reflexivity.
Qed.

Lemma run_settled calls :
  settled c d (run (directNodes c d lc ld) (directEdges c d) config rnd calls).
Proof.
  apply run_invariant.
  - apply settled_core.
  - repeat split; constructor.
  - apply tick_settled.
Qed.

Lemma inFlight_arrived requests :
  Forall (arrived c d) requests -> inFlight requests = 0.
Proof.
  induction 1 as [|r l [Hr _] _ IH]; [reflexivity|].
  rewrite inFlight_cons, IH. unfold terminalWeight. rewrite Hr. reflexivity.
Qed.

(** C4, amended.  With one client connected directly to one database,
    no errors, a database latency of 40ms, a tick of 100ms and the 10ms
    network fallback, at every point of every run, whatever its duration,
    every generated request has completed, and it completed in the tick
    that generated it: its one hop took one tick's worth of progress
    ([currentLatency] is 100ms), and each completion logs a total latency,
    [currentTime - startTime], of 0ms. *)
Theorem direct_requests_complete_in_their_tick calls :
  let s := run (directNodes c d lc ld) (directEdges c d) config rnd calls in
  Forall (fun r =>
            r_status r = completed
            /\ path r = [c; d]
            /\ (currentLatency r == 100)%Q)
    (activeRequests s)
  /\ failedRequests (systemMetrics s) = 0
  /\ successfulRequests (systemMetrics s) = totalRequests (systemMetrics s)
  /\ length (completionLatencies (events s)) = totalRequests (systemMetrics s)
  /\ Forall (fun l => l == 0)%Q (completionLatencies (events s)).
Proof.
  intros s. destruct (run_settled calls) as (Hall & Hf & Hlen & Hzero).
  destruct (run_balanced (directNodes c d lc ld) (directEdges c d) config rnd
              calls) as [Hbal _].
  fold s in Hall, Hf, Hlen, Hzero, Hbal. unfold countsBalanced in Hbal.
  rewrite (inFlight_arrived _ Hall), Hf in Hbal.
  split; [exact Hall|]. split; [assumption|]. split; [lia|].
  split; [lia | assumption].
Qed.

End DirectDatabase.

(** ** Witnesses and counterexamples on the sample inputs *)

Lemma halves_unitInterval : unitInterval halves.
Proof.
  intros i. unfold halves, Qle, Qlt. simpl. lia.
Defined.

(** C2, witness: a run whose second tick generates nothing and removes the
    one request the first tick completed. *)
Lemma request_counters_balance_witness :
  let s := run clientDbNodes clientDbEdges sparseConfig earlyHalves
             [CallStart; TimerFires; TimerFires] in
  activeRequests s = []
  /\ totalRequests (systemMetrics s) = 1
  /\ successfulRequests (systemMetrics s) + failedRequests (systemMetrics s)
     = totalRequests (systemMetrics s).
Proof.
  split; [reflexivity|]. split; [reflexivity|].
  apply (request_counters_balance clientDbNodes clientDbEdges sparseConfig
           earlyHalves [CallStart; TimerFires; TimerFires]).
  reflexivity.
Defined.

(** C4, counterexample: the request of the first tick completes in that
    tick and logs a latency of 0ms, not of 100ms. *)
Lemma direct_latency_is_not_one_tick :
  let s := run clientDbNodes clientDbEdges sampleConfig halves
             [CallStart; TimerFires] in
  errorRate sampleConfig = 0%Q
  /\ dbLatency sampleConfig = 40%Q
  /\ tickRate sampleConfig = 100%Q
  /\ duration sampleConfig = 1%Q
  /\ map r_status (activeRequests s) = [completed]
  /\ completionLatencies (events s) = [0%Q]
  /\ ~ (0 == 100)%Q.
Proof.
  repeat split. intro H. discriminate H.
Qed.

(** C4, witness: the sample run of one tick. *)
Lemma direct_requests_complete_in_their_tick_witness :
  let s := run clientDbNodes clientDbEdges sampleConfig halves
             [CallStart; TimerFires] in
  Forall (fun r =>
            r_status r = completed
            /\ path r = ["c"; "d"]%string
            /\ (currentLatency r == 100)%Q)
    (activeRequests s)
  /\ failedRequests (systemMetrics s) = 0
  /\ successfulRequests (systemMetrics s) = totalRequests (systemMetrics s)
  /\ length (completionLatencies (events s)) = totalRequests (systemMetrics s)
  /\ Forall (fun l => l == 0)%Q (completionLatencies (events s)).
Proof.
  apply (direct_requests_complete_in_their_tick sampleConfig halves
           "c" "d" "Client" "Database").
  - discriminate.
  - reflexivity.
  - reflexivity.
  - reflexivity.
  - reflexivity.
  - exact halves_unitInterval.
Defined.

(** C5, witness: the service of the pipeline after two ticks, and the two
    scaling branches on a service that runs ten instances at full load. *)
Lemma instances_stay_in_range_witness :
  (exists metrics,
     mapGet "s"
       (nodeMetrics
          (run pipelineNodes pipelineEdges sampleConfig halves
             [CallStart; TimerFires; TimerFires]))
     = Some metrics
     /\ (1 <= instances metrics <= 10)%Z)
  /\ (instances (fst (scaleUp "s" serviceNode busyMetrics
                        (initializeState pipelineNodes sampleConfig))) <= 10)%Z
  /\ (1 <= instances (fst (scaleDown "s" serviceNode busyMetrics
                             (initializeState pipelineNodes sampleConfig))))%Z.
Proof.
  destruct (instances_stay_in_range pipelineNodes pipelineEdges sampleConfig
              halves [CallStart; TimerFires; TimerFires]) as [Hrun Hbranch].
  split.
  - apply (Hrun serviceNode). simpl. auto.
  - apply Hbranch. simpl. lia.
Defined.

(** C7, counterexample: an idle run on a graph without cache and load
    balancer generates nothing and still recommends three things. *)
Lemma idle_run_recommends_more :
  let s := run clientDbNodes clientDbEdges idleConfig halves
             [CallStart; TimerFires] in
  requestsPerSecond idleConfig = 0%Q
  /\ totalRequests (systemMetrics s) = 0
  /\ bottlenecks (summary (getResult clientDbNodes idleConfig s)) = []
  /\ recommendations (summary (getResult clientDbNodes idleConfig s))
     = ["System is performing well under current load"%string;
        "Consider adding a cache layer to reduce database load"%string;
        "Add a load balancer to distribute traffic evenly"%string]
  /\ recommendations (summary (getResult clientDbNodes idleConfig s))
     <> ["System is performing well under current load"%string].
Proof.
  repeat split. intro H. discriminate H.
Qed.

(** C7, witness: an idle run on a graph with a cache and a load balancer. *)
Lemma idle_run_reports_no_bottleneck_witness :
  let s := run layeredNodes layeredEdges idleConfig halves
             [CallStart; TimerFires; TimerFires] in
  totalRequests (systemMetrics s) = 0
  /\ activeRequests s = []
  /\ bottlenecks (summary (getResult layeredNodes idleConfig s)) = []
  /\ recommendations (summary (getResult layeredNodes idleConfig s))
     = ["System is performing well under current load"%string].
Proof.
  assert (Hrps : (requestsPerSecond idleConfig == 0)%Q) by reflexivity.
  assert (Hcap : (0 <= messageQueueDepth idleConfig)%Q)
    by (unfold Qle; simpl; lia).
  destruct (idle_run_reports_no_bottleneck layeredNodes layeredEdges idleConfig
              halves [CallStart; TimerFires; TimerFires]
              Hrps halves_unitInterval Hcap)
    as (Ht & Ha & Hb & _ & Hr).
  split; [exact Ht|]. split; [exact Ha|]. split; [exact Hb|].
  apply Hr; reflexivity.
Defined.

(** C9, witness: the queue of the pipeline is over 80% of a capacity of one
    after the first tick; it stays over it through the next tick, and one
    more traversal logs one more BACKLOG_WARNING. *)
Lemma queue_depth_never_decreases_witness :
  let s := run pipelineNodes pipelineEdges tinyQueueConfig halves
             [CallStart; TimerFires] in
  let s' := step pipelineNodes pipelineEdges tinyQueueConfig halves s TimerFires in
  (exists metrics',
     mapGet "q" (nodeMetrics s') = Some metrics'
     /\ (messageQueueDepth tinyQueueConfig * (8 # 10)
         < inject_Z (Z.of_nat (queueDepth metrics')))%Q)
  /\ length (filter isBacklogWarning
               (events (handleNodeProcessing tinyQueueConfig halves queueNode
                          sampleRequest s)))
     = S (length (filter isBacklogWarning (events s))).
Proof.
  intros s s'.
  destruct (queue_depth_never_decreases pipelineNodes pipelineEdges
              tinyQueueConfig halves [CallStart; TimerFires] TimerFires)
    as (_ & _ & Hstays & Hwarns).
  fold s in Hstays, Hwarns. fold s' in Hstays.
  assert (Hget : exists metrics,
             mapGet "q" (nodeMetrics s) = Some metrics
             /\ (messageQueueDepth tinyQueueConfig * (8 # 10)
                 < inject_Z (Z.of_nat (queueDepth metrics)))%Q).
  { eexists. split; [vm_compute; reflexivity|]. vm_compute. reflexivity. }
  destruct Hget as (metrics & Hget & Hover).
  split.
  - exact (Hstays "q"%string metrics Hget Hover).
  - rewrite (Hwarns queueNode sampleRequest metrics s eq_refl Hget Hover).
    rewrite length_app. simpl. lia.
Defined.

(** C10, witness: a fresh engine has generated nothing and has no
    snapshot. *)
Lemma summary_is_unguarded_witness :
  sm_successRate
    (summary (getResult clientDbNodes sampleConfig
                (run clientDbNodes clientDbEdges sampleConfig halves [])))
  = Num.NaN
  /\ s_errorRate
       (systemMetrics (run clientDbNodes clientDbEdges sampleConfig halves []))
     = Num.Fin 0
  /\ peakRPS
       (summary (getResult clientDbNodes sampleConfig
                   (run clientDbNodes clientDbEdges sampleConfig halves [])))
     = Num.NInf.
Proof.
  destruct (summary_is_unguarded clientDbNodes clientDbEdges sampleConfig
              halves []) as (_ & Hrate & Hpeak).
  destruct (Hrate eq_refl) as [Hnan Herr].
  split; [exact Hnan|]. split; [exact Herr|]. exact (Hpeak eq_refl).
Defined.

(** * Further properties of the engine *)

(** ** The log relation *)

Lemma countOf_app p l l' : countOf p (l ++ l') = countOf p l + countOf p l'.
Proof. unfold countOf. rewrite filter_app, length_app. reflexivity. Qed.

Lemma tallied_refl s : tallied s s [].
Proof.
  constructor; unfold countOf; simpl; auto; try lia.
  symmetry. apply app_nil_r.
Qed.

Lemma logged_refl s : logged s s.
Proof. exists []. split; [apply tallied_refl | reflexivity]. Qed.

Lemma announced_refl s : announced s s.
Proof. exists []. apply tallied_refl. Qed.

Lemma tallied_trans s1 s2 s3 l l' :
  tallied s1 s2 l -> tallied s2 s3 l' -> tallied s1 s3 (l ++ l').
Proof.
  intros H H'. destruct H, H'. constructor.
  - rewrite t_events1, t_events0. symmetry. apply app_assoc.
  - rewrite t_counter1, t_counter0, length_app. lia.
  - rewrite map_app, length_app, seq_app, t_ids0, t_ids1, t_counter0.
    reflexivity.
  - apply Forall_app. split; [assumption|].
    eapply Forall_impl; [|eassumption]. simpl. intros e He. congruence.
  - congruence.
  - rewrite countOf_app. lia.
  - rewrite countOf_app. lia.
  - rewrite countOf_app. lia.
  - rewrite countOf_app. lia.
  - rewrite countOf_app. lia.
  - auto.
Qed.

Lemma logged_trans s1 s2 s3 : logged s1 s2 -> logged s2 s3 -> logged s1 s3.
Proof.
  intros [l [H Hc]] [l' [H' Hc']]. exists (l ++ l'). split.
  - eapply tallied_trans; eassumption.
  - congruence.
Qed.

Lemma announced_trans s1 s2 s3 :
  announced s1 s2 -> announced s2 s3 -> announced s1 s3.
Proof.
  intros [l H] [l' H']. exists (l ++ l'). eapply tallied_trans; eassumption.
Qed.

Lemma logged_announced s s' : logged s s' -> announced s s'.
Proof. intros [l [H _]]. exists l. exact H. Qed.

Lemma sumQ_snoc l x : (sumQ (l ++ [x]) == sumQ l + x)%Q.
Proof.
  induction l as [|y l IH]; simpl.
  - ring.
  - rewrite IH. ring.
Qed.

Lemma meanKept_frame s s' :
  averageLatency (systemMetrics s') = averageLatency (systemMetrics s) ->
  successfulRequests (systemMetrics s') = successfulRequests (systemMetrics s) ->
  completionLatencies (events s') = completionLatencies (events s) ->
  meanKept s -> meanKept s'.
Proof.
  intros Ha Hs Hl [a [H1 H2]]. exists a. rewrite Ha, Hs, Hl. auto.
Qed.

(** Solves [tallied s t _] for a term [t] built from [s] by field
    assignments and [emitEvent], but for the mean when a completion is
    among the events. *)
Ltac tally_fields :=
  constructor;
  [ simpl; rewrite <- ?app_assoc;
    first [ reflexivity | symmetry; apply app_nil_r ]
  | simpl; lia
  | simpl; rewrite ?Nat.add_1_r; reflexivity
  | simpl; repeat constructor
  | reflexivity
  | unfold countOf; simpl; lia
  | unfold countOf; simpl; lia
  | unfold countOf; simpl; lia
  | unfold countOf; simpl; lia
  | unfold countOf; simpl; lia
  | try (apply meanKept_frame;
         [reflexivity | reflexivity | latencies; reflexivity]) ].

Ltac tally := eexists; split; [tally_fields | reflexivity].

Ltac announce := eexists; tally_fields.

Section Log.

Variable nodes : list SystemNode.
Variable edges : list SystemEdge.
Variable config : SimulationConfig.
Variable rnd : nat -> Q.

Lemma generateOne_logged clientNodes s :
  logged s (fst (generateOne nodes edges config rnd clientNodes s)).
Proof.
  unfold generateOne, random.
  destruct (arrayAt clientNodes _) as [clientNode|]; simpl; [|tally].
  destruct (filter _ edges) as [|e es]; simpl; [tally|].
  destruct (arrayAt (e :: es) _) as [targetEdge|]; simpl; tally.
Qed.

Lemma generateLoop_logged count clientNodes s :
  logged s (fst (generateLoop nodes edges config rnd count clientNodes s)).
Proof.
  revert s. induction count as [|k IH]; intros s; simpl; [apply logged_refl|].
  pose proof (generateOne_logged clientNodes s) as H1.
  destruct (generateOne nodes edges config rnd clientNodes s) as [s1 [|]];
    simpl in H1; [|assumption].
  eapply logged_trans; [eassumption | apply IH].
Qed.

Lemma generateRequests_logged s :
  logged s (fst (generateRequests nodes edges config rnd s)).
Proof.
  unfold generateRequests, random.
  destruct (filter _ nodes) as [|c cs]; simpl; [apply logged_refl|].
  eapply logged_trans; [|apply generateLoop_logged]. tally.
Qed.

Lemma handleNodeProcessing_logged node request s :
  logged s (handleNodeProcessing config rnd node request s).
Proof.
  unfold handleNodeProcessing, random.
  destruct (mapGet _ _); [|apply logged_refl].
  destruct (type (data node)); simpl; try tally;
    destruct (Num.Qltb _ _); tally.
Qed.

Lemma ofNat_S_nonzero n : Qeq_bool (inject_Z (Z.of_nat (S n))) 0 = false.
Proof.
  destruct (Qeq_bool _ _) eqn:E; [|reflexivity].
  apply Qeq_bool_iff in E. unfold Qeq in E. simpl in E. lia.
Qed.

Lemma completion_logged x node sp id l :
  logged x
    (emitEvent REQUEST_PROCESSED node sp None (MsgRequestCompleted id l) success
       (updateLatencyMetrics l (incSuccessful x))).
Proof.
  tally. intros [a [Ha Hsum]]. unfold meanKept.
  cbn -[Qeq_bool inject_Z Z.of_nat Qmult Qplus Qdiv Qopp Qminus Num.div
        Num.add Num.mul Num.sub].
  rewrite completionLatencies_snoc. rewrite Ha.
  cbn -[Qeq_bool inject_Z Z.of_nat Qmult Qplus Qdiv Qopp Qminus].
  rewrite ofNat_S_nonzero.
  eexists. split; [reflexivity|].
  rewrite sumQ_snoc, <- Hsum.
  set (n := successfulRequests (systemMetrics x)).
  assert (Hp : ~ (inject_Z (Z.of_nat (S n)) == 0)%Q).
  { intros E. apply Qeq_bool_iff in E. rewrite ofNat_S_nonzero in E. discriminate. }
  assert (Hn : (inject_Z (Z.of_nat (S n)) == inject_Z (Z.of_nat n) + 1)%Q).
  { rewrite Nat2Z.inj_succ. unfold Z.succ. rewrite inject_Z_plus. reflexivity. }
  field_simplify_eq; [|exact Hp]. rewrite Hn. ring.
Qed.

Lemma processRequest_logged deltaTime request s :
  logged s (snd (fst (processRequest nodes edges config rnd deltaTime request s))).
Proof.
  unfold processRequest, random.
  destruct (isTerminal _); simpl; [apply logged_refl|].
  destruct (getNodeById nodes _) as [targetNode|]; simpl; [|tally].
  destruct (Num.geb _ _); simpl; [|apply logged_refl].
  destruct (Num.Qltb _ _); simpl; [tally|].
  destruct (findNextHop edges _ _); simpl.
  - eapply logged_trans; [|tally].
    eapply logged_trans; [|apply handleNodeProcessing_logged]. tally.
  - eapply logged_trans; [|apply completion_logged].
    eapply logged_trans; [|apply handleNodeProcessing_logged]. tally.
Qed.

Lemma processLoop_logged deltaTime requests s :
  logged s (snd (processLoop nodes edges config rnd deltaTime requests s)).
Proof.
  revert s. induction requests as [|r rest IH]; intros s; simpl;
    [apply logged_refl|].
  pose proof (processRequest_logged deltaTime r s) as H1.
  destruct (processRequest nodes edges config rnd deltaTime r s)
    as [[r' s1] done].
  simpl in H1. specialize (IH s1).
  destruct (processLoop nodes edges config rnd deltaTime rest s1)
    as [[rest' ids] s2].
  simpl in *. eapply logged_trans; eassumption.
Qed.

Lemma processRequests_logged deltaTime s :
  logged s (processRequests nodes edges config rnd deltaTime s).
Proof.
  unfold processRequests.
  pose proof (processLoop_logged deltaTime (activeRequests s) s) as H.
  destruct (processLoop _ _ _ _ _ _ _) as [[rs ids] s1]. simpl in H.
  eapply logged_trans; [eassumption | tally].
Qed.

Lemma updateMetrics_logged s : logged s (updateMetrics s).
Proof.
  unfold updateMetrics.
  destruct (0 <? totalRequests (systemMetrics s)) eqn:E; simpl; rewrite ?E; tally.
Qed.

Lemma scaleNode_logged nodeId metrics s :
  logged s (snd (scaleNode nodes nodeId metrics s)).
Proof.
  unfold scaleNode. destruct (getNodeById nodes nodeId); [|apply logged_refl].
  destruct (negb _); [apply logged_refl|].
  unfold scaleUp, scaleDown.
  destruct (Num.gtb _ _ && _); simpl; destruct (Num.ltb _ _ && _); simpl; tally.
Qed.

Lemma scaleLoop_logged entries s : logged s (snd (scaleLoop nodes entries s)).
Proof.
  revert s. induction entries as [|[nodeId metrics] rest IH]; intros s; simpl;
    [apply logged_refl|].
  pose proof (scaleNode_logged nodeId metrics s) as H1.
  destruct (scaleNode nodes nodeId metrics s) as [m1 s1]. simpl in H1.
  specialize (IH s1). destruct (scaleLoop nodes rest s1) as [rest' s2].
  simpl in *. eapply logged_trans; eassumption.
Qed.

Lemma checkAutoScaling_logged s : logged s (checkAutoScaling nodes s).
Proof.
  unfold checkAutoScaling.
  pose proof (scaleLoop_logged (nodeMetrics s) s) as H.
  destruct (scaleLoop nodes (nodeMetrics s) s) as [entries s1]. simpl in H.
  eapply logged_trans; [eassumption | tally].
Qed.

Lemma applyChaosEffects_logged s : logged s (fst (applyChaosEffects nodes rnd s)).
Proof.
  unfold applyChaosEffects, random.
  destruct (Num.Qltb _ _); simpl; [|tally].
  destruct (arrayAt nodes _); simpl; tally.
Qed.

Lemma tick_afterAdvance s :
  tick nodes edges config rnd s
  = afterAdvance nodes edges config rnd (advance config s).
Proof. reflexivity. Qed.

Lemma afterAdvance_logged s1 :
  logged s1 (fst (afterAdvance nodes edges config rnd s1)).
Proof.
  unfold afterAdvance.
  pose proof (generateRequests_logged s1) as H1.
  destruct (generateRequests _ _ _ _ _) as [s2 [|]]; simpl in H1; [|assumption].
  assert (H5 : logged s1
                 (if autoScaling config
                  then checkAutoScaling nodes
                         (updateMetrics
                            (processRequests nodes edges config rnd
                               (tickRate config) s2))
                  else updateMetrics
                         (processRequests nodes edges config rnd
                            (tickRate config) s2))).
  { eapply logged_trans;
      [|destruct (autoScaling config);
        [apply checkAutoScaling_logged | apply logged_refl]].
    eapply logged_trans; [|apply updateMetrics_logged].
    eapply logged_trans; [|apply processRequests_logged]. assumption. }
  set (s5 := if autoScaling config then _ else _) in *.
  assert (H6 : logged s1
                 (fst (if chaosMode config
                       then applyChaosEffects nodes rnd s5 else (s5, Normal)))).
  { destruct (chaosMode config); [|assumption].
    eapply logged_trans; [eassumption | apply applyChaosEffects_logged]. }
  destruct (if chaosMode config then _ else _) as [s6 [|]]; simpl in *;
    [|assumption].
  destruct (isMultipleOf1000 (currentTime s6)); [|assumption].
  eapply logged_trans; [eassumption|]. unfold takeMetricsSnapshot. tally.
Qed.

(** ** Lifecycle calls and whole runs *)

Lemma stop_announced s : announced s (stop s).
Proof.
  unfold stop, clearLoop. cbn [intervalId set_status].
  destruct (intervalId s); announce.
Qed.

Lemma start_announced s : announced s (start s).
Proof.
  unfold start. destruct (status_eqb _ _); [apply announced_refl|].
  unfold runSimulationLoop. announce.
Qed.

Lemma pause_announced s : announced s (pause s).
Proof.
  unfold pause. destruct (negb _); [apply announced_refl|].
  unfold clearLoop. cbn [intervalId set_status].
  destruct (intervalId s); announce.
Qed.

Lemma resume_announced s : announced s (resume s).
Proof.
  unfold resume. destruct (negb _); [apply announced_refl|].
  unfold runSimulationLoop. announce.
Qed.

Lemma setSpeed_announced v s : announced s (setSpeed v s).
Proof.
  unfold setSpeed. destruct (status_eqb (status s) RUNNING).
  - eapply announced_trans; [apply pause_announced|].
    eapply announced_trans; [|apply resume_announced]. announce.
  - announce.
Qed.

Lemma complete_announced s : announced s (complete s).
Proof.
  unfold complete. destruct (status_eqb _ _); [apply announced_refl|].
  eapply announced_trans; [apply stop_announced|]. announce.
Qed.

Lemma tick_announced s :
  announced (advance config s) (fst (tick nodes edges config rnd s)).
Proof.
  rewrite tick_afterAdvance. apply logged_announced, afterAdvance_logged.
Qed.

Lemma tick_control s :
  control (fst (tick nodes edges config rnd s)) = control s.
Proof.
  rewrite tick_afterAdvance.
  destruct (afterAdvance_logged (advance config s)) as [l [_ H]].
  rewrite H. reflexivity.
Qed.

Lemma tick_currentTime s :
  currentTime (fst (tick nodes edges config rnd s))
  = (currentTime s + tickRate config)%Q.
Proof.
  rewrite tick_afterAdvance.
  destruct (afterAdvance_logged (advance config s)) as [l [H _]].
  rewrite (t_time _ _ _ H). reflexivity.
Qed.

(** Every call appends to the log of the engine as it is, or as it is
    once the clock has advanced. *)
Lemma step_announced s c :
  announced s (step nodes edges config rnd s c)
  \/ announced (advance config s) (step nodes edges config rnd s c).
Proof.
  destruct c; simpl.
  - left. apply start_announced.
  - left. apply pause_announced.
  - left. apply resume_announced.
  - left. apply stop_announced.
  - left. apply setSpeed_announced.
  - destruct (intervalId s); [|left; apply announced_refl].
    unfold intervalCallback.
    destruct (negb _); [left; apply announced_refl|]. right.
    pose proof (tick_announced s) as H.
    destruct (tick nodes edges config rnd s) as [s1 [|]]; simpl in H;
      [|assumption].
    destruct (Qle_bool _ _); [|assumption].
    eapply announced_trans; [eassumption | apply complete_announced].
Qed.

Lemma run_snoc calls c :
  run nodes edges config rnd (calls ++ [c])
  = step nodes edges config rnd (run nodes edges config rnd calls) c.
Proof. unfold run. rewrite fold_left_app. reflexivity. Qed.

(** A property of the log and the counters that the advance of the clock
    and every appending operation keep holds after every run. *)
Lemma run_announced (P : Engine -> Prop) :
  P (initializeState nodes config) ->
  (forall s, P s -> P (advance config s)) ->
  (forall s s', announced s s' -> P s -> P s') ->
  forall calls, P (run nodes edges config rnd calls).
Proof.
  intros Hinit Hadv Hstep calls.
  induction calls as [|c calls IH] using rev_ind; [exact Hinit|].
  rewrite run_snoc.
  destruct (step_announced (run nodes edges config rnd calls) c) as [H|H].
  - eapply Hstep; eassumption.
  - eapply Hstep; [eassumption|]. apply Hadv, IH.
Qed.

Lemma numbered_announced s s' : announced s s' -> numbered s -> numbered s'.
Proof.
  intros [l H] [Hids Hc]. destruct H. unfold numbered.
  rewrite t_events0, map_app, length_app, seq_app, Hids, t_ids0, t_counter0, Hc.
  split; reflexivity.
Qed.

Lemma accounted_announced s s' : announced s s' -> accounted s -> accounted s'.
Proof.
  intros [l H] (H1 & H2 & H3 & H4 & H5). destruct H. unfold accounted.
  rewrite t_events0, !countOf_app. repeat split; lia.
Qed.

Lemma StronglySorted_app {A} (R : A -> A -> Prop) l l' :
  StronglySorted R l -> StronglySorted R l' ->
  (forall x y, In x l -> In y l' -> R x y) ->
  StronglySorted R (l ++ l').
Proof.
  intros Hl Hl' H. induction Hl as [|a l Hl IH Ha]; simpl; [assumption|].
  constructor.
  - apply IH. intros x y Hx Hy. apply H; [right|]; assumption.
  - apply Forall_app. split; [assumption|].
    apply Forall_forall. intros y Hy. apply H; [left; reflexivity | assumption].
Qed.

Lemma StronglySorted_constant t (l : list Q) :
  Forall (fun x => x = t) l -> StronglySorted Qle l.
Proof.
  induction 1 as [|x l Hx Hl IH]; constructor; [assumption|].
  subst x. eapply Forall_impl; [|eassumption].
  simpl. intros y ->. apply Qle_refl.
Qed.

Lemma stamped_announced s s' : announced s s' -> stamped s -> stamped s'.
Proof.
  intros [l H] [Hsorted Hle]. destruct H. unfold stamped.
  rewrite t_events0, t_time0, map_app. split.
  - apply StronglySorted_app; [assumption| |].
    + apply (StronglySorted_constant (currentTime s)).
      apply Forall_map. assumption.
    + intros x y Hx Hy.
      apply in_map_iff in Hx. destruct Hx as [e [<- He]].
      apply in_map_iff in Hy. destruct Hy as [e' [<- He']].
      rewrite Forall_forall in Hle, t_stamps0.
      rewrite (t_stamps0 _ He'). apply Hle. assumption.
  - apply Forall_app. split; [assumption|].
    eapply Forall_impl; [|eassumption]. simpl. intros e ->. apply Qle_refl.
Qed.

Lemma stamped_advance s :
  (0 <= tickRate config)%Q -> stamped s -> stamped (advance config s).
Proof.
  intros Hrate [Hsorted Hle]. split; [exact Hsorted|]. simpl.
  eapply Forall_impl; [|eassumption]. simpl. intros e He.
  apply Qle_trans with (currentTime s); [assumption|].
  rewrite <- (Qplus_0_r (currentTime s)) at 1.
  apply Qplus_le_compat; [apply Qle_refl | assumption].
Qed.

Lemma announced_currentTime s s' : announced s s' -> currentTime s' = currentTime s.
Proof. intros [l H]. apply (t_time _ _ _ H). Qed.

Lemma stop_control s : intervalId (stop s) = None /\ status (stop s) = STOPPED.
Proof.
  unfold stop, clearLoop. cbn [intervalId set_status].
  destruct (intervalId s) eqn:E; simpl; auto.
Qed.

Lemma complete_control s :
  complete s = s
  \/ (intervalId (complete s) = None /\ status (complete s) = COMPLETED
      /\ currentTime (complete s) = currentTime s).
Proof.
  unfold complete. destruct (status_eqb _ _); [left; reflexivity | right].
  destruct (stop_control s) as [H1 H2].
  cbn [emitEvent intervalId status currentTime set_eventIdCounter set_events
       set_status].
  repeat split; [assumption|].
  apply announced_currentTime, stop_announced.
Qed.

Lemma step_timerConsistent s c :
  timerConsistent s -> timerConsistent (step nodes edges config rnd s c).
Proof.
  unfold timerConsistent. intros H.
  assert (Hpause : forall s0, status s0 = RUNNING ->
            intervalId (pause s0) = None /\ status (pause s0) = PAUSED).
  { intros s0 H0. unfold pause. rewrite H0. simpl.
    unfold clearLoop. simpl.
    destruct (intervalId s0) eqn:Ei; simpl; auto. }
  assert (Hresume : forall s0, status s0 = PAUSED ->
            intervalId (resume s0) <> None /\ status (resume s0) = RUNNING).
  { intros s0 H0. unfold resume. rewrite H0. simpl. split; [discriminate|reflexivity]. }
  destruct c; cbn [step].
  - unfold start. destruct (status s) eqn:E; simpl; try rewrite E;
      split; intros; try reflexivity; try discriminate; tauto.
  - destruct (status s) eqn:E;
      try (unfold pause; rewrite E; simpl; rewrite E; exact H).
    destruct (Hpause s E) as [H1 H2]. rewrite H1, H2.
    split; [congruence | discriminate].
  - destruct (status s) eqn:E;
      try (unfold resume; rewrite E; simpl; rewrite E; exact H).
    destruct (Hresume s E) as [H1 H2]. rewrite H2. tauto.
  - destruct (stop_control s) as [H1 H2]. rewrite H1, H2.
    split; [congruence | discriminate].
  - unfold setSpeed. destruct (status s) eqn:E; simpl; try rewrite E;
      try exact H.
    destruct (Hpause s E) as [H1 H2].
    destruct (Hresume (set_speed v (pause s)) H2) as [H3 H4].
    rewrite H4. tauto.
  - destruct (intervalId s) eqn:Ei; [|rewrite Ei; exact H].
    unfold intervalCallback.
    destruct (status_eqb (status s) RUNNING) eqn:E; simpl;
      [|rewrite Ei; exact H].
    pose proof (tick_control s) as Hc.
    destruct (tick nodes edges config rnd s) as [s1 [|]]; simpl in Hc;
      unfold control in Hc; injection Hc as Hst Hid _ _.
    + destruct (Qle_bool _ _); [|rewrite Hst, Hid, Ei; exact H].
      destruct (complete_control s1) as [-> | (H1 & H2 & _)];
        [rewrite Hst, Hid, Ei; exact H|].
      rewrite H1, H2. split; [congruence | discriminate].
    + rewrite Hst, Hid, Ei. exact H.
Qed.

Lemma step_completedOnTime s c :
  completedOnTime config s ->
  completedOnTime config (step nodes edges config rnd s c).
Proof.
  unfold completedOnTime. intros H.
  destruct c; cbn [step].
  - unfold start. destruct (status s) eqn:E; simpl; try rewrite E;
      try discriminate; exact H.
  - unfold pause, clearLoop. destruct (status s) eqn:E; simpl; try rewrite E;
      try exact H.
    destruct (intervalId s); simpl; discriminate.
  - unfold resume. destruct (status s) eqn:E; simpl; try rewrite E;
      try exact H. discriminate.
  - unfold stop, clearLoop. cbn [intervalId set_status].
    destruct (intervalId s); simpl; discriminate.
  - unfold setSpeed. destruct (status s) eqn:E; simpl; try rewrite E;
      try exact H.
    unfold pause, clearLoop. rewrite E. simpl.
    destruct (intervalId s); simpl; discriminate.
  - destruct (intervalId s) eqn:Ei; [|exact H].
    unfold intervalCallback.
    destruct (status s) eqn:E; simpl; try rewrite E; try exact H.
    pose proof (tick_control s) as Hc.
    destruct (tick nodes edges config rnd s) as [s1 [|]]; simpl in Hc;
      unfold control in Hc; injection Hc as Hst Hid _ _.
    + destruct (Qle_bool _ _) eqn:Eq; [|rewrite Hst, E; discriminate].
      intros _. apply Qle_bool_iff in Eq.
      destruct (complete_control s1) as [-> | (_ & _ & ->)]; assumption.
    + rewrite Hst, E. discriminate.
Qed.

Lemma announced_events s s' :
  announced s s' -> exists suffix, events s' = events s ++ suffix.
Proof. intros [l H]. exists l. apply (t_events _ _ _ H). Qed.


Lemma clearLoop_status s : status (clearLoop s) = status s.
Proof. unfold clearLoop. destruct (intervalId s); reflexivity. Qed.

(** No call of the host completes an engine. *)
Lemma host_call_never_completes s c :
  c <> TimerFires -> status s <> COMPLETED ->
  status (step nodes edges config rnd s c) <> COMPLETED.
Proof.
  intros Hc Hs. destruct c; cbn [step]; try (elim Hc; reflexivity).
  - unfold start. destruct (status_eqb _ _); [assumption | discriminate].
  - unfold pause. destruct (negb _); [assumption|].
    cbn [emitEvent status set_eventIdCounter set_events].
    rewrite clearLoop_status. discriminate.
  - unfold resume. destruct (negb _); [assumption | discriminate].
  - destruct (stop_control s) as [_ ->]. discriminate.
  - unfold setSpeed. destruct (status_eqb (status s) RUNNING);
      [|exact Hs].
    unfold resume. destruct (negb _); [|discriminate].
    cbn [status set_speed]. unfold pause. destruct (negb _); [assumption|].
    cbn [emitEvent status set_eventIdCounter set_events].
    rewrite clearLoop_status. discriminate.
Qed.

End Log.

(** ** Properties of whole runs *)

(** X1.  The events of the log of any run carry the ids 0, 1, 2, ... in
    the order in which they were emitted, and the event counter is the
    number of events logged. *)
Theorem event_ids_count_the_log nodes edges config rnd calls :
  numbered (run nodes edges config rnd calls).
Proof.
  apply run_announced.
  - split; reflexivity.
  - intros s H. exact H.
  - apply numbered_announced.
Qed.

(** X2.  The log only grows: whatever calls follow a run, the log of the
    longer run starts with the log of the shorter one. *)
Theorem event_log_is_append_only nodes edges config rnd calls calls' :
  exists suffix,
    events (run nodes edges config rnd (calls ++ calls'))
    = events (run nodes edges config rnd calls) ++ suffix.
Proof.
  induction calls' as [|c calls' IH] using rev_ind.
  - exists []. rewrite !app_nil_r. reflexivity.
  - destruct IH as [l IH]. rewrite app_assoc, run_snoc.
    destruct (step_announced nodes edges config rnd
                (run nodes edges config rnd (calls ++ calls')) c) as [H|H];
      apply announced_events in H; destruct H as [l' H];
      exists (l ++ l'); rewrite H; simpl; rewrite IH, app_assoc; reflexivity.
Qed.

(** X3.  After any sequence of calls an interval is scheduled exactly when
    the status is Running. *)
Theorem interval_scheduled_iff_running nodes edges config rnd calls :
  timerConsistent (run nodes edges config rnd calls).
Proof.
  induction calls as [|c calls IH] using rev_ind.
  - split; [intros H; elim H; reflexivity | discriminate].
  - rewrite run_snoc. apply step_timerConsistent, IH.
Qed.

(** X4.  The counters are the log counted by kind: the total of requests
    and the request id counter are the number of request-sent events that
    name a request, the successful requests the number of completion
    events, the scaling actions the number of node-scaled events; the
    request-failed events are at most the failed requests. *)
Theorem counters_account_for_the_log nodes edges config rnd calls :
  accounted (run nodes edges config rnd calls).
Proof.
  apply run_announced.
  - unfold accounted, countOf. simpl. repeat split; lia.
  - intros s H. exact H.
  - apply accounted_announced.
Qed.


(** X6.  With a tick rate that is not negative the log is in the order of
    the simulated clock: timestamps never decrease along the log and none
    lies after the current time. *)
Theorem log_follows_the_clock nodes edges config rnd calls :
  (0 <= tickRate config)%Q ->
  stamped (run nodes edges config rnd calls).
Proof.
  intros Hrate. apply run_announced.
  - split; constructor.
  - intros s. apply stamped_advance. assumption.
  - apply stamped_announced.
Qed.

(** X6, witness: a run of two ticks at a tick rate of 100ms. *)
Lemma log_follows_the_clock_witness :
  stamped (run clientDbNodes clientDbEdges sampleConfig halves
             [CallStart; TimerFires; TimerFires; CallPause]).
Proof. apply log_follows_the_clock. simpl. discriminate. Defined.


(** X8.  The engine never completes early: whenever the status of a run
    is Completed the clock has reached the configured duration. *)
Theorem completed_only_after_the_duration nodes edges config rnd calls :
  completedOnTime config (run nodes edges config rnd calls).
Proof.
  induction calls as [|c calls IH] using rev_ind.
  - discriminate.
  - rewrite run_snoc. apply step_completedOnTime, IH.
Qed.

(** X8, witness: a run of ten ticks of 100ms, which completes a
    simulation of one second. *)
Lemma completed_only_after_the_duration_witness :
  let s := run clientDbNodes clientDbEdges sampleConfig halves
             (CallStart :: repeat TimerFires 10) in
  status s = COMPLETED /\ (duration sampleConfig * 1000 <= currentTime s)%Q.
Proof.
  split; [reflexivity|].
  apply (completed_only_after_the_duration clientDbNodes clientDbEdges
           sampleConfig halves (CallStart :: repeat TimerFires 10)).
  reflexivity.
Defined.

(** X9.  [setSpeed] keeps the status and the clock and touches no
    request and no metric.  On a running engine it pauses and resumes:
    two events are logged and the interval is replaced by a new one; on
    any other engine nothing but the speed changes. *)
Theorem setSpeed_restarts_a_running_engine v s :
  let s' := setSpeed v s in
  let running := status_eqb (status s) RUNNING in
  status s' = status s
  /\ speed s' = v
  /\ currentTime s' = currentTime s
  /\ core s' = core s
  /\ events s' = events s ++ (if running then restartEvents s else [])
  /\ intervalId s' = (if running then Some (timerCounter s) else intervalId s).
Proof.
  intros s' running. subst s' running.
  destruct (status_eqb (status s) RUNNING) eqn:E.
  - assert (Hs : status s = RUNNING).
    { unfold status_eqb in E.
      destruct (SimulationStatus_eq_dec (status s) RUNNING);
        [assumption | discriminate]. }
    assert (H : setSpeed v s
                = runSimulationLoop
                    (emitEvent REQUEST_SENT None None None MsgResumed info
                       (set_status RUNNING
                          (set_speed v
                             (emitEvent REQUEST_SENT None None None MsgPaused
                                info (clearLoop (set_status PAUSED s))))))).
    { unfold setSpeed. rewrite E. unfold pause. rewrite E. cbn [negb].
      unfold resume.
      cbn [status set_speed emitEvent set_eventIdCounter set_events].
      rewrite clearLoop_status. reflexivity. }
    split; [|split; [|split; [|split; [apply core_setSpeed|]]]].
    + rewrite H, Hs. reflexivity.
    + rewrite H. reflexivity.
    + apply announced_currentTime, setSpeed_announced.
    + rewrite H. unfold restartEvents, clearLoop. cbn [intervalId set_status].
      destruct (intervalId s); simpl; rewrite <- app_assoc; split; reflexivity.
  - unfold setSpeed. rewrite E. rewrite app_nil_r. repeat split.
Qed.

(** ** Routing and the progress of one request *)

(** X10.  [findNextHop] returns the target of the first edge, in the order
    of the edge list, that leaves the current node for a node not yet on
    the path of the request; it returns nothing exactly when every edge
    that leaves the current node leads to a node already on the path. *)
Theorem findNextHop_takes_first_unvisited edges currentNodeId request :
  match findNextHop edges currentNodeId request with
  | Some nextHop =>
      exists before e after,
        edges = before ++ e :: after
        /\ source e = currentNodeId
        /\ target e = nextHop
        /\ ~ In nextHop (path request)
        /\ forall e', In e' before -> source e' = currentNodeId ->
                      In (target e') (path request)
  | None =>
      forall e, In e edges -> source e = currentNodeId ->
                In (target e) (path request)
  end.
Proof.
  unfold findNextHop. induction edges as [|e0 rest IH]; simpl.
  - intros e [].
  - destruct (String.eqb (source e0) currentNodeId) eqn:Es; simpl.
    + apply String.eqb_eq in Es.
      destruct (includes (path request) (target e0)) eqn:Ei; simpl.
      * apply includes_In in Ei.
        destruct (filter _ (filter _ rest)) as [|e1 l1].
        -- intros e [<-|He] Hs; [assumption | apply IH; assumption].
        -- destruct IH as (before & e & after & -> & H1 & H2 & H3 & H4).
           exists (e0 :: before), e, after. repeat split; try assumption.
           intros e' [<-|He'] Hs; [assumption | apply H4; assumption].
      * exists [], e0, rest. repeat split; try assumption.
        -- intros H. apply includes_In in H. congruence.
        -- intros e' [].
    + apply String.eqb_neq in Es.
      destruct (filter _ (filter _ rest)) as [|e1 l1].
      * intros e [<-|He] Hs; [contradiction | apply IH; assumption].
      * destruct IH as (before & e & after & -> & H1 & H2 & H3 & H4).
        exists (e0 :: before), e, after. repeat split; try assumption.
        intros e' [<-|He'] Hs; [contradiction | apply H4; assumption].
Qed.


Lemma handleNodeProcessing_randomCalls_le config rnd node request s :
  randomCalls s <= randomCalls (handleNodeProcessing config rnd node request s).
Proof.
  unfold handleNodeProcessing, random.
  destruct (mapGet _ _); [|apply Nat.le_refl].
  destruct (type (data node)); simpl; try lia;
    destruct (Num.Qltb _ _); simpl; lia.
Qed.

(** X12.  A request that is on its way to a node of the graph, over a hop
    of positive total latency, only accrues latency until the total has
    elapsed: the engine is untouched and no random number is drawn.  In
    the tick in which the total has elapsed the target joins the path and
    the request is no longer pending. *)
Theorem hop_lasts_its_total_latency
    nodes edges config rnd deltaTime request s targetNode :
  let totalLatency :=
    (getNetworkLatency nodes config (last (map Some (path request)) None)
       (targetNodeId request)
     + getProcessingLatency config targetNode)%Q in
  let elapsed := (currentLatency request + deltaTime)%Q in
  let result := processRequest nodes edges config rnd deltaTime request s in
  isTerminal (r_status request) = false ->
  getNodeById nodes (targetNodeId request) = Some targetNode ->
  (0 < totalLatency)%Q ->
  ((elapsed < totalLatency)%Q ->
   result
   = (set_progress (Num.Fin (elapsed / totalLatency))
        (set_currentLatency elapsed request), s, false))
  /\ ((totalLatency <= elapsed)%Q ->
      path (fst (fst result)) = path request ++ [targetNodeId request]
      /\ r_status (fst (fst result)) <> pending
      /\ randomCalls s < randomCalls (snd (fst result))).
Proof.
  intros totalLatency elapsed result Hterm Hnode Hpos. subst result.
  unfold processRequest. rewrite Hterm, Hnode.
  fold totalLatency.
  cbn [currentLatency set_currentLatency progress set_progress].
  fold elapsed.
  assert (Hnz : Qeq_bool totalLatency 0 = false).
  { destruct (Qeq_bool totalLatency 0) eqn:E; [|reflexivity].
    apply Qeq_bool_iff in E. rewrite E in Hpos. discriminate. }
  unfold Num.div. rewrite Hnz.
  split.
  - intros Hlt.
    assert (H1 : (elapsed / totalLatency < 1)%Q).
    { apply Qlt_shift_div_r; [assumption|]. rewrite Qmult_1_l. assumption. }
    assert (Hmin : Num.min (Num.Fin (elapsed / totalLatency)) (Num.Fin 1)
                   = Num.Fin (elapsed / totalLatency)).
    { unfold Num.min, Num.ltb, Num.Qltb.
      destruct (Qle_bool (elapsed / totalLatency) 1) eqn:E; [reflexivity|].
      apply Qlt_le_weak, Qle_bool_iff in H1. congruence. }
    rewrite Hmin. unfold Num.geb.
    destruct (Qle_bool 1 (elapsed / totalLatency)) eqn:E; [|reflexivity].
    apply Qle_bool_iff in E. apply Qle_not_lt in E. contradiction.
  - intros Hle.
    assert (H1 : (1 <= elapsed / totalLatency)%Q).
    { apply Qle_shift_div_l; [assumption|]. rewrite Qmult_1_l. assumption. }
    assert (Hgeb : Num.geb
                     (Num.min (Num.Fin (elapsed / totalLatency)) (Num.Fin 1))
                     (Num.Fin 1) = true).
    { unfold Num.min, Num.ltb, Num.Qltb.
      destruct (Qle_bool (elapsed / totalLatency) 1); simpl;
        [apply Qle_bool_iff; assumption | reflexivity]. }
    rewrite Hgeb. unfold random.
    destruct (Num.Qltb _ (errorRate config)).
    + simpl. repeat split; [discriminate | lia].
    + destruct (findNextHop _ _ _); simpl;
        (repeat split; [discriminate|]).
      all: pose proof (handleNodeProcessing_randomCalls_le config rnd targetNode
             (set_path (path request ++ [targetNodeId request])
                (set_progress
                   (Num.min (Num.Fin (elapsed / totalLatency)) (Num.Fin 1))
                   (set_currentLatency elapsed request)))
             (set_randomCalls (S (randomCalls s)) s)) as Hr;
        simpl in Hr; lia.
Qed.

(** X12, witness: a request on a hop of 15ms after a tick of 10ms. *)
Lemma hop_lasts_its_total_latency_witness :
  let nodes := pipelineNodes in
  let config := sampleConfig in
  let result :=
    processRequest nodes pipelineEdges config halves 10 sampleRequest
      (initializeState nodes config) in
  ((0 + 10 < 10 + 5)%Q ->
   result
   = (set_progress (Num.Fin ((0 + 10) / (10 + 5)))
        (set_currentLatency (0 + 10) sampleRequest),
      initializeState nodes config, false))
  /\ ((10 + 5 <= 0 + 10)%Q ->
      path (fst (fst result)) = path sampleRequest ++ [targetNodeId sampleRequest]
      /\ r_status (fst (fst result)) <> pending
      /\ randomCalls (initializeState nodes config)
         < randomCalls (snd (fst result))).
Proof.
  apply (hop_lasts_its_total_latency pipelineNodes pipelineEdges sampleConfig
           halves 10 sampleRequest (initializeState pipelineNodes sampleConfig)
           queueNode); reflexivity.
Defined.

(** ** Removal of finished requests *)

Lemma processRequest_id nodes edges config rnd deltaTime request s :
  r_id (fst (fst (processRequest nodes edges config rnd deltaTime request s)))
  = r_id request
  /\ snd (processRequest nodes edges config rnd deltaTime request s)
     = isTerminal (r_status request).
Proof.
  unfold processRequest, random.
  destruct (isTerminal (r_status request)); [split; reflexivity|].
  destruct (getNodeById nodes _); [|split; reflexivity].
  destruct (Num.geb _ _); [|split; reflexivity].
  destruct (Num.Qltb _ _); [split; reflexivity|].
  destruct (findNextHop _ _ _); split; reflexivity.
Qed.

Lemma processLoop_ids nodes edges config rnd deltaTime requests s :
  map r_id (fst (fst (processLoop nodes edges config rnd deltaTime requests s)))
  = map r_id requests
  /\ snd (fst (processLoop nodes edges config rnd deltaTime requests s))
     = map r_id (filter (fun r => isTerminal (r_status r)) requests).
Proof.
  revert s. induction requests as [|request rest IH]; intros s; simpl;
    [split; reflexivity|].
  destruct (processRequest_id nodes edges config rnd deltaTime request s)
    as [Hid Hdone].
  destruct (processRequest nodes edges config rnd deltaTime request s)
    as [[request' s1] done].
  simpl in Hid, Hdone. subst done.
  destruct (IH s1) as [H1 H2].
  destruct (processLoop nodes edges config rnd deltaTime rest s1)
    as [[rest' completedRequests] s2].
  simpl in *. rewrite Hid, H1, H2.
  destruct (isTerminal (r_status request)); split; reflexivity.
Qed.

Lemma filter_map_comm {A B : Type} (f : A -> B) (h : B -> bool) (l : list A) :
  map f (filter (fun x => h (f x)) l) = filter h (map f l).
Proof.
  induction l as [|x l IH]; simpl; [reflexivity|].
  destruct (h (f x)); simpl; rewrite IH; reflexivity.
Qed.

(** X13.  [processRequests] drops from the active requests exactly those
    that were already completed or failed when the tick began: a request
    that finishes in a tick stays listed until the next tick. *)
Theorem finished_requests_leave_one_tick_later
    nodes edges config rnd deltaTime s :
  NoDup (map r_id (activeRequests s)) ->
  map r_id (activeRequests (processRequests nodes edges config rnd deltaTime s))
  = map r_id
      (filter (fun r => negb (isTerminal (r_status r))) (activeRequests s)).
Proof.
  intros Hnd. unfold processRequests.
  destruct (processLoop_ids nodes edges config rnd deltaTime
              (activeRequests s) s) as [Hids Hdone].
  destruct (processLoop nodes edges config rnd deltaTime (activeRequests s) s)
    as [[requests completedRequests] s1].
  simpl in *. subst completedRequests.
  set (done := map r_id (filter (fun r => isTerminal (r_status r))
                           (activeRequests s))).
  rewrite (filter_map_comm r_id
             (fun i => negb (existsb (Nat.eqb i) done)) requests).
  rewrite Hids, <- filter_map_comm. f_equal.
  apply filter_ext_in. intros r Hr. f_equal.
  destruct (isTerminal (r_status r)) eqn:Hterm.
  - apply existsb_exists. exists (r_id r). split; [|apply Nat.eqb_refl].
    apply in_map, filter_In. split; assumption.
  - destruct (existsb _ done) eqn:E; [|reflexivity].
    apply existsb_exists in E. destruct E as [i [Hi Heq]].
    apply Nat.eqb_eq in Heq. subst i.
    apply in_map_iff in Hi. destruct Hi as [r' [Hid Hr']].
    apply filter_In in Hr'. destruct Hr' as [Hin' Hterm'].
    assert (r' = r); [|congruence].
    clear - Hnd Hr Hin' Hid. induction (activeRequests s) as [|x l IH];
      [contradiction|].
    simpl in Hnd. apply NoDup_cons_iff in Hnd. destruct Hnd as [Hx Hl].
    destruct Hr as [->|Hr], Hin' as [->|Hin']; try reflexivity.
    + elim Hx. rewrite <- Hid. apply in_map. assumption.
    + elim Hx. rewrite Hid. apply in_map. assumption.
    + apply IH; assumption.
Qed.

(** X13, witness: the engine after one tick, whose only request has
    completed. *)
Lemma finished_requests_leave_one_tick_later_witness :
  let s := run clientDbNodes clientDbEdges sampleConfig halves
             [CallStart; TimerFires] in
  map r_id
    (activeRequests
       (processRequests clientDbNodes clientDbEdges sampleConfig halves 100 s))
  = map r_id
      (filter (fun r => negb (isTerminal (r_status r))) (activeRequests s)).
Proof.
  apply finished_requests_leave_one_tick_later.
  vm_compute. constructor; [intros [] | constructor].
Defined.

(** ** Request generation and the exceptions of a tick *)


Section Generation.

Variable nodes : list SystemNode.
Variable edges : list SystemEdge.
Variable config : SimulationConfig.
Variable rnd : nat -> Q.

Hypothesis draws : unitInterval rnd.






End Generation.





Lemma tick_stalled edges config rnd s :
  chaosMode config = true ->
  (forall i, (rnd i < 5 # 100)%Q) ->
  activeRequests s = [] -> nodeMetrics s = [] ->
  exists s',
    tick [] edges config rnd s = (s', Thrown)
    /\ metricsHistory s' = metricsHistory s
    /\ activeRequests s' = [] /\ nodeMetrics s' = [].
Proof.
  intros Hchaos Hlow Ha Hm. unfold tick, generateRequests. simpl.
  unfold processRequests. simpl. rewrite Ha. simpl.
  rewrite Hchaos.
  assert (Hs : checkAutoScaling []
                 (updateMetrics
                    (set_activeRequests []
                       (set_currentTime (currentTime s + tickRate config)%Q s)))
               = updateMetrics
                   (set_activeRequests []
                      (set_currentTime (currentTime s + tickRate config)%Q s))).
  { unfold checkAutoScaling, updateMetrics. simpl. rewrite Hm. reflexivity. }
  assert (Hroll : forall x, Num.Qltb (rnd x) (5 # 100) = true).
  { intros x. unfold Num.Qltb. destruct (Qle_bool _ _) eqn:E; [|reflexivity].
    apply Qle_bool_iff in E. apply Qle_not_lt in E. elim E. apply Hlow. }
  assert (Hnone : forall i, @arrayAt SystemNode [] i = None).
  { intros i. unfold arrayAt. destruct (i <? 0)%Z; [reflexivity|].
    destruct (Z.to_nat i); reflexivity. }
  destruct (autoScaling config); rewrite ?Hs;
    unfold applyChaosEffects, random; rewrite Hroll, Hnone;
    eexists; (split; [reflexivity|]); simpl; rewrite Hm; auto.
Qed.

(** X16.  Over the empty graph in chaos mode every tick whose chaos roll
    is below 5% throws before the snapshot and before the check of the
    duration: when every draw is that low the engine never completes and
    never records a snapshot, whatever the duration and the calls. *)
Theorem empty_graph_in_chaos_never_completes edges config rnd calls :
  chaosMode config = true ->
  (forall i, (rnd i < 5 # 100)%Q) ->
  stalled (run [] edges config rnd calls).
Proof.
  intros Hchaos Hlow.
  induction calls as [|c calls IH] using rev_ind.
  - repeat split. discriminate.
  - rewrite run_snoc. destruct IH as (Hst & Hh & Ha & Hm).
    set (s := run [] edges config rnd calls) in *.
    assert (Hcore : forall s', core s' = core s -> status s' <> COMPLETED ->
                               stalled s').
    { intros s' Hc Hs'. unfold core in Hc.
      injection Hc as Ha' Hm' _ _ Hh' _.
      repeat split; congruence. }
    assert (Hhost : forall c0, c0 <> TimerFires ->
              stalled (step [] edges config rnd s c0)).
    { intros c0 Hc0. apply Hcore.
      - destruct c0; cbn [step];
          [ apply core_start | apply core_pause | apply core_resume
          | apply core_stop | apply core_setSpeed | elim Hc0; reflexivity ].
      - apply host_call_never_completes; assumption. }
    destruct c; try (apply Hhost; discriminate). cbn [step].
    destruct (intervalId s); [|repeat split; assumption].
      unfold intervalCallback.
      destruct (negb _); [repeat split; assumption|].
      destruct (tick_stalled edges config rnd s Hchaos Hlow Ha Hm)
        as (s' & Ht & Hh' & Ha' & Hm').
      pose proof (tick_control [] edges config rnd s) as Hc.
      rewrite Ht in *. simpl in Hc. unfold control in Hc.
      injection Hc as Hs' _ _ _.
      repeat split; congruence.
Qed.

(** X16, witness: three ticks over the empty graph with every draw equal
    to 0. *)
Lemma empty_graph_in_chaos_never_completes_witness :
  stalled (run [] [] idleConfig zeros
             [CallStart; TimerFires; TimerFires; TimerFires]).
Proof.
  apply empty_graph_in_chaos_never_completes; [reflexivity|].
  intros i. reflexivity.
Defined.



(** ** What the engine does to the metrics of a node *)

Lemma keyedRel_refl R m : (forall k v, R k v v) -> keyedRel R m m.
Proof.
  intros H. induction m as [|[k v] m IH]; constructor; auto.
Qed.

Lemma keyedRel_trans R m1 m2 m3 :
  (forall k a b c, R k a b -> R k b c -> R k a c) ->
  keyedRel R m1 m2 -> keyedRel R m2 m3 -> keyedRel R m1 m3.
Proof.
  intros HR H12. revert m3.
  induction H12 as [|a b m1 m2 [Hk Hab] _ IH]; intros m3 H23;
    inversion H23 as [|b' c m2' m3' [Hk' Hbc] Hrest]; subst; constructor.
  - split; [congruence|]. eapply HR; [eassumption|]. rewrite Hk. assumption.
  - apply IH. assumption.
Qed.

Lemma keyedRel_mapSet R k v v' m :
  (forall k v, R k v v) ->
  mapGet k m = Some v -> R k v v' -> keyedRel R m (mapSet k v' m).
Proof.
  intros Hrefl. induction m as [|[k0 v0] m IH]; simpl; [discriminate|].
  destruct (String.eqb k0 k) eqn:E.
  - intros Hv HR. injection Hv as ->. apply String.eqb_eq in E. subst k0.
    constructor; [split; [reflexivity | assumption]|].
    apply keyedRel_refl. assumption.
  - intros Hv HR. constructor; [split; [reflexivity | apply Hrefl]|].
    apply IH; assumption.
Qed.

Lemma keyedRel_keys R m m' : keyedRel R m m' -> map fst m' = map fst m.
Proof.
  induction 1 as [|a b m m' [Hk _] _ IH]; simpl; [reflexivity|]. congruence.
Qed.

Lemma keyedRel_Forall R (P : string -> NodeMetrics -> Prop) m m' :
  (forall k a b, R k a b -> P k a -> P k b) ->
  keyedRel R m m' ->
  Forall (fun kv => P (fst kv) (snd kv)) m ->
  Forall (fun kv => P (fst kv) (snd kv)) m'.
Proof.
  intros HR. induction 1 as [|a b m m' [Hk Hab] _ IH]; intros HF;
    [constructor|].
  apply Forall_cons_iff in HF. destruct HF as [Ha Hm].
  constructor; [|auto]. rewrite <- Hk. eapply HR; eassumption.
Qed.

Section NodeMetricsOfATick.

Variable nodes : list SystemNode.
Variable edges : list SystemEdge.
Variable config : SimulationConfig.
Variable rnd : nat -> Q.

Lemma rewritten_refl now m : rewritten nodes now m m.
Proof. apply keyedRel_refl. intros k v. apply rt_refl. Qed.

Lemma rewritten_trans now m1 m2 m3 :
  rewritten nodes now m1 m2 -> rewritten nodes now m2 m3 ->
  rewritten nodes now m1 m3.
Proof.
  apply keyedRel_trans. intros k a b c. apply rt_trans.
Qed.

Lemma handleNodeProcessing_nodeMetrics node request s :
  nodeMetrics (handleNodeProcessing config rnd node request s)
  = match mapGet (n_id node) (nodeMetrics s) with
    | Some metrics =>
        mapSet (n_id node) (touched node (currentTime s) metrics) (nodeMetrics s)
    | None => nodeMetrics s
    end.
Proof.
  unfold handleNodeProcessing, touched, random.
  destruct (mapGet _ _); [|reflexivity].
  destruct (type (data node)); simpl; try reflexivity;
    destruct (Num.Qltb _ _); reflexivity.
Qed.

Lemma getNodeById_id nodeId node :
  getNodeById nodes nodeId = Some node -> n_id node = nodeId.
Proof.
  unfold getNodeById. intros H. apply find_some in H. destruct H as [_ H].
  apply String.eqb_eq. assumption.
Qed.

Lemma handleNodeProcessing_rewritten nodeId node request s :
  getNodeById nodes nodeId = Some node ->
  rewritten nodes (currentTime s) (nodeMetrics s)
    (nodeMetrics (handleNodeProcessing config rnd node request s)).
Proof.
  intros Hnode. rewrite handleNodeProcessing_nodeMetrics.
  pose proof (getNodeById_id _ _ Hnode) as Hid.
  destruct (mapGet _ _) as [metrics|] eqn:Hget; [|apply rewritten_refl].
  eapply keyedRel_mapSet; [intros; apply rt_refl | eassumption |].
  apply rt_step. rewrite Hid. constructor; assumption.
Qed.

Lemma logged_currentTime s s' : logged s s' -> currentTime s' = currentTime s.
Proof. intros [l [H _]]. apply (t_time _ _ _ H). Qed.

Lemma processRequest_rewritten deltaTime request s :
  rewritten nodes (currentTime s) (nodeMetrics s)
    (nodeMetrics
       (snd (fst (processRequest nodes edges config rnd deltaTime request s)))).
Proof.
  unfold processRequest, random.
  destruct (isTerminal _); simpl; [apply rewritten_refl|].
  destruct (getNodeById nodes _) as [targetNode|] eqn:Hnode; simpl;
    [|apply rewritten_refl].
  destruct (Num.geb _ _); simpl; [|apply rewritten_refl].
  destruct (Num.Qltb _ _); simpl; [apply rewritten_refl|].
  destruct (findNextHop edges _ _); simpl;
    match goal with
    | |- context [handleNodeProcessing config rnd ?n ?r ?x] =>
        exact (handleNodeProcessing_rewritten _ n r x Hnode)
    end.
Qed.

Lemma processLoop_rewritten deltaTime requests s :
  rewritten nodes (currentTime s) (nodeMetrics s)
    (nodeMetrics (snd (processLoop nodes edges config rnd deltaTime requests s))).
Proof.
  revert s. induction requests as [|r rest IH]; intros s; simpl;
    [apply rewritten_refl|].
  pose proof (processRequest_rewritten deltaTime r s) as H1.
  pose proof (logged_currentTime _ _
                (processRequest_logged nodes edges config rnd deltaTime r s))
    as Ht.
  destruct (processRequest nodes edges config rnd deltaTime r s)
    as [[r' s1] done].
  simpl in H1, Ht. specialize (IH s1). rewrite Ht in IH.
  destruct (processLoop nodes edges config rnd deltaTime rest s1)
    as [[rest' ids] s2].
  simpl in *. eapply rewritten_trans; eassumption.
Qed.

Lemma processRequests_rewritten deltaTime s :
  rewritten nodes (currentTime s) (nodeMetrics s)
    (nodeMetrics (processRequests nodes edges config rnd deltaTime s)).
Proof.
  unfold processRequests.
  pose proof (processLoop_rewritten deltaTime (activeRequests s) s) as H.
  destruct (processLoop _ _ _ _ _ _ _) as [[rs ids] s1]. exact H.
Qed.

Lemma generateOne_nodeMetrics clientNodes s :
  nodeMetrics (fst (generateOne nodes edges config rnd clientNodes s))
  = nodeMetrics s.
Proof.
  unfold generateOne, random.
  destruct (arrayAt clientNodes _); [|reflexivity].
  destruct (filter _ edges) as [|e es]; [reflexivity|].
  destruct (arrayAt (e :: es) _); reflexivity.
Qed.

Lemma generateLoop_nodeMetrics count clientNodes s :
  nodeMetrics (fst (generateLoop nodes edges config rnd count clientNodes s))
  = nodeMetrics s.
Proof.
  revert s. induction count as [|k IH]; intros s; simpl; [reflexivity|].
  pose proof (generateOne_nodeMetrics clientNodes s) as H1.
  destruct (generateOne nodes edges config rnd clientNodes s) as [s1 [|]];
    simpl in H1; [|assumption].
  rewrite IH. assumption.
Qed.

Lemma generateRequests_nodeMetrics s :
  nodeMetrics (fst (generateRequests nodes edges config rnd s)) = nodeMetrics s.
Proof.
  unfold generateRequests, random.
  destruct (filter _ nodes); [reflexivity|].
  rewrite generateLoop_nodeMetrics. reflexivity.
Qed.

Lemma updateMetrics_rewritten now s :
  rewritten nodes now (nodeMetrics s) (nodeMetrics (updateMetrics s)).
Proof.
  unfold updateMetrics. simpl.
  induction (nodeMetrics s) as [|[k v] m IH]; simpl; constructor; [|exact IH].
  split; [reflexivity|]. apply rt_step. constructor.
Qed.

Lemma scaleLoop_rewritten now entries s :
  rewritten nodes now entries (fst (scaleLoop nodes entries s)).
Proof.
  revert s. induction entries as [|[k v] rest IH]; intros s; simpl;
    [constructor|].
  pose proof (step_scaled nodes now k v s) as H1.
  destruct (scaleNode nodes k v s) as [m1 s1]. simpl in H1.
  specialize (IH s1). destruct (scaleLoop nodes rest s1) as [rest' s2].
  simpl in *. constructor; [|exact IH].
  split; [reflexivity|]. apply rt_step. exact H1.
Qed.

Lemma checkAutoScaling_rewritten now s :
  rewritten nodes now (nodeMetrics s) (nodeMetrics (checkAutoScaling nodes s)).
Proof.
  unfold checkAutoScaling.
  pose proof (scaleLoop_rewritten now (nodeMetrics s) s) as H.
  destruct (scaleLoop nodes (nodeMetrics s) s) as [entries s1]. exact H.
Qed.

Lemma applyChaosEffects_nodeMetrics s :
  nodeMetrics (fst (applyChaosEffects nodes rnd s)) = nodeMetrics s.
Proof.
  unfold applyChaosEffects, random.
  destruct (Num.Qltb _ _); [|reflexivity].
  destruct (arrayAt nodes _); reflexivity.
Qed.

(** A tick rewrites the metrics map entry by entry, at the time to which
    it has advanced the clock. *)
Lemma tick_rewritten s :
  rewritten nodes (currentTime s + tickRate config)%Q (nodeMetrics s)
    (nodeMetrics (fst (tick nodes edges config rnd s))).
Proof.
  unfold tick.
  set (s1 := set_currentTime (currentTime s + tickRate config)%Q s).
  pose proof (generateRequests_nodeMetrics s1) as H2.
  pose proof (logged_currentTime _ _
                (generateRequests_logged nodes edges config rnd s1)) as Ht.
  destruct (generateRequests nodes edges config rnd s1) as [s2 [|]];
    simpl in H2, Ht; [|simpl; rewrite H2; apply rewritten_refl].
  change (currentTime s1) with (currentTime s + tickRate config)%Q in Ht.
  pose proof (processRequests_rewritten (tickRate config) s2) as H3.
  rewrite Ht, H2 in H3. change (nodeMetrics s1) with (nodeMetrics s) in H3.
  set (s3 := processRequests nodes edges config rnd (tickRate config) s2) in *.
  assert (H5 : rewritten nodes (currentTime s + tickRate config)%Q
                 (nodeMetrics s)
                 (nodeMetrics (if autoScaling config
                               then checkAutoScaling nodes (updateMetrics s3)
                               else updateMetrics s3))).
  { eapply rewritten_trans; [exact H3|].
    eapply rewritten_trans; [apply updateMetrics_rewritten|].
    destruct (autoScaling config);
      [apply checkAutoScaling_rewritten | apply rewritten_refl]. }
  set (s5 := if autoScaling config then _ else _) in *.
  assert (H6 : nodeMetrics
                 (fst (if chaosMode config
                       then applyChaosEffects nodes rnd s5 else (s5, Normal)))
               = nodeMetrics s5).
  { destruct (chaosMode config);
      [apply applyChaosEffects_nodeMetrics | reflexivity]. }
  destruct (if chaosMode config then _ else _) as [s6 [|]]; simpl in *;
    [|rewrite H6; exact H5].
  destruct (isMultipleOf1000 (currentTime s6)); simpl; rewrite H6; exact H5.
Qed.

Lemma host_call_core s c :
  c <> TimerFires -> core (step nodes edges config rnd s c) = core s.
Proof.
  intros Hc. destruct c; cbn [step];
    [ apply core_start | apply core_pause | apply core_resume
    | apply core_stop | apply core_setSpeed | elim Hc; reflexivity ].
Qed.

(** The metrics map after a call: as it was, or rewritten at the time of
    the tick that the call ran. *)
Lemma step_rewritten s c :
  rewritten nodes (currentTime (step nodes edges config rnd s c))
    (nodeMetrics s) (nodeMetrics (step nodes edges config rnd s c)).
Proof.
  assert (Hsame : forall now s', core s' = core s ->
            rewritten nodes now (nodeMetrics s) (nodeMetrics s')).
  { intros now s' Hc. unfold core in Hc. injection Hc as _ Hm _ _ _ _.
    rewrite Hm. apply rewritten_refl. }
  destruct c; try (apply Hsame, host_call_core; discriminate).
  cbn [step]. destruct (intervalId s); [|apply rewritten_refl].
  unfold intervalCallback. destruct (negb _); [apply rewritten_refl|].
  pose proof (tick_rewritten s) as H.
  pose proof (tick_currentTime nodes edges config rnd s) as Ht.
  destruct (tick nodes edges config rnd s) as [s1 [|]]; simpl in H, Ht;
    [|rewrite Ht; exact H].
  destruct (Qle_bool _ _); [|rewrite Ht; exact H].
  rewrite (announced_currentTime _ _ (complete_announced s1)), Ht.
  pose proof (core_complete s1) as Hc. unfold core in Hc.
  injection Hc as _ Hm _ _ _ _. rewrite Hm. exact H.
Qed.

(** A property of the entries that every rewriting at a time that can
    occur keeps, holds of every entry after every run, once the
    constructor has established it. *)
Lemma run_nodesSatisfy (G : Q -> Prop) (P : string -> NodeMetrics -> Prop) :
  (forall now k m m', G now -> nodeStep nodes now k m m' -> P k m -> P k m') ->
  (forall calls, G (currentTime (run nodes edges config rnd calls))) ->
  nodesSatisfy P (initializeState nodes config) ->
  forall calls, nodesSatisfy P (run nodes edges config rnd calls).
Proof.
  intros Hstep HG Hinit calls.
  induction calls as [|c calls IH] using rev_ind; [exact Hinit|].
  pose proof (HG (calls ++ [c])) as Hnow. rewrite run_snoc in *.
  eapply keyedRel_Forall; [|apply step_rewritten | exact IH].
  simpl. intros k a b Hab. induction Hab as [a b H| |]; auto.
  eapply Hstep; eassumption.
Qed.

End NodeMetricsOfATick.

(** ** Invariants of the metrics map *)

Lemma keyed_Forall_mapSet (P : string -> NodeMetrics -> Prop) k v m :
  Forall (fun kv => P (fst kv) (snd kv)) m -> P k v ->
  Forall (fun kv => P (fst kv) (snd kv)) (mapSet k v m).
Proof.
  intros Hm Hv. induction Hm as [|[k0 v0] m H0 Hm IH]; simpl.
  - constructor; auto.
  - destruct (String.eqb k0 k) eqn:E; constructor; auto.
    apply String.eqb_eq in E. subst k0. assumption.
Qed.

Lemma mapSet_keys k v m :
  (forall x, In x (map fst (mapSet k v m)) <-> x = k \/ In x (map fst m))
  /\ (NoDup (map fst m) -> NoDup (map fst (mapSet k v m))).
Proof.
  induction m as [|[k0 v0] m [IH1 IH2]]; simpl.
  - split; [intros x; split; intros [H|H]; auto|].
    intros _. constructor; [intros []|constructor].
  - destruct (String.eqb k0 k) eqn:E; simpl.
    + apply String.eqb_eq in E. subst k0. split; [|auto].
      intros x. split; [intros [H|H]; auto | intros [H|[H|H]]; auto].
    + split.
      * intros x. rewrite IH1. tauto.
      * intros Hnd. apply NoDup_cons_iff in Hnd. destruct Hnd as [Hk Hm].
        constructor; [|auto]. rewrite IH1. intros [H|H]; [|contradiction].
        apply String.eqb_neq in E. congruence.
Qed.

Lemma mapGet_In k v m : mapGet k m = Some v -> In (k, v) m.
Proof.
  induction m as [|[k0 v0] m IH]; simpl; [discriminate|].
  destruct (String.eqb k0 k) eqn:E; [|auto].
  intros [= <-]. apply String.eqb_eq in E. subst k0. left. reflexivity.
Qed.

Section MetricsInvariants.

Variable nodes : list SystemNode.
Variable edges : list SystemEdge.
Variable config : SimulationConfig.
Variable rnd : nat -> Q.

Lemma initial_nodesSatisfy (P : string -> NodeMetrics -> Prop) :
  (forall node, In node nodes -> P (n_id node) (initialNodeMetrics config node)) ->
  nodesSatisfy P (initializeState nodes config).
Proof.
  unfold nodesSatisfy, initializeState. simpl. intros H.
  assert (G : forall l acc,
            (forall node, In node l ->
                          P (n_id node) (initialNodeMetrics config node)) ->
            Forall (fun kv => P (fst kv) (snd kv)) acc ->
            Forall (fun kv => P (fst kv) (snd kv))
              (fold_left
                 (fun m node =>
                    mapSet (n_id node) (initialNodeMetrics config node) m)
                 l acc)).
  { induction l as [|node l IH]; intros acc Hl Hacc; simpl; [assumption|].
    apply IH; [intros n Hn; apply Hl; right; assumption|].
    apply keyed_Forall_mapSet; [assumption|]. apply Hl. left. reflexivity. }
  apply G; [assumption | constructor].
Qed.

Lemma initial_keys :
  NoDup (keys (initializeState nodes config))
  /\ forall k, In k (keys (initializeState nodes config))
               <-> In k (map n_id nodes).
Proof.
  unfold keys, initializeState. simpl.
  assert (G : forall l acc,
            NoDup (map fst acc) ->
            let m := fold_left
                       (fun m node =>
                          mapSet (n_id node) (initialNodeMetrics config node) m)
                       l acc in
            NoDup (map fst m)
            /\ forall k, In k (map fst m)
                         <-> In k (map fst acc) \/ In k (map n_id l)).
  { induction l as [|node l IH]; intros acc Hacc; simpl.
    - split; [assumption|]. intros k. tauto.
    - destruct (mapSet_keys (n_id node) (initialNodeMetrics config node) acc)
        as [H1 H2].
      destruct (IH _ (H2 Hacc)) as [H3 H4]. split; [exact H3|].
      intros k. rewrite H4, H1. intuition congruence. }
  destruct (G nodes [] (NoDup_nil _)) as [H1 H2]. split; [exact H1|].
  intros k. rewrite H2. simpl. tauto.
Qed.

Lemma run_keys calls :
  keys (run nodes edges config rnd calls) = keys (initializeState nodes config).
Proof.
  induction calls as [|c calls IH] using rev_ind; [reflexivity|].
  rewrite run_snoc, <- IH. unfold keys.
  eapply keyedRel_keys, step_rewritten.
Qed.

Lemma getNodeById_NoDup node :
  NoDup (map n_id nodes) -> In node nodes ->
  getNodeById nodes (n_id node) = Some node.
Proof.
  unfold getNodeById. induction nodes as [|n l IH]; simpl; [contradiction|].
  intros Hnd Hin. apply NoDup_cons_iff in Hnd. destruct Hnd as [Hn Hl].
  destruct Hin as [->|Hin]; [rewrite String.eqb_refl; reflexivity|].
  destruct (String.eqb (n_id n) (n_id node)) eqn:E; [|auto].
  apply String.eqb_eq in E. elim Hn. rewrite E. apply in_map. assumption.
Qed.

Lemma touched_deadFields node now k m :
  deadFields k m -> deadFields k (touched node now m).
Proof.
  intros H. unfold touched, deadFields.
  destruct (type (data node)); exact H.
Qed.

Lemma scaleNode_deadFields k m s :
  deadFields k m -> deadFields k (fst (scaleNode nodes k m s)).
Proof.
  intros H. unfold scaleNode, scaleUp, scaleDown.
  destruct (getNodeById nodes k); [|exact H].
  destruct (negb _); [exact H|].
  destruct (Num.gtb _ _ && _); simpl; destruct (Num.ltb _ _ && _); exact H.
Qed.

Lemma run_deadFields calls :
  nodesSatisfy deadFields (run nodes edges config rnd calls).
Proof.
  apply (run_nodesSatisfy nodes edges config rnd (fun _ => True)).
  - intros now k m m' _ Hstep H. destruct Hstep.
    + apply touched_deadFields. assumption.
    + destruct H as (H1 & H2 & H3 & H4). unfold refreshSuccessRate.
      destruct (0 <? throughput m); [|repeat split; assumption].
      repeat split; simpl; try assumption. rewrite H2. reflexivity.
    + apply scaleNode_deadFields. assumption.
  - intros _. exact I.
  - apply initial_nodesSatisfy. intros node _. repeat split.
Qed.

Lemma touched_bookkept node now k m :
  getNodeById nodes k = Some node ->
  bookkept nodes config k m -> bookkept nodes config k (touched node now m).
Proof.
  intros Hnode H node' Hnode'. rewrite Hnode in Hnode'.
  injection Hnode' as <-. destruct (H node Hnode) as (H1 & H2 & H3 & H4).
  unfold touched. destruct (type (data node)); simpl in *;
    repeat split; try assumption; try reflexivity;
    try (rewrite H2; reflexivity); try (rewrite H1; reflexivity);
    try (intros _; apply H4; discriminate).
Qed.

Lemma scaleNode_bookkept k m s :
  bookkept nodes config k m ->
  bookkept nodes config k (fst (scaleNode nodes k m s)).
Proof.
  intros H. unfold scaleNode.
  destruct (getNodeById nodes k) as [node|] eqn:Hnode; [|exact H].
  destruct (NodeType_eqb (type (data node)) SERVICE) eqn:Ety; [|exact H].
  simpl. intros node' Hnode'. rewrite Hnode in Hnode'. injection Hnode' as <-.
  destruct (H node Hnode) as (H1 & H2 & H3 & H4).
  unfold NodeType_eqb in Ety.
  destruct (NodeType_eq_dec (type (data node)) SERVICE) as [Es|];
    [|discriminate].
  rewrite Es in *. unfold scaleUp, scaleDown.
  destruct (Num.gtb _ _ && _); simpl; destruct (Num.ltb _ _ && _); simpl;
    repeat split; try assumption; intros Hne; elim Hne; reflexivity.
Qed.

(** X18.  When the nodes have distinct ids the counters of every entry
    follow the type of its node: the queue depth of a QUEUE node is the
    number of requests it has processed, nothing being ever dequeued, and
    that of any other node is 0; the query rate of a DATABASE node is that
    number too and other nodes have none; only CACHE nodes have a hit
    rate, the configured one; only SERVICE nodes ever have more than one
    instance. *)
Theorem counters_follow_the_node_type calls :
  NoDup (map n_id nodes) ->
  nodesSatisfy (bookkept nodes config) (run nodes edges config rnd calls).
Proof.
  intros Hnd. apply (run_nodesSatisfy nodes edges config rnd (fun _ => True)).
  - intros now k m m' _ Hstep H. destruct Hstep.
    + apply touched_bookkept; assumption.
    + unfold refreshSuccessRate. destruct (0 <? throughput m); exact H.
    + apply scaleNode_bookkept. assumption.
  - intros _. exact I.
  - apply initial_nodesSatisfy. intros node Hin node' Hnode'.
    rewrite (getNodeById_NoDup node Hnd Hin) in Hnode'.
    injection Hnode' as <-. unfold initialNodeMetrics. simpl.
    unfold NodeType_eqb.
    destruct (NodeType_eq_dec (type (data node)) QUEUE);
      destruct (NodeType_eq_dec (type (data node)) DATABASE);
      repeat split.
Qed.

Lemma cpuLoad_range t now inst :
  0 < t -> (0 <= now)%Q -> (1 <= inst)%Z ->
  exists c, cpuLoad t now inst = Num.Fin c /\ (0 <= c)%Q /\ (c <= 1)%Q.
Proof.
  intros Ht Hnow Hinst. unfold cpuLoad, Num.ofNat, Num.ofZ.
  assert (Hx : (0 < inject_Z (Z.of_nat t))%Q).
  { change 0%Q with (inject_Z 0). rewrite <- Zlt_Qlt. lia. }
  assert (Hi : (1 <= inject_Z inst)%Q).
  { change 1%Q with (inject_Z 1). rewrite <- Zle_Qle. assumption. }
  unfold Num.div at 2.
  destruct (Qeq_bool (now / 1000) 0) eqn:E0.
  - assert (E1 : Qeq_bool (inject_Z (Z.of_nat t)) 0 = false).
    { destruct (Qeq_bool (inject_Z (Z.of_nat t)) 0) eqn:E; [|reflexivity].
      apply Qeq_bool_iff in E. lra. }
    assert (E2 : Num.Qltb 0 (inject_Z (Z.of_nat t)) = true).
    { unfold Num.Qltb.
      destruct (Qle_bool (inject_Z (Z.of_nat t)) 0) eqn:E; [|reflexivity].
      apply Qle_bool_iff in E. lra. }
    rewrite E1, E2. cbn [Num.div]. change (Num.Qltb 100 0) with false.
    cbn [Num.mul]. unfold Num.scaleInf.
    assert (E3 : Qeq_bool (inject_Z inst) 0 = false).
    { destruct (Qeq_bool (inject_Z inst) 0) eqn:E; [|reflexivity].
      apply Qeq_bool_iff in E. lra. }
    assert (E4 : Num.Qltb 0 (inject_Z inst) = true).
    { unfold Num.Qltb.
      destruct (Qle_bool (inject_Z inst) 0) eqn:E; [|reflexivity].
      apply Qle_bool_iff in E. lra. }
    rewrite E3, E4. simpl. exists 1%Q. repeat split; lra.
  - assert (Hd : (0 < now / 1000)%Q).
    { assert (Hne : ~ (now / 1000 == 0)%Q).
      { intros H. apply Qeq_bool_iff in H. congruence. }
      assert (H0 : (0 <= now / 1000)%Q).
      { apply Qle_shift_div_l; [reflexivity | lra]. }
      lra. }
    cbn [Num.div]. change (Qeq_bool 100 0) with false. cbn [Num.mul].
    set (y := (inject_Z (Z.of_nat t) / (now / 1000) / 100 * inject_Z inst)%Q).
    assert (Hy : (0 <= y)%Q).
    { subst y. apply Qmult_le_0_compat; [|lra].
      apply Qle_shift_div_l; [reflexivity|]. rewrite Qmult_0_l.
      apply Qle_shift_div_l; [assumption|]. lra. }
    unfold Num.min, Num.ltb, Num.Qltb.
    destruct (Qle_bool 1 y) eqn:E; simpl.
    + apply Qle_bool_iff in E.
      destruct (Qle_bool y 1) eqn:E'; simpl.
      * apply Qle_bool_iff in E'. exists y. repeat split; assumption.
      * exists 1%Q. repeat split; lra.
    + destruct (Qle_bool y 1) eqn:E'; simpl.
      * apply Qle_bool_iff in E'. exists y. repeat split; assumption.
      * exists 1%Q. repeat split; lra.
Qed.

Lemma touched_cpu node now m :
  cpuUtilization (touched node now m) = cpuLoad (S (throughput m)) now (instances m)
  /\ instances (touched node now m) = instances m.
Proof. unfold touched, cpuLoad. destruct (type (data node)); split; reflexivity. Qed.

Lemma scaleNode_cpuInRange k m s :
  cpuInRange m -> cpuInRange (fst (scaleNode nodes k m s)).
Proof.
  intros H. unfold scaleNode.
  destruct (getNodeById nodes k) as [node|]; [|exact H].
  destruct (negb _); [exact H|].
  assert (Hup : cpuInRange (fst (scaleUp k node m s))).
  { destruct H as [[Hlo Hhi] (c & Hc & H0 & H1)]. unfold scaleUp.
    destruct (Num.gtb _ _ && (instances m <? 10)%Z) eqn:E; simpl;
      [|split; [split; assumption | exists c; auto]].
    apply andb_prop in E. destruct E as [_ E]. apply Z.ltb_lt in E.
    split; [unfold instancesInRange; simpl; lia|].
    rewrite Hc. simpl. exists (c * (8 # 10))%Q. repeat split; lra. }
  destruct (scaleUp k node m s) as [m1 s1]. simpl in *.
  destruct Hup as [[Hlo Hhi] (c & Hc & H0 & H1)]. unfold scaleDown.
  destruct (Num.ltb _ _ && (1 <? instances m1)%Z) eqn:E; simpl;
    [|split; [split; assumption | exists c; auto]].
  apply andb_prop in E. destruct E as [Ecpu E]. apply Z.ltb_lt in E.
  split; [unfold instancesInRange; simpl; lia|].
  rewrite Hc in *. simpl in *. exists (c * (12 # 10))%Q.
  unfold Num.Qltb in Ecpu.
  destruct (Qle_bool (3 # 10) c) eqn:E3; [discriminate|].
  assert (Hlt : (c < 3 # 10)%Q).
  { apply Qnot_le_lt. intros Hle. apply Qle_bool_iff in Hle. congruence. }
  repeat split; lra.
Qed.

Lemma step_clock s c :
  currentTime (step nodes edges config rnd s c) = currentTime s
  \/ currentTime (step nodes edges config rnd s c)
     = (currentTime s + tickRate config)%Q.
Proof.
  destruct (step_announced nodes edges config rnd s c) as [H|H];
    apply announced_currentTime in H; [left | right]; exact H.
Qed.

Lemma run_clock_nonneg calls :
  (0 <= tickRate config)%Q ->
  (0 <= currentTime (run nodes edges config rnd calls))%Q.
Proof.
  intros Hrate. induction calls as [|c calls IH] using rev_ind;
    [apply Qle_refl|].
  rewrite run_snoc.
  destruct (step_clock (run nodes edges config rnd calls) c) as [-> | ->];
    lra.
Qed.

(** X19.  With a tick rate that is not negative the CPU utilisation of
    every node is a finite number between 0 and 1 throughout a run,
    scaling included. *)
Theorem cpu_utilization_is_a_fraction calls :
  (0 <= tickRate config)%Q ->
  nodesSatisfy (fun _ => cpuInRange) (run nodes edges config rnd calls).
Proof.
  intros Hrate.
  apply (run_nodesSatisfy nodes edges config rnd (fun now => (0 <= now)%Q)).
  - intros now k m m' Hnow Hstep H. destruct Hstep.
    + destruct (touched_cpu node now m) as [Hc Hi].
      destruct H as [Hr _]. split.
      * unfold instancesInRange in *. rewrite Hi. assumption.
      * rewrite Hc. apply cpuLoad_range; [lia | assumption | apply Hr].
    + unfold refreshSuccessRate. destruct (0 <? throughput m); exact H.
    + apply scaleNode_cpuInRange. assumption.
  - intros calls'. apply run_clock_nonneg. assumption.
  - apply initial_nodesSatisfy. intros node _. split.
    + unfold instancesInRange. simpl. lia.
    + exists 0%Q. repeat split; simpl; lra.
Qed.

End MetricsInvariants.

(** ** Properties of the metrics map *)

(** X18, witness: two ticks over a client, a queue and a service. *)
Lemma counters_follow_the_node_type_witness :
  nodesSatisfy (bookkept pipelineNodes sampleConfig)
    (run pipelineNodes pipelineEdges sampleConfig halves
       [CallStart; TimerFires; TimerFires]).
Proof.
  apply counters_follow_the_node_type.
  repeat constructor; simpl; intuition discriminate.
Defined.

(** X19, witness: two ticks over a client, a queue and a service. *)
Lemma cpu_utilization_is_a_fraction_witness :
  nodesSatisfy (fun _ => cpuInRange)
    (run pipelineNodes pipelineEdges sampleConfig halves
       [CallStart; TimerFires; TimerFires]).
Proof. apply cpu_utilization_is_a_fraction. simpl. discriminate. Defined.

Lemma collectBottlenecks_In nodes config entries b :
  In b (collectBottlenecks nodes config entries) ->
  exists k m, In (k, m) entries /\ analyzeNode nodes config k m = Some b.
Proof.
  induction entries as [|[k m] rest IH]; simpl; [intros []|].
  destruct (analyzeNode nodes config k m) as [b0|] eqn:E.
  - intros [<-|H]; [exists k, m; auto|].
    destruct (IH H) as (k' & m' & Hin & Ha). exists k', m'. auto.
  - intros H. destruct (IH H) as (k' & m' & Hin & Ha). exists k', m'. auto.
Qed.

Lemma analyzeBottlenecks_In nodes config s b :
  In b (analyzeBottlenecks nodes config s) ->
  exists k m, In (k, m) (nodeMetrics s) /\ analyzeNode nodes config k m = Some b.
Proof.
  intros H. apply collectBottlenecks_In.
  eapply Permutation_in; [|exact H].
  apply Permutation_sym, sortBySeverity_perm.
Qed.

(** X20.  No method writes the error rate or the average latency of a
    node: in every entry of the metrics map, at every point of a run, both
    are 0 and the success rate is 1.  So no bottleneck is ever reported
    for a high error rate. *)
Theorem node_error_rate_never_moves nodes edges config rnd calls :
  nodesSatisfy deadFields (run nodes edges config rnd calls)
  /\ Forall (fun b => ~ In "High error rate detected"%string (issues b))
       (analyzeBottlenecks nodes config (run nodes edges config rnd calls)).
Proof.
  pose proof (run_deadFields nodes edges config rnd calls) as Hdead.
  split; [exact Hdead|].
  apply Forall_forall. intros b Hb.
  destruct (analyzeBottlenecks_In _ _ _ _ Hb) as (k & m & Hin & Ha).
  unfold nodesSatisfy in Hdead. rewrite Forall_forall in Hdead.
  destruct (Hdead _ Hin) as (_ & Herr & _). simpl in Herr.
  unfold analyzeNode in Ha. destruct (getNodeById nodes k); [|discriminate].
  unfold diagnose in Ha. rewrite Herr in Ha.
  change (Num.gtb (Num.Fin 0) (Num.Fin (1 # 10))) with false in Ha.
  destruct (Num.gtb (cpuUtilization m) (Num.Fin (9 # 10)));
    [|destruct (Num.gtb (cpuUtilization m) (Num.Fin (7 # 10)))];
    destruct (Num.Qltb _ _); simpl in Ha; try discriminate;
    injection Ha as <-; simpl; intuition discriminate.
Qed.

(** X21.  The metrics map has one entry for each distinct node id, and no
    call adds, removes or reorders entries. *)
Theorem metrics_map_has_the_node_ids nodes edges config rnd calls :
  keys (run nodes edges config rnd calls)
  = keys (initializeState nodes config)
  /\ NoDup (keys (run nodes edges config rnd calls))
  /\ forall k, In k (keys (run nodes edges config rnd calls))
               <-> In k (map n_id nodes).
Proof.
  rewrite run_keys. split; [reflexivity|]. apply initial_keys.
Qed.

(** ** Properties of the bottleneck analysis *)

Lemma diagnose_shape config m :
  let '(iss, sev, recs) := diagnose config m in
  length iss = length recs /\ length iss <= 3 /\ (iss <> [] -> sev <> low).
Proof.
  unfold diagnose.
  destruct (Num.gtb (cpuUtilization m) (Num.Fin (9 # 10)));
    [|destruct (Num.gtb (cpuUtilization m) (Num.Fin (7 # 10)))];
    destruct (Num.Qltb _ _); destruct (Num.gtb (m_errorRate m) _); simpl;
    repeat split; try lia; try discriminate; intros H; elim H; reflexivity.
Qed.

(** X22.  Every bottleneck that [analyzeBottlenecks] reports, in any
    state of the engine, names a node of the graph by its label, has a
    severity other than low, and lists between one and three issues with
    one recommendation for each. *)
Theorem reports_are_well_formed nodes config s :
  Forall (wellFormedReport nodes) (analyzeBottlenecks nodes config s).
Proof.
  apply Forall_forall. intros b Hb.
  destruct (analyzeBottlenecks_In _ _ _ _ Hb) as (k & m & _ & Ha).
  unfold analyzeNode in Ha.
  destruct (getNodeById nodes k) as [node|] eqn:Hnode; [|discriminate].
  pose proof (diagnose_shape config m) as Hd.
  destruct (diagnose config m) as [[iss sev] recs].
  destruct Hd as (Hlen & Hle & Hsev).
  destruct iss as [|i iss]; [discriminate|]. injection Ha as <-.
  unfold wellFormedReport. simpl.
  repeat split; try assumption; try discriminate.
  - apply Hsev. discriminate.
  - exists node. split; [assumption | reflexivity].
Qed.

(** X23.  After any run the severity of every reported bottleneck
    follows from the queue depth and the CPU utilisation that the report
    carries: high when the queue is over 80% of the configured depth,
    whatever the CPU, and otherwise critical for a CPU over 90% and medium
    below.  A queue near capacity so masks a saturated CPU. *)
Theorem full_queue_masks_critical_cpu nodes edges config rnd calls :
  Forall (fun b => b_severity b = severityOfReport config b)
    (analyzeBottlenecks nodes config (run nodes edges config rnd calls)).
Proof.
  pose proof (run_deadFields nodes edges config rnd calls) as Hdead.
  apply Forall_forall. intros b Hb.
  destruct (analyzeBottlenecks_In _ _ _ _ Hb) as (k & m & Hin & Ha).
  unfold nodesSatisfy in Hdead. rewrite Forall_forall in Hdead.
  destruct (Hdead _ Hin) as (_ & Herr & _). simpl in Herr.
  unfold analyzeNode in Ha. destruct (getNodeById nodes k); [|discriminate].
  unfold diagnose in Ha. rewrite Herr in Ha.
  change (Num.gtb (Num.Fin 0) (Num.Fin (1 # 10))) with false in Ha.
  destruct (Num.gtb (cpuUtilization m) (Num.Fin (9 # 10))) eqn:E9;
    [|destruct (Num.gtb (cpuUtilization m) (Num.Fin (7 # 10)))];
    destruct (Num.Qltb _ _) eqn:Eq; simpl in Ha; try discriminate;
    injection Ha as <-; unfold severityOfReport;
    cbn [b_severity b_metrics maxQueueDepth b_cpuUtilization];
    rewrite Eq, ?E9; reflexivity.
Qed.

(** X24.  The sort of the bottlenecks is stable: the reports of any one
    severity come in the order of the entries of the metrics map. *)
Theorem equal_severities_keep_map_order nodes config s rank :
  filter (fun b => severityOrder (b_severity b) =? rank)
    (analyzeBottlenecks nodes config s)
  = filter (fun b => severityOrder (b_severity b) =? rank)
      (collectBottlenecks nodes config (nodeMetrics s)).
Proof. apply sortBySeverity_stable. Qed.

Lemma collectBottlenecks_ids nodes config entries :
  NoDup (map fst entries) ->
  NoDup (map b_nodeId (collectBottlenecks nodes config entries))
  /\ incl (map b_nodeId (collectBottlenecks nodes config entries))
       (map fst entries)
  /\ length (collectBottlenecks nodes config entries) <= length entries.
Proof.
  induction entries as [|[k m] rest IH]; simpl.
  - intros _. repeat split; [constructor | intros x [] | lia].
  - intros Hnd. apply NoDup_cons_iff in Hnd. destruct Hnd as [Hk Hrest].
    destruct (IH Hrest) as (H1 & H2 & H3).
    destruct (analyzeNode nodes config k m) as [b|] eqn:E; simpl.
    + assert (Hid : b_nodeId b = k).
      { unfold analyzeNode in E. destruct (getNodeById nodes k); [|discriminate].
        destruct (diagnose config m) as [[iss sev] recs].
        destruct iss; [discriminate|]. injection E as <-. reflexivity. }
      rewrite Hid. repeat split.
      * constructor; [|assumption]. intros Hin. apply Hk, H2, Hin.
      * intros x [<-|Hx]; [left; reflexivity | right; apply H2, Hx].
      * lia.
    + repeat split; [assumption | intros x Hx; right; apply H2, Hx | lia].
Qed.

(** X25.  After any run the analysis reports each node at most once, and
    so no more bottlenecks than the graph has nodes. *)
Theorem each_node_is_reported_once nodes edges config rnd calls :
  let report :=
    analyzeBottlenecks nodes config (run nodes edges config rnd calls) in
  NoDup (map b_nodeId report) /\ length report <= length nodes.
Proof.
  intros report. subst report. unfold analyzeBottlenecks.
  destruct (initial_keys nodes config) as [Hnd Hkeys].
  rewrite <- (run_keys nodes edges config rnd calls) in Hnd, Hkeys.
  unfold keys in Hnd, Hkeys.
  destruct (collectBottlenecks_ids nodes config _ Hnd) as (H1 & H2 & H3).
  pose proof (sortBySeverity_perm
                (collectBottlenecks nodes config
                   (nodeMetrics (run nodes edges config rnd calls)))) as Hp.
  split.
  - eapply Permutation_NoDup; [apply Permutation_map; exact Hp | exact H1].
  - rewrite <- (Permutation_length Hp).
    eapply Nat.le_trans; [exact H3|].
    rewrite <- (length_map fst), <- (length_map n_id nodes).
    apply NoDup_incl_length; [exact Hnd|]. intros k Hk. apply Hkeys, Hk.
Qed.

(** ** Snapshots *)

Section Snapshots.

Variable nodes : list SystemNode.
Variable edges : list SystemEdge.
Variable config : SimulationConfig.
Variable rnd : nat -> Q.

Lemma kept_refl s : kept s s.
Proof. split; reflexivity. Qed.

Lemma kept_trans s1 s2 s3 : kept s1 s2 -> kept s2 s3 -> kept s1 s3.
Proof. intros [H1 H2] [H3 H4]. split; congruence. Qed.

Lemma generateOne_kept clientNodes s :
  kept s (fst (generateOne nodes edges config rnd clientNodes s)).
Proof.
  unfold generateOne, random.
  destruct (arrayAt clientNodes _); [|split; reflexivity].
  destruct (filter _ edges) as [|e es]; [split; reflexivity|].
  destruct (arrayAt (e :: es) _); split; reflexivity.
Qed.

Lemma generateLoop_kept count clientNodes s :
  kept s (fst (generateLoop nodes edges config rnd count clientNodes s)).
Proof.
  revert s. induction count as [|k IH]; intros s; simpl; [split; reflexivity|].
  pose proof (generateOne_kept clientNodes s) as H1.
  destruct (generateOne nodes edges config rnd clientNodes s) as [s1 [|]];
    simpl in H1; [|assumption].
  eapply kept_trans; [eassumption | apply IH].
Qed.

Lemma generateRequests_kept s :
  kept s (fst (generateRequests nodes edges config rnd s)).
Proof.
  unfold generateRequests, random.
  destruct (filter _ nodes); [split; reflexivity|].
  eapply kept_trans; [|apply generateLoop_kept]. split; reflexivity.
Qed.

Lemma handleNodeProcessing_kept node request s :
  kept s (handleNodeProcessing config rnd node request s).
Proof.
  unfold handleNodeProcessing, random.
  destruct (mapGet _ _); [|split; reflexivity].
  destruct (type (data node)); simpl; try (split; reflexivity);
    destruct (Num.Qltb _ _); split; reflexivity.
Qed.

Lemma processRequest_kept deltaTime request s :
  kept s (snd (fst (processRequest nodes edges config rnd deltaTime request s))).
Proof.
  unfold processRequest, random.
  destruct (isTerminal _); simpl; [split; reflexivity|].
  destruct (getNodeById nodes _) as [targetNode|]; simpl;
    [|split; reflexivity].
  destruct (Num.geb _ _); simpl; [|split; reflexivity].
  destruct (Num.Qltb _ _); simpl; [split; reflexivity|].
  destruct (findNextHop edges _ _); simpl;
    match goal with
    | |- context [handleNodeProcessing config rnd ?n ?r ?x] =>
        destruct (handleNodeProcessing_kept n r x) as [H1 H2];
        split; simpl; rewrite ?H1, ?H2; reflexivity
    end.
Qed.

Lemma processLoop_kept deltaTime requests s :
  kept s (snd (processLoop nodes edges config rnd deltaTime requests s)).
Proof.
  revert s. induction requests as [|r rest IH]; intros s; simpl;
    [split; reflexivity|].
  pose proof (processRequest_kept deltaTime r s) as H1.
  destruct (processRequest nodes edges config rnd deltaTime r s)
    as [[r' s1] done].
  simpl in H1. specialize (IH s1).
  destruct (processLoop nodes edges config rnd deltaTime rest s1)
    as [[rest' ids] s2].
  simpl in *. eapply kept_trans; eassumption.
Qed.

Lemma processRequests_kept deltaTime s :
  kept s (processRequests nodes edges config rnd deltaTime s).
Proof.
  unfold processRequests.
  pose proof (processLoop_kept deltaTime (activeRequests s) s) as H.
  destruct (processLoop _ _ _ _ _ _ _) as [[rs ids] s1]. exact H.
Qed.

Lemma scaleNode_kept nodeId metrics s :
  kept s (snd (scaleNode nodes nodeId metrics s)).
Proof.
  unfold scaleNode. destruct (getNodeById nodes nodeId); [|split; reflexivity].
  destruct (negb _); [split; reflexivity|]. unfold scaleUp, scaleDown.
  destruct (Num.gtb _ _ && _); simpl; destruct (Num.ltb _ _ && _);
    split; reflexivity.
Qed.

Lemma scaleLoop_kept entries s : kept s (snd (scaleLoop nodes entries s)).
Proof.
  revert s. induction entries as [|[nodeId metrics] rest IH]; intros s; simpl;
    [split; reflexivity|].
  pose proof (scaleNode_kept nodeId metrics s) as H1.
  destruct (scaleNode nodes nodeId metrics s) as [m1 s1]. simpl in H1.
  specialize (IH s1). destruct (scaleLoop nodes rest s1) as [rest' s2].
  simpl in *. eapply kept_trans; eassumption.
Qed.

Lemma checkAutoScaling_kept s : kept s (checkAutoScaling nodes s).
Proof.
  unfold checkAutoScaling.
  pose proof (scaleLoop_kept (nodeMetrics s) s) as H.
  destruct (scaleLoop nodes (nodeMetrics s) s) as [entries s1]. exact H.
Qed.

Lemma applyChaosEffects_kept s : kept s (fst (applyChaosEffects nodes rnd s)).
Proof.
  unfold applyChaosEffects, random.
  destruct (Num.Qltb _ _); [|split; reflexivity].
  destruct (arrayAt nodes _); split; reflexivity.
Qed.

Lemma tick_recorded s : recorded s (fst (tick nodes edges config rnd s)).
Proof.
  unfold tick.
  set (s1 := set_currentTime (currentTime s + tickRate config)%Q s).
  pose proof (generateRequests_kept s1) as [H2 _].
  destruct (generateRequests nodes edges config rnd s1) as [s2 [|]];
    simpl in H2; [|left; exact H2].
  pose proof (processRequests_kept (tickRate config) s2) as [H3 _].
  set (s3 := processRequests nodes edges config rnd (tickRate config) s2) in *.
  assert (H4 : metricsHistory (updateMetrics s3) = metricsHistory s
               /\ timestamp (systemMetrics (updateMetrics s3))
                  = currentTime (updateMetrics s3)).
  { split; [simpl; congruence|]. unfold updateMetrics.
    destruct (0 <? _); reflexivity. }
  set (s4 := updateMetrics s3) in *.
  assert (H5 : let s5 := if autoScaling config
                         then checkAutoScaling nodes s4 else s4 in
               metricsHistory s5 = metricsHistory s
               /\ timestamp (systemMetrics s5) = currentTime s5).
  { cbv zeta. destruct (autoScaling config); [|exact H4].
    destruct (checkAutoScaling_kept s4) as [K1 K2].
    rewrite (logged_currentTime _ _ (checkAutoScaling_logged nodes s4)).
    destruct H4. split; congruence. }
  set (s5 := if autoScaling config then _ else _) in *.
  assert (H6 : let s6 := fst (if chaosMode config
                              then applyChaosEffects nodes rnd s5
                              else (s5, Normal)) in
               metricsHistory s6 = metricsHistory s
               /\ timestamp (systemMetrics s6) = currentTime s6).
  { cbv zeta in *. destruct (chaosMode config); [|exact H5].
    destruct (applyChaosEffects_kept s5) as [K1 K2].
    rewrite (logged_currentTime _ _ (applyChaosEffects_logged nodes rnd s5)).
    destruct H5. split; congruence. }
  destruct (if chaosMode config then _ else _) as [s6 [|]]; simpl in H6;
    destruct H6 as [H6 H7]; [|left; exact H6].
  simpl. destruct (isMultipleOf1000 (currentTime s6)) eqn:E;
    [|left; exact H6].
  right. unfold takeMetricsSnapshot, keys. simpl. rewrite H6.
  repeat split; assumption.
Qed.

Lemma recorded_core s s1 s' : recorded s s1 -> core s' = core s1 ->
  currentTime s' = currentTime s1 -> recorded s s'.
Proof.
  intros H Hc Ht. unfold core in Hc. injection Hc as _ Hm Hs _ Hh _.
  unfold recorded, keys in *. rewrite Hh, Hs, Hm, Ht. exact H.
Qed.

Lemma step_recorded s c : recorded s (step nodes edges config rnd s c).
Proof.
  assert (Hsame : forall s', core s' = core s -> recorded s s').
  { intros s' Hc. left. unfold core in Hc. injection Hc as _ _ _ _ Hh _.
    exact Hh. }
  destruct c; try (apply Hsame, host_call_core; discriminate).
  cbn [step]. destruct (intervalId s); [|left; reflexivity].
  unfold intervalCallback. destruct (negb _); [left; reflexivity|].
  pose proof (tick_recorded s) as H.
  destruct (tick nodes edges config rnd s) as [s1 [|]]; simpl in H;
    [|exact H].
  destruct (Qle_bool _ _); [|exact H].
  eapply recorded_core; [exact H | apply core_complete |].
  apply announced_currentTime, complete_announced.
Qed.

(** X26.  Every snapshot of the history of a run was taken at a whole
    second of simulated time, holds system metrics that were refreshed at
    that very time, and maps every node id of the graph. *)
Theorem snapshots_are_taken_on_whole_seconds calls :
  Forall (snapshotAt (keys (initializeState nodes config)))
    (metricsHistory (run nodes edges config rnd calls)).
Proof.
  induction calls as [|c calls IH] using rev_ind; [constructor|].
  pose proof (run_keys nodes edges config rnd (calls ++ [c])) as Hk.
  rewrite run_snoc in *.
  destruct (step_recorded (run nodes edges config rnd calls) c)
    as [-> | (-> & Hm & Ht)]; [exact IH|].
  apply Forall_app. split; [exact IH|]. constructor; [|constructor].
  repeat split; simpl; assumption.
Qed.

End Snapshots.

(** X27.  A call leaves the history as it is or appends one snapshot to
    it, and then the snapshot holds the current time and the system
    metrics of the engine as the call leaves them. *)
Theorem a_call_appends_at_most_one_snapshot nodes edges config rnd s c :
  let s' := step nodes edges config rnd s c in
  metricsHistory s' = metricsHistory s
  \/ metricsHistory s'
     = metricsHistory s
       ++ [mkSnapshot (currentTime s') (systemMetrics s') (keys s')].
Proof.
  intros s'. destruct (step_recorded nodes edges config rnd s c) as [H|[H _]];
    [left | right]; exact H.
Qed.

(** ** Invariants of the active requests *)

Section Requests.

Variable nodes : list SystemNode.
Variable edges : list SystemEdge.
Variable config : SimulationConfig.
Variable rnd : nat -> Q.

Lemma generateOne_new clientNodes s :
  (forall n, In n clientNodes -> In n nodes /\ type (data n) = CLIENT) ->
  currentTime (fst (generateOne nodes edges config rnd clientNodes s))
  = currentTime s
  /\ exists fresh,
       activeRequests (fst (generateOne nodes edges config rnd clientNodes s))
       = activeRequests s ++ fresh
       /\ Forall (newRequest nodes edges (currentTime s)) fresh.
Proof.
  intros Hclients. unfold generateOne, random.
  assert (Hnone : forall x : Engine,
            activeRequests x = activeRequests s ->
            exists fresh,
              activeRequests x = activeRequests s ++ fresh
              /\ Forall (newRequest nodes edges (currentTime s)) fresh).
  { intros x Hx. exists []. rewrite app_nil_r. split; [exact Hx | constructor]. }
  destruct (arrayAt clientNodes _) as [clientNode|] eqn:Hc;
    [|split; [reflexivity | apply Hnone; reflexivity]].
  apply arrayAt_In in Hc. destruct (Hclients _ Hc) as [Hin Hty].
  destruct (filter _ edges) as [|e es] eqn:He;
    [split; [reflexivity | apply Hnone; reflexivity]|].
  destruct (arrayAt (e :: es) _) as [targetEdge|] eqn:Ht;
    [|split; [reflexivity | apply Hnone; reflexivity]].
  apply arrayAt_In in Ht. rewrite <- He in Ht.
  apply filter_In in Ht. destruct Ht as [Hte Hts].
  apply String.eqb_eq in Hts.
  split; [reflexivity|]. eexists [_]. split; [reflexivity|].
  constructor; [|constructor]. repeat split; simpl.
  - exists clientNode. auto.
  - exists targetEdge. auto.
Qed.

Lemma generateLoop_new count clientNodes s :
  (forall n, In n clientNodes -> In n nodes /\ type (data n) = CLIENT) ->
  currentTime (fst (generateLoop nodes edges config rnd count clientNodes s))
  = currentTime s
  /\ exists fresh,
       activeRequests
         (fst (generateLoop nodes edges config rnd count clientNodes s))
       = activeRequests s ++ fresh
       /\ Forall (newRequest nodes edges (currentTime s)) fresh.
Proof.
  intros Hclients. revert s. induction count as [|k IH]; intros s; simpl.
  - split; [reflexivity|]. exists []. rewrite app_nil_r.
    split; [reflexivity | constructor].
  - destruct (generateOne_new clientNodes s Hclients)
      as (Ht & fresh & Ha & Hf).
    destruct (generateOne nodes edges config rnd clientNodes s) as [s1 [|]];
      simpl in *; [|split; [assumption | exists fresh; auto]].
    destruct (IH s1) as (Ht' & fresh' & Ha' & Hf').
    split; [congruence|]. exists (fresh ++ fresh').
    rewrite Ha', Ha, app_assoc. split; [reflexivity|].
    apply Forall_app. split; [assumption|]. rewrite <- Ht. assumption.
Qed.

Lemma generateRequests_new s :
  exists fresh,
    activeRequests (fst (generateRequests nodes edges config rnd s))
    = activeRequests s ++ fresh
    /\ Forall (newRequest nodes edges (currentTime s)) fresh.
Proof.
  unfold generateRequests, random.
  destruct (filter _ nodes) as [|c cs] eqn:Ef.
  - exists []. rewrite app_nil_r. split; [reflexivity | constructor].
  - destruct (generateLoop_new
                (Z.to_nat
                   (Qfloor
                      (requestsPerSecond config * tickRate config / 1000
                       + rnd (randomCalls s))))
                (c :: cs) (set_randomCalls (S (randomCalls s)) s))
      as (_ & fresh & Ha & Hf).
    + intros n Hn. rewrite <- Ef in Hn. apply filter_In in Hn.
      destruct Hn as [Hin Hty]. split; [assumption|].
      unfold NodeType_eqb in Hty.
      destruct (NodeType_eq_dec _ _); [assumption | discriminate].
    + exists fresh. split; assumption.
Qed.

Variable R : ActiveRequest -> Prop.

Hypothesis R_process :
  forall deltaTime r s,
    R r -> R (fst (fst (processRequest nodes edges config rnd deltaTime r s))).

Hypothesis R_new : forall now r, newRequest nodes edges now r -> R r.

Lemma processLoop_requests deltaTime requests s :
  Forall R requests ->
  Forall R (fst (fst (processLoop nodes edges config rnd deltaTime requests s))).
Proof.
  revert s. induction requests as [|request rest IH]; intros s Hall; simpl;
    [constructor|].
  apply Forall_cons_iff in Hall. destruct Hall as [Hr Hrest].
  pose proof (R_process deltaTime request s Hr) as H1.
  destruct (processRequest _ _ _ _ _ _ _) as [[request' s1] done].
  specialize (IH s1 Hrest).
  destruct (processLoop _ _ _ _ _ _ _) as [[rest' ids] s2].
  simpl in *. constructor; assumption.
Qed.

Lemma tick_requests s :
  Forall R (activeRequests s) ->
  Forall R (activeRequests (fst (tick nodes edges config rnd s))).
Proof.
  intros Hall. unfold tick.
  set (s1 := set_currentTime (currentTime s + tickRate config)%Q s).
  destruct (generateRequests_new s1) as (fresh & Ha & Hf).
  assert (H2 : Forall R
                 (activeRequests
                    (fst (generateRequests nodes edges config rnd s1)))).
  { rewrite Ha. apply Forall_app. split; [exact Hall|].
    eapply Forall_impl; [|exact Hf]. intros r. apply R_new. }
  destruct (generateRequests nodes edges config rnd s1) as [s2 [|]];
    simpl in H2; [|assumption].
  pose proof (tick_tail_ledger nodes config rnd
                (processRequests nodes edges config rnd (tickRate config) s2))
    as Ht.
  cbv zeta in Ht. apply ledger_fields in Ht. destruct Ht as [Ht _].
  rewrite Ht. unfold processRequests.
  pose proof (processLoop_requests (tickRate config) (activeRequests s2) s2 H2)
    as H.
  destruct (processLoop _ _ _ _ _ _ _) as [[requests ids] s3].
  simpl in *. apply Forall_forall. intros r Hr. apply filter_In in Hr.
  rewrite Forall_forall in H. apply H. tauto.
Qed.

Lemma run_requests calls :
  Forall R (activeRequests (run nodes edges config rnd calls)).
Proof.
  apply run_invariant.
  - intros s s' Hc. unfold core in Hc. injection Hc as Ha _ _ _ _ _.
    rewrite Ha. auto.
  - constructor.
  - apply tick_requests.
Qed.

End Requests.

Lemma walk_app edges p a q :
  walk edges (p ++ [a]) -> walk edges (a :: q) -> walk edges (p ++ a :: q).
Proof.
  intros Hp Hq. induction p as [|x p IH]; [exact Hq|].
  destruct p as [|y p].
  - simpl in *. split; [apply Hp | exact Hq].
  - simpl in *. destruct Hp as [Hxy Hp]. split; [exact Hxy | apply IH, Hp].
Qed.

Lemma walk_prefix edges p a : walk edges (p ++ [a]) -> walk edges p.
Proof.
  intros Hp. induction p as [|x p IH]; [exact I|].
  destruct p as [|y p]; [exact I|].
  simpl in *. destruct Hp as [Hxy Hp]. split; [exact Hxy | apply IH, Hp].
Qed.

Lemma processRequest_routed nodes edges config rnd deltaTime request s :
  routed edges request ->
  routed edges
    (fst (fst (processRequest nodes edges config rnd deltaTime request s))).
Proof.
  intros [Hhd Hwalk]. unfold processRequest, random.
  destruct (isTerminal (r_status request)) eqn:Hterm.
  { split; simpl; [assumption | rewrite Hterm; assumption]. }
  destruct (getNodeById nodes _) as [targetNode|] eqn:Hfound.
  2: { split; simpl; [assumption | eapply walk_prefix; eassumption]. }
  destruct (Num.geb _ _).
  2: { split; simpl; [assumption | rewrite Hterm; assumption]. }
  assert (Hhd' : hd_error (path request ++ [targetNodeId request])
                 = Some (sourceNodeId request)).
  { destruct (path request); [discriminate | exact Hhd]. }
  destruct (Num.Qltb _ _); [split; assumption|].
  destruct (findNextHop edges _ _) as [nextHop|] eqn:Hnext;
    [|split; assumption].
  apply findNextHop_unvisited in Hnext. destruct Hnext as [Hedge _].
  rewrite (getNodeById_id _ _ _ Hfound) in Hedge.
  split; [assumption|]. simpl. rewrite <- app_assoc.
  apply walk_app; [assumption|]. simpl. split; [assumption | exact I].
Qed.

(** X28.  The path of every active request is a walk of the graph: it
    starts at the source of the request, each of its entries but the
    last has an edge to the next, and while the request is in flight
    the last has an edge to the target. *)
Theorem paths_are_walks nodes edges config rnd calls :
  Forall (routed edges) (activeRequests (run nodes edges config rnd calls)).
Proof.
  apply run_requests.
  - intros deltaTime r s. apply processRequest_routed.
  - intros now r (Hst & _ & _ & Hpath & _ & (e & He & Hsrc & Htgt)).
    unfold routed. rewrite Hst, Hpath. simpl.
    repeat split. destruct e as [a b]. simpl in *. subst. assumption.
Qed.

(** X29.  Over a graph in which no client has an edge to itself no
    active request ever has a node twice on its path, and so no path is
    longer than the number of distinct node ids: routing terminates. *)
Theorem paths_visit_no_node_twice nodes edges config rnd calls :
  (forall e n,
     In e edges -> In n nodes -> type (data n) = CLIENT ->
     source e = n_id n -> target e <> n_id n) ->
  Forall (fun r =>
            NoDup (path r)
            /\ length (path r) <= length (nodup string_dec (map n_id nodes)))
    (activeRequests (run nodes edges config rnd calls)).
Proof. intros H. apply paths_never_revisit. exact H. Qed.

(** X29, witness: the pipeline of a client, a queue and a service, which
    has no edge from the client to itself. *)
Lemma paths_visit_no_node_twice_witness :
  Forall (fun r =>
            NoDup (path r)
            /\ length (path r)
               <= length (nodup string_dec (map n_id pipelineNodes)))
    (activeRequests
       (run pipelineNodes pipelineEdges sampleConfig halves
          [CallStart; TimerFires; TimerFires])).
Proof.
  apply paths_visit_no_node_twice.
  intros e n [<-|[<-|[]]] [<-|[<-|[<-|[]]]]; simpl; intros; discriminate.
Defined.

(** ** The system metrics after a tick *)

Lemma sumQueueDepth_ext m m' :
  Forall2 (fun a b => queueDepth (snd a) = queueDepth (snd b)) m m' ->
  sumQueueDepth m = sumQueueDepth m'.
Proof.
  unfold sumQueueDepth. generalize 0.
  intros n H. revert n.
  induction H as [|a b m m' Hab _ IH]; intros n; simpl; [reflexivity|].
  rewrite Hab. apply IH.
Qed.

Section SettledMetrics.

Variable nodes : list SystemNode.
Variable edges : list SystemEdge.
Variable config : SimulationConfig.
Variable rnd : nat -> Q.

Lemma derivedKept_trans s1 s2 s3 :
  derivedKept s1 s2 -> derivedKept s2 s3 -> derivedKept s1 s3.
Proof. intros (A & B & C) (A' & B' & C'). repeat split; congruence. Qed.

Lemma scaleNode_derived nodeId metrics s :
  derivedKept s (snd (scaleNode nodes nodeId metrics s))
  /\ queueDepth (fst (scaleNode nodes nodeId metrics s)) = queueDepth metrics.
Proof.
  unfold scaleNode. destruct (getNodeById nodes nodeId);
    [|repeat split; reflexivity].
  destruct (negb _); [repeat split; reflexivity|]. unfold scaleUp, scaleDown.
  destruct (Num.gtb _ _ && _); simpl; destruct (Num.ltb _ _ && _);
    repeat split; reflexivity.
Qed.

Lemma scaleLoop_derived entries s :
  derivedKept s (snd (scaleLoop nodes entries s))
  /\ Forall2 (fun a b => queueDepth (snd a) = queueDepth (snd b))
       (fst (scaleLoop nodes entries s)) entries.
Proof.
  revert s. induction entries as [|[nodeId metrics] rest IH]; intros s; simpl.
  - split; [repeat split; reflexivity | constructor].
  - destruct (scaleNode_derived nodeId metrics s) as [H1 Hq].
    destruct (scaleNode nodes nodeId metrics s) as [m1 s1]. simpl in H1, Hq.
    destruct (IH s1) as [H2 Hrest].
    destruct (scaleLoop nodes rest s1) as [rest' s2]. simpl in *.
    split; [eapply derivedKept_trans; eassumption|].
    constructor; assumption.
Qed.

Lemma settledMetrics_derived s s' :
  derivedKept s s' -> sumQueueDepth (nodeMetrics s') = sumQueueDepth (nodeMetrics s) ->
  settledMetrics s -> settledMetrics s'.
Proof.
  intros (Ht & Ha & Hs) Hq (H1 & H2 & H3 & H4 & H5).
  unfold settledMetrics. rewrite Ht, Ha, Hq.
  pose proof (f_equal timestamp Hs) as E1.
  pose proof (f_equal s_activeRequests Hs) as E2.
  pose proof (f_equal totalQueueDepth Hs) as E3.
  pose proof (f_equal s_requestsPerSecond Hs) as E4.
  pose proof (f_equal totalRequests Hs) as E5.
  pose proof (f_equal s_errorRate Hs) as E6.
  pose proof (f_equal failedRequests Hs) as E7.
  simpl in E1, E2, E3, E4, E5, E6, E7.
  rewrite E1, E2, E3, E4, E5, E6, E7. repeat split; assumption.
Qed.

Lemma updateMetrics_settled s : settledMetrics (updateMetrics s).
Proof.
  unfold settledMetrics, updateMetrics.
  cbn [systemMetrics set_systemMetrics set_nodeMetrics currentTime
       activeRequests nodeMetrics].
  assert (Hq : sumQueueDepth
                 (map (fun kv => (fst kv, refreshSuccessRate (snd kv)))
                    (nodeMetrics s))
               = sumQueueDepth (nodeMetrics s)).
  { apply sumQueueDepth_ext.
    induction (nodeMetrics s) as [|[k v] m IH]; simpl; constructor; [|exact IH].
    simpl. unfold refreshSuccessRate. destruct (0 <? throughput v); reflexivity. }
  rewrite Hq.
  destruct (0 <? totalRequests _) eqn:E; simpl;
    repeat split; try reflexivity.
  intros Hpos. apply Nat.ltb_ge in E. simpl in E. lia.
Qed.

(** X30.  After a tick that returns normally the derived fields of the
    system metrics agree with the engine as the tick leaves it: the
    timestamp is the current time, the active requests are the length of
    the list, finished requests included, the total queue depth is the
    sum over the nodes, the rate is the total over the elapsed seconds,
    and the error rate is the failed over the total once there is a
    request. *)
Theorem tick_settles_the_system_metrics s :
  snd (tick nodes edges config rnd s) = Normal ->
  settledMetrics (fst (tick nodes edges config rnd s)).
Proof.
  unfold tick.
  destruct (generateRequests _ _ _ _ _) as [s2 [|]]; [|discriminate].
  set (s4 := updateMetrics _).
  assert (H4 : settledMetrics s4) by apply updateMetrics_settled.
  assert (H5 : settledMetrics
                 (if autoScaling config then checkAutoScaling nodes s4 else s4)).
  { destruct (autoScaling config); [|exact H4].
    unfold checkAutoScaling.
    destruct (scaleLoop_derived (nodeMetrics s4) s4) as [Hd Hq].
    pose proof (scaleLoop_nodeMetrics nodes (nodeMetrics s4) s4) as Hm.
    destruct (scaleLoop nodes (nodeMetrics s4) s4) as [entries s5].
    simpl in Hd, Hq, Hm.
    eapply settledMetrics_derived; [| |exact H4].
    - destruct Hd as (A & B & C). repeat split; assumption.
    - simpl. apply sumQueueDepth_ext. exact Hq. }
  set (s5 := if autoScaling config then _ else _) in *.
  assert (H6 : settledMetrics
                 (fst (if chaosMode config
                       then applyChaosEffects nodes rnd s5 else (s5, Normal)))).
  { destruct (chaosMode config); [|exact H5].
    eapply settledMetrics_derived; [| |exact H5];
      unfold applyChaosEffects, random;
      destruct (Num.Qltb _ _); try (repeat split; reflexivity);
      destruct (arrayAt nodes _); repeat split; reflexivity. }
  destruct (if chaosMode config then _ else _) as [s6 [|]]; simpl in *;
    [|discriminate].
  intros _. destruct (isMultipleOf1000 (currentTime s6)); exact H6.
Qed.

End SettledMetrics.

(** X30, witness: the first tick of one client in front of one database. *)
Lemma tick_settles_the_system_metrics_witness :
  settledMetrics
    (fst (tick clientDbNodes clientDbEdges sampleConfig halves
            (initializeState clientDbNodes sampleConfig))).
Proof. apply tick_settles_the_system_metrics. reflexivity. Defined.
